(** * safelease: a disk-based lease in one 512-byte sector

    Shallow embedding of [vdsm/storage/protect/safelease.c].

    - C integers, bytes, and the fragments of libc the program formats
      and parses with ([Libc]).
    - Part 1, the sector codec: the 32-byte tag (identity ++ hex
      timestamp), [buildtag], [querytag], [sametag], [isfree], [sameid].
    - Part 2, the process and the device: the globals, the I/O buffer,
      [errno], the clock, the pending alarm, and the system calls as
      steps of a state monad with an exit outcome.
    - Part 3, the lease operations: [readtag], [writetag],
      [writetimestamp], [renew], [release], [query], [acquire].
    - Part 4, the properties; Part 5, further properties of the
      operations.
    - Part 6, two processes that contend for one sector: a round of
      [acquire] cut into phases, and the schedules of two such rounds
      in real time. *)

From Stdlib Require Import String Ascii ZArith List Bool Lia.
Import ListNotations.
Local Open Scope Z_scope.

(** ** C integers

    [long long] and [unsigned long long] are 64 bits wide, [unsigned int]
    is 32 bits wide (LP64).  Values are kept in [Z] and wrapped where the
    C code converts or may overflow. *)

Definition u64 (z : Z) : Z := z mod 2 ^ 64.
Definition s64 (z : Z) : Z := (z + 2 ^ 63) mod 2 ^ 64 - 2 ^ 63.
Definition u32 (z : Z) : Z := z mod 2 ^ 32.
Definition ULLONG_MAX : Z := 2 ^ 64 - 1.

Definition in_s64 (z : Z) : Prop := - 2 ^ 63 <= z < 2 ^ 63.

(** ** Bytes and C strings *)

Definition bytes := list ascii.

Definition NUL : ascii := Ascii.zero.
Definition SP : ascii := " "%char.

Definition lit (s : string) : bytes := list_ascii_of_string s.

Fixpoint bytes_eqb (a b : bytes) : bool :=
  match a, b with
  | [], [] => true
  | x :: a', y :: b' => Ascii.eqb x y && bytes_eqb a' b'
  | _, _ => false
  end.

(** The string a [char] buffer holds: its bytes up to the first NUL. *)
Fixpoint cstr (buf : bytes) : bytes :=
  match buf with
  | [] => []
  | c :: r => if Ascii.eqb c NUL then [] else c :: cstr r
  end.

(** [memcmp(a, b, n) == 0] *)
Definition memeq (n : nat) (a b : bytes) : bool :=
  bytes_eqb (firstn n a) (firstn n b).

(** [memcpy(dst, src, n)]: the first [n] bytes of [dst] are replaced. *)
Definition memcpy (dst src : bytes) (n : nat) : bytes :=
  firstn n src ++ skipn n dst.

(** Trailing spaces removed. *)
Definition rstrip (s : bytes) : bytes :=
  fold_right
    (fun c acc =>
       match acc with
       | [] => if Ascii.eqb c SP then [] else [c]
       | _ => c :: acc
       end) [] s.

(** ** The libc formatting and parsing the codec relies on *)

Module Libc.

Definition code (c : ascii) : Z := Z.of_nat (nat_of_ascii c).

(** Lowercase hexadecimal digit of [d], [0 <= d < 16]. *)
Definition hexchar (d : Z) : ascii :=
  ascii_of_nat (Z.to_nat (if d <? 10 then 48 + d else 87 + d)).

Definition hexval (c : ascii) : option Z :=
  let n := code c in
  if (48 <=? n) && (n <=? 57) then Some (n - 48)
  else if (97 <=? n) && (n <=? 102) then Some (n - 87)
  else if (65 <=? n) && (n <=? 70) then Some (n - 55)
  else None.

(** The [n] low hexadecimal digits of [v], most significant first. *)
Fixpoint hexdigits (n : nat) (v : Z) : bytes :=
  match n with
  | O => []
  | S k => hexdigits k (v / 16) ++ [hexchar (v mod 16)]
  end.

(** Number of digits [%llx] prints for [v >= 0]. *)
Definition hexlen (v : Z) : nat :=
  if v =? 0 then 1%nat else Z.to_nat (Z.log2 v / 4 + 1).

(** ["%0*llx"] with width [w] applied to the unsigned value [v]. *)
Definition fmt_0llx (w : nat) (v : Z) : bytes :=
  hexdigits (Nat.max w (hexlen v)) v.

(** ["%-*s"] with width [w]: left-justified, padded with spaces, never
    truncated. *)
Definition fmt_ls (w : nat) (s : bytes) : bytes :=
  s ++ repeat SP (w - length s).

(** [snprintf(buf, size, ...)] keeps at most [size - 1] characters of
    the formatted text (and terminates them with NUL). *)
Definition snprintf (size : nat) (text : bytes) : bytes :=
  firstn (size - 1) text.

Definition isspace (c : ascii) : bool :=
  let n := code c in (n =? 32) || ((9 <=? n) && (n <=? 13)).

Fixpoint skipspace (s : bytes) : bytes :=
  match s with
  | c :: r => if isspace c then skipspace r else s
  | [] => []
  end.

(** Accumulate hexadecimal digits until the first character that is
    not one. *)
Fixpoint hexacc (acc : Z) (s : bytes) : Z :=
  match s with
  | [] => acc
  | c :: r =>
      match hexval c with
      | Some d => hexacc (acc * 16 + d) r
      | None => acc
      end
  end.

(** [strtoull(s, 0, 16)]: leading white space, an optional sign, an
    optional [0x] prefix, then digits; a value that does not fit is
    [ULLONG_MAX]; a minus sign negates in unsigned arithmetic. *)
Definition strtoull16 (s : bytes) : Z :=
  let s1 := skipspace s in
  let '(neg, s2) :=
    match s1 with
    | c :: r =>
        if Ascii.eqb c "-" then (true, r)
        else if Ascii.eqb c "+" then (false, r)
        else (false, s1)
    | [] => (false, s1)
    end in
  let s3 :=
    match s2 with
    | z :: x :: r =>
        if Ascii.eqb z "0" && (Ascii.eqb x "x" || Ascii.eqb x "X")
        then r else s2
    | _ => s2
    end in
  let acc := hexacc 0 s3 in
  if acc >? ULLONG_MAX then ULLONG_MAX
  else if neg then u64 (- acc) else acc.

(** A hexadecimal digit is none of the characters [strtoull] and
    the string functions treat specially. *)
Definition plain (c : ascii) : bool :=
  negb (isspace c) && negb (Ascii.eqb c "-") && negb (Ascii.eqb c "+")
  && negb (Ascii.eqb c "x") && negb (Ascii.eqb c "X")
  && negb (Ascii.eqb c NUL).

End Libc.

(** ** Part 1: the sector codec *)

Definition freetag : bytes := lit "------FREE------0000000000000000".

Definition idlen : nat := 16.
Definition stamplen : nat := 16.
Definition taglen : nat := (idlen + stamplen)%nat.

(** [sametag]: [!memcmp(tag1, tag2, taglen)] *)
Definition sametag (tag1 tag2 : bytes) : bool := memeq taglen tag1 tag2.

Definition isfree (tag : bytes) : bool := sametag tag freetag.

(** [settag]: [memcpy(tag, src, taglen)] *)
Definition settag (tag src : bytes) : bytes := memcpy tag src taglen.

(** [buildtag]: [snprintf(tag, taglen+1, "%-*s%0*llx", idlen, id, stamplen, ts)].
    [ts] is a [long long] printed through an unsigned conversion. *)
Definition buildtag (id : bytes) (ts : Z) : bytes :=
  Libc.snprintf (taglen + 1)
    (Libc.fmt_ls idlen id ++ Libc.fmt_0llx stamplen (u64 ts)).

(** [sameid]: the identity is formatted into a 16-character scratch
    buffer and compared with the first 16 bytes of the tag. *)
Definition sameid (tag id : bytes) : bool :=
  let _id := Libc.snprintf (idlen + 1) (Libc.fmt_ls idlen id) in
  memeq idlen tag _id.

(** [querytag]: the identity is the first 16 bytes of the tag, copied
    as they are; the stamp is the next 16 bytes read as a string by
    [strtoull] and stored into a [long long]. *)
Definition querytag (tag : bytes) : bytes * Z :=
  let id := firstn idlen tag in
  let _stamp := memcpy (repeat NUL (stamplen + 1)) (skipn idlen tag) stamplen in
  (id, s64 (Libc.strtoull16 (cstr _stamp))).

(** [validate_id] panics unless this holds: [strlen(id) <= idlen] and
    [strncmp(id, freetag, idlen) != 0]. *)
Definition strncmp_eq (n : nat) (a b : bytes) : bool :=
  bytes_eqb (firstn n a) (firstn n b).

Definition validate_id_ok (id : bytes) : bool :=
  (length id <=? idlen)%nat && negb (strncmp_eq idlen id freetag).

(** ** Part 2: the process and the device

    One invocation of the program is one process.  Its state is the
    globals of the C file ([lease_ms], [op_max_ms], the 512-byte
    [iobuf]), [errno], and what the kernel keeps for it: the wall clock
    in microseconds, the pending alarm, and the opened file.  The file is
    a byte-addressed device [disk]; [device] lists, call by call, how the
    kernel answers the next positional read or write (bytes transferred
    or an error number, and how long the call takes).  [trace] records
    the calls made, most recent first. *)

Record timeval := { tv_sec : Z; tv_usec : Z }.

Inductive io_result :=
| Transferred (n : Z)
| Failed (e : Z).

Record io_step := { io_res : io_result; io_usec : Z }.

Inductive event :=
| EvPread (fd offset : Z)
| EvPwrite (fd : Z) (buf : bytes) (offset : Z)
| EvAlarm (seconds : Z)
| EvUsleep (usec : Z)
| EvPrintf (state id stamp : bytes) (tsec tusec : Z).

Record world := {
  lease_ms : Z;
  op_max_ms : Z;
  iobuf : bytes;
  errno : Z;
  disk : Z -> ascii;
  clock : Z;
  alarm_at : option Z;
  device : list io_step;
  trace : list event
}.

Definition set_iobuf (b : bytes) (w : world) : world :=
  {| lease_ms := lease_ms w; op_max_ms := op_max_ms w; iobuf := b;
     errno := errno w; disk := disk w; clock := clock w;
     alarm_at := alarm_at w; device := device w; trace := trace w |}.

Definition set_errno (e : Z) (w : world) : world :=
  {| lease_ms := lease_ms w; op_max_ms := op_max_ms w; iobuf := iobuf w;
     errno := e; disk := disk w; clock := clock w;
     alarm_at := alarm_at w; device := device w; trace := trace w |}.

Definition set_disk (d : Z -> ascii) (w : world) : world :=
  {| lease_ms := lease_ms w; op_max_ms := op_max_ms w; iobuf := iobuf w;
     errno := errno w; disk := d; clock := clock w;
     alarm_at := alarm_at w; device := device w; trace := trace w |}.

Definition set_clock (t : Z) (w : world) : world :=
  {| lease_ms := lease_ms w; op_max_ms := op_max_ms w; iobuf := iobuf w;
     errno := errno w; disk := disk w; clock := t;
     alarm_at := alarm_at w; device := device w; trace := trace w |}.

Definition set_alarm (a : option Z) (w : world) : world :=
  {| lease_ms := lease_ms w; op_max_ms := op_max_ms w; iobuf := iobuf w;
     errno := errno w; disk := disk w; clock := clock w;
     alarm_at := a; device := device w; trace := trace w |}.

Definition set_device (l : list io_step) (w : world) : world :=
  {| lease_ms := lease_ms w; op_max_ms := op_max_ms w; iobuf := iobuf w;
     errno := errno w; disk := disk w; clock := clock w;
     alarm_at := alarm_at w; device := l; trace := trace w |}.

Definition log (e : event) (w : world) : world :=
  {| lease_ms := lease_ms w; op_max_ms := op_max_ms w; iobuf := iobuf w;
     errno := errno w; disk := disk w; clock := clock w;
     alarm_at := alarm_at w; device := device w; trace := e :: trace w |}.

(** [count] bytes of the device starting at [offset]. *)
Definition bytes_at (d : Z -> ascii) (offset : Z) (count : nat) : bytes :=
  map (fun i => d (offset + Z.of_nat i)) (seq 0 count).

(** The device after [data] has been stored at [offset]. *)
Definition write_at (d : Z -> ascii) (offset : Z) (data : bytes) : Z -> ascii :=
  fun a =>
    if (offset <=? a) && (a <? offset + Z.of_nat (length data))
    then nth (Z.to_nat (a - offset)) data NUL
    else d a.

(** The sector of the lease at [offset]. *)
Definition sector (w : world) (offset : Z) : bytes :=
  bytes_at (disk w) offset 512.

(** A computation either returns a value or ends the process with an
    exit status ([panic], the alarm handler). *)
Inductive outcome (A : Type) : Type :=
| Ret (a : A) (w : world)
| Exit (status : Z) (w : world).
Arguments Ret {A} a w.
Arguments Exit {A} status w.

Definition M (A : Type) : Type := world -> outcome A.

Definition ret {A} (a : A) : M A := fun w => Ret a w.

Definition bind {A B} (c : M A) (k : A -> M B) : M B :=
  fun w =>
    match c w with
    | Ret a w' => k a w'
    | Exit s w' => Exit s w'
    end.

Declare Scope lease_scope.
Delimit Scope lease_scope with lease.
Notation "x <- c ;; k" := (bind c (fun x => k))
  (at level 100, c at next level, right associativity) : lease_scope.
Notation "' p <- c ;; k" := (bind c (fun x => let p := x in k))
  (at level 100, p pattern, c at next level, right associativity) : lease_scope.
Notation "c ;; k" := (bind c (fun _ => k))
  (at level 100, right associativity) : lease_scope.
Local Open Scope lease_scope.

Definition get {A} (f : world -> A) : M A := fun w => Ret (f w) w.
Definition modify (f : world -> world) : M unit := fun w => Ret tt (f w).

Definition EIO : Z := 5.
Definition ETIMEDOUT : Z := 110.

(** [panic]: print and [exit(-1)]. *)
Definition panic {A} : M A := fun w => Exit (-1) w.

(** [handler]: the SIGALRM handler [renew] installs; it panics. *)
Definition handler {A} : M A := panic.

(** A transfer that takes [usec] microseconds.  Nothing in the program
    cancels a transfer: when the alarm comes due before the call is
    over, the transfer still does what the kernel answers for it, and
    [handler] runs when the call comes back.  The program arms the
    alarm only after installing [handler]. *)
Definition blocking {A} (usec : Z) (k : M A) : M A :=
  fun w =>
    match alarm_at w with
    | Some t =>
        if t <=? clock w + usec
        then bind k (fun _ => handler)
               (set_alarm None (set_clock (clock w + usec) w))
        else k (set_clock (clock w + usec) w)
    | None => k (set_clock (clock w + usec) w)
    end.

(** A sleep of [usec] microseconds.  A sleep is cut short by the alarm:
    [handler] runs at the instant the alarm comes due. *)
Definition sleeping (usec : Z) : M unit :=
  fun w =>
    match alarm_at w with
    | Some t =>
        if t <=? clock w + usec
        then handler (set_alarm None (set_clock t w))
        else Ret tt (set_clock (clock w + usec) w)
    | None => Ret tt (set_clock (clock w + usec) w)
    end.

(** The kernel's answer to the next transfer; a device with nothing
    more to say answers [EIO] at once. *)
Definition next_step (w : world) : io_step * world :=
  match device w with
  | st :: rest => (st, set_device rest w)
  | [] => ({| io_res := Failed EIO; io_usec := 0 |}, w)
  end.

Definition clamp (n count : Z) : nat := Z.to_nat (Z.min n count).

Definition gettimeofday : M timeval :=
  get (fun w => {| tv_sec := clock w / 1000000; tv_usec := clock w mod 1000000 |}).

(** [alarm(seconds)], [seconds] an [unsigned int]: zero cancels the
    pending alarm and arms none. *)
Definition alarm (seconds : Z) : M unit :=
  modify (fun w =>
    let s := u32 seconds in
    log (EvAlarm s)
      (set_alarm (if s =? 0 then None else Some (clock w + s * 1000000)) w)).

(** [usleep(usec)], [usec] an [unsigned int]. *)
Definition usleep (usec : Z) : M unit :=
  modify (log (EvUsleep (u32 usec))) ;;
  sleeping (u32 usec).

(** [pread(fd, iobuf, count, offset)]: the bytes transferred replace the
    front of [iobuf]; the rest of [iobuf] stays as it was. *)
Definition pread (fd count offset : Z) : M Z :=
  fun w =>
    let '(st, w1) := next_step (log (EvPread fd offset) w) in
    blocking (io_usec st)
      (fun w2 =>
         match io_res st with
         | Failed e => Ret (-1) (set_errno e w2)
         | Transferred n =>
             let k := clamp n count in
             Ret (Z.of_nat k)
               (set_iobuf (memcpy (iobuf w2) (bytes_at (disk w2) offset k) k) w2)
         end) w1.

(** [pwrite(fd, iobuf, count, offset)]: the first bytes of [iobuf], as
    many as the kernel transfers, are stored on the device. *)
Definition pwrite (fd count offset : Z) : M Z :=
  fun w =>
    let buf := firstn (Z.to_nat count) (iobuf w) in
    let '(st, w1) := next_step (log (EvPwrite fd buf offset) w) in
    blocking (io_usec st)
      (fun w2 =>
         match io_res st with
         | Failed e => Ret (-1) (set_errno e w2)
         | Transferred n =>
             let k := clamp n count in
             Ret (Z.of_nat k)
               (set_disk (write_at (disk w2) offset (firstn k buf)) w2)
         end) w1.

(** The process as [main] leaves it before it runs an operation:
    [iobuf] zeroed, no alarm pending. *)
Definition after_main (lease op_max : Z) (d : Z -> ascii) (now : Z)
    (answers : list io_step) : world :=
  {| lease_ms := lease; op_max_ms := op_max; iobuf := repeat NUL 512;
     errno := 0; disk := d; clock := now; alarm_at := None;
     device := answers; trace := [] |}.

(** What [pread] or [pwrite] returns for the answer [st]. *)
Definition returned (st : io_step) (count : Z) : Z :=
  match io_res st with
  | Transferred n => Z.of_nat (clamp n count)
  | Failed _ => -1
  end.

(** A device that holds [content] from offset 0 on and NUL elsewhere. *)
Definition device_of (content : bytes) : Z -> ascii :=
  fun a => if a <? 0 then NUL else nth (Z.to_nat a) content NUL.

(** The kernel transfers [n] bytes and takes [usec] microseconds. *)
Definition transfer (n usec : Z) : io_step :=
  {| io_res := Transferred n; io_usec := usec |}.

(** *** Example processes

    A lease of 60 s with 5 s per transfer, the clock in 2023. *)

Definition t0 : Z := 1700000000000000.

(** The sector is free; one full transfer is answered. *)
Definition on_free_sector : world :=
  after_main 60000 5000 (device_of freetag) t0 [transfer 512 1000].

(** [B] took the lease 30 s ago; one full transfer is answered. *)
Definition on_sector_of_B : world :=
  after_main 60000 5000 (device_of (buildtag (lit "B") t0)) (t0 + 30000000)
    [transfer 512 1000].

(** [A] took the lease 30 s ago and the rest of the sector holds [x];
    two full transfers are answered. *)
Definition on_sector_of_A : world :=
  after_main 60000 5000
    (device_of (buildtag (lit "A") t0 ++ repeat "x"%char 480))
    (t0 + 30000000) [transfer 512 1000; transfer 512 1000].

(** [A] took the lease 59.5 s ago; the read is quick, the write takes
    2 s. *)
Definition on_sector_of_A_late : world :=
  after_main 60000 5000 (device_of (buildtag (lit "A") t0)) (t0 + 59500000)
    [transfer 512 0; transfer 512 2000000].

(** The sector carries the sentinel's identity and the stamp 1. *)
Definition on_stamped_free_identity : world :=
  after_main 60000 5000 (device_of (buildtag (lit "------FREE------") 1)) t0
    [transfer 512 1000].

(** The sector is free and five full transfers are answered, enough
    for an uncontended [acquire]. *)
Definition on_free_sector_alone : world :=
  after_main 60000 5000 (device_of freetag) t0
    [transfer 512 1000; transfer 512 1000; transfer 512 1000;
     transfer 512 1000; transfer 512 1000].

(** The kernel stores 31, or 100, of the 512 bytes. *)
Definition short_of_tag : world :=
  after_main 60000 5000 (device_of freetag) t0 [transfer 31 1000].

Definition short_of_sector : world :=
  after_main 60000 5000 (device_of freetag) t0 [transfer 100 1000].

(** ** Part 3: timed sector I/O and the lease operations

    [int] results are kept in [Z]; an out-parameter is passed in and
    handed back with the result.  [DEBUG] output goes to [stderr] and is
    left out. *)

(** [tv2msec]: [tv->tv_sec * 1000ull + tv->tv_usec/1000] *)
Definition tv2msec (tv : timeval) : Z :=
  u64 (tv_sec tv * 1000 + Z.quot (tv_usec tv) 1000).

Definition withintimelimits (start stop : timeval) : M Z :=
  op_max <- get op_max_ms ;;
  if op_max <=? 0 then ret 1
  else
    let delta := u64 (tv2msec stop - tv2msec start) in
    if delta >? u64 op_max
    then modify (set_errno (- ETIMEDOUT)) ;; ret 0
    else ret 1.

(** A [char buf[n] = ""] local. *)
Definition fresh (n : nat) : bytes := repeat NUL n.

(** [readtag]: the result and the contents of [tag] afterwards. *)
Definition readtag (fd offset : Z) (tag : bytes) (limit : Z) : M (Z * bytes) :=
  start <- gettimeofday ;;
  r <- pread fd 512 offset ;;
  stop <- gettimeofday ;;
  late <- (if r <=? 0 then ret true
           else if limit =? 0 then ret false
           else ok <- withintimelimits start stop ;; ret (ok =? 0)) ;;
  if (late : bool) then ret (-1, tag)
  else
    buf <- get iobuf ;;
    ret (r, memcpy tag buf taglen).

(** [writetag] *)
Definition writetag (fd offset : Z) (tag : bytes) (limit : Z) : M Z :=
  modify (fun w => set_iobuf (memcpy (iobuf w) tag taglen) w) ;;
  start <- gettimeofday ;;
  n <- pwrite fd 512 offset ;;
  let r := if n <? Z.of_nat taglen then -1 else 0 in
  stop <- gettimeofday ;;
  late <- (if r <? 0 then ret true
           else if limit =? 0 then ret false
           else ok <- withintimelimits start stop ;; ret (ok =? 0)) ;;
  if (late : bool) then ret (-1) else ret r.

(** [writetimestamp]: the result, the tag built, and [*ts] afterwards. *)
Definition writetimestamp (fd offset : Z) (id : bytes) (ts : Z)
  : M (Z * bytes * Z) :=
  tv <- gettimeofday ;;
  let t := s64 (tv_sec tv * 1000000 + tv_usec tv) in
  let tag := buildtag id t in
  r <- writetag fd offset tag 1 ;;
  ret (r, tag, if r >? 0 then t else ts).

(** [timeleft_ms] *)
Definition timeleft_ms (tsprev : Z) : M Z :=
  let tsprev := Z.quot tsprev 1000 in
  tv <- gettimeofday ;;
  let tscurr := s64 (tv2msec tv) in
  lease <- get lease_ms ;;
  ret (s64 (lease - s64 (tscurr - tsprev))).

(** What [timeleft_ms] computes when the clock shows [now]. *)
Definition msleft_at (lease now tsprev : Z) : Z :=
  s64 (lease
       - s64 (s64 (tv2msec {| tv_sec := now / 1000000;
                              tv_usec := now mod 1000000 |})
              - Z.quot tsprev 1000)).

(** [renew]: the result and [*ts] afterwards.  Installing the handler
    with [sigaction] cannot fail for SIGALRM and leaves no trace. *)
Definition renew (fd offset : Z) (id : bytes) (ts : Z) : M (Z * Z) :=
  '(r, curr) <- readtag fd offset (fresh (taglen + 1)) 0 ;;
  if r <? 0 then
    e <- get errno ;; alarm 0 ;; ret (- e, ts)
  else if negb (sameid curr id) then
    alarm 0 ;; ret (0, 0)
  else
    let ts := snd (querytag curr) in
    msleft <- timeleft_ms ts ;;
    if msleft <=? 0 then
      alarm 0 ;; ret (- ETIMEDOUT, ts)
    else
      alarm (Z.quot msleft 1000) ;;
      '(r, tag, ts) <- writetimestamp fd offset id ts ;;
      if r <? 0 then
        e <- get errno ;; alarm 0 ;; ret (- e, ts)
      else
        alarm 0 ;; ret (1, ts).

(** [release] *)
Definition release (fd offset : Z) (id : bytes) (force : Z) : M Z :=
  let free :=
    r <- writetag fd offset freetag 0 ;;
    ret (if r <? 0 then -1 else 1) in
  if force =? 0 then
    '(r, curr) <- readtag fd offset (fresh (taglen + 1)) 0 ;;
    if r <? 0 then e <- get errno ;; ret (- e)
    else if negb (sameid curr id) then ret 0
    else free
  else free.

(** The word [query] prints first. *)
Definition query_state (curr : bytes) : bytes :=
  if sameid curr freetag then lit "FREE" else lit "LOCKED".

(** [query]: the line printed is recorded by its fields; the calendar
    rendering of [tsec] is libc's [ctime]. *)
Definition query (fd offset : Z) : M Z :=
  '(r, curr) <- readtag fd offset (fresh (taglen + 1)) 0 ;;
  if r <? 0 then e <- get errno ;; ret (- e)
  else
    let '(id, ts) := querytag curr in
    let tsec := Z.quot ts 1000000 in
    let tusec := Z.rem ts 1000000 in
    modify (log (EvPrintf (query_state curr)
                   (Libc.fmt_ls idlen (cstr id))
                   (Libc.fmt_0llx stamplen (u64 ts)) tsec tusec)) ;;
    ret 1.

(** The world a computation ends in, whichever way it ends. *)
Definition final {A} (o : outcome A) : world :=
  match o with
  | Ret _ w => w
  | Exit _ w => w
  end.

(** The writes a run has issued, oldest first: the buffers handed to
    [pwrite] and their offsets. *)
Definition writes (w : world) : list (bytes * Z) :=
  flat_map
    (fun e => match e with EvPwrite _ buf off => [(buf, off)] | _ => [] end)
    (rev (trace w)).

(** The alarm calls a run has made, oldest first. *)
Definition alarms (w : world) : list Z :=
  flat_map
    (fun e => match e with EvAlarm s => [s] | _ => [] end)
    (rev (trace w)).

(** The process once the kernel has answered a transfer with [st]:
    the call is on the trace, the answer is used up, the clock has
    moved on. *)
Definition answered (ev : event) (st : io_step) (rest : list io_step)
    (w : world) : world :=
  set_clock (clock w + io_usec st) (set_device rest (log ev w)).

(** *** acquire

    The two [do ... while] loops of [acquire] need not end (a busy
    caller waits for as long as the holder keeps renewing), so they are
    unrolled against a bound: [None] means the bound was reached. *)

Inductive flow (A : Type) : Type :=
| Return (rc : Z)
| Go (a : A).
Arguments Return {A} rc.
Arguments Go {A} a.

(** The inner loop: remember the tag seen, sleep a lease and more, read
    again; a busy caller repeats while the tag keeps changing. *)
Fixpoint backoff (fuel : nat) (fd offset busyloop backoff_usec : Z)
    (curr last : bytes) : M (option (flow (bytes * bytes))) :=
  match fuel with
  | O => ret None
  | S fuel' =>
      let last := settag last curr in
      usleep backoff_usec ;;
      '(r, curr) <- readtag fd offset curr 1 ;;
      if r <? 0 then e <- get errno ;; ret (Some (Return (- e)))
      else if negb (busyloop =? 0) && negb (sametag curr last)
              && negb (isfree curr)
      then backoff fuel' fd offset busyloop backoff_usec curr last
      else ret (Some (Go (curr, last)))
  end.

(** The outer loop: wait, give up if the holder is alive, else write
    our stamp, sleep the contention window and read again. *)
Fixpoint contend (fuel : nat) (fd offset : Z) (id : bytes)
    (busyloop backoff_usec contend_usec : Z) (curr last : bytes) (ts : Z)
  : M (option (flow (bytes * bytes) * Z)) :=
  match fuel with
  | O => ret None
  | S fuel' =>
      waited <- (if negb (sametag curr last) && negb (isfree curr)
                 then backoff fuel fd offset busyloop backoff_usec curr last
                 else ret (Some (Go (curr, last)))) ;;
      match waited with
      | None => ret None
      | Some (Return rc) => ret (Some (Return rc, ts))
      | Some (Go (curr, last)) =>
          if negb (sametag curr last) && negb (isfree curr)
          then ret (Some (Return 0, ts))
          else
            '(r, tag, ts) <- writetimestamp fd offset id ts ;;
            if r <? 0 then e <- get errno ;; ret (Some (Return (- e), ts))
            else
              usleep contend_usec ;;
              '(r, curr) <- readtag fd offset curr 1 ;;
              if r <? 0 then e <- get errno ;; ret (Some (Return (- e), ts))
              else if negb (busyloop =? 0) && negb (sametag curr tag)
              then contend fuel' fd offset id busyloop backoff_usec
                     contend_usec curr last ts
              else ret (Some (Go (curr, tag), ts))
      end
  end.

(** [acquire]: the result and [*ts] afterwards. *)
Definition acquire (fuel : nat) (fd offset : Z) (id : bytes)
    (busyloop : Z) (ts : Z) : M (option (Z * Z)) :=
  lease <- get lease_ms ;;
  op_max <- get op_max_ms ;;
  let backoff_usec := (lease + 6 * op_max) * 1000 in
  let contend_usec := (2 * op_max) * 1000 in
  '(r, curr) <- readtag fd offset (fresh (taglen + 1)) 1 ;;
  if r <? 0 then e <- get errno ;; ret (Some (- e, ts))
  else
    let last := settag (fresh (taglen + 1)) freetag in
    looped <- contend fuel fd offset id busyloop backoff_usec contend_usec
                curr last ts ;;
    match looped with
    | None => ret None
    | Some (Return rc, ts) => ret (Some (rc, ts))
    | Some (Go (curr, tag), ts) =>
        if negb (busyloop =? 0) || sametag curr tag then
          let ts := snd (querytag curr) in
          res <- renew fd offset id ts ;;
          ret (Some res)
        else ret (Some (0, ts))
    end.
(** *** The checks of the drivers and their default stamp *)

(** The [timeval] [gettimeofday] fills in when the clock shows [c]. *)
Definition tv_at (c : Z) : timeval :=
  {| tv_sec := c / 1000000; tv_usec := c mod 1000000 |}.

(** [validate_id]: two checks, each a [PANIC]. *)
Definition validate_id (id : bytes) : M unit :=
  (if (idlen <? length id)%nat then panic else ret tt) ;;
  if strncmp_eq idlen id freetag then panic else ret tt.

(** Conversion to a 32-bit [int]. *)
Definition s32 (z : Z) : Z := (z + 2 ^ 31) mod 2 ^ 32 - 2 ^ 31.

(** [validate_lease_params]: its parameters are [int]; the callers
    pass the [long] globals [lease_ms] and [op_max_ms], which the call
    converts. *)
Definition validate_lease_params (lease_ms op_max_ms : Z) : M unit :=
  let lease_ms := s32 lease_ms in
  let op_max_ms := s32 op_max_ms in
  if (lease_ms <=? 0) || (op_max_ms <=? 0) || (lease_ms <? op_max_ms)
     || (op_max_ms <? 1000) || negb (Z.rem op_max_ms 1000 =? 0)
  then panic else ret tt.

(** [renew_timeout]: the sum is taken in [unsigned long long] and
    returned as a [long long]. *)
Definition renew_timeout : M Z :=
  tv <- gettimeofday ;;
  lease <- get lease_ms ;;
  op_max <- get op_max_ms ;;
  ret (s64 (u64 (tv_sec tv * 1000000 + tv_usec tv - (lease - op_max) * 1000))).

(** A transfer that starts when the clock shows [c] and takes [d]
    microseconds stays
    within the deadline, without wrap-around of the clock. *)
Definition in_time (op_max c d : Z) : Prop :=
  0 <= c /\ 0 <= d /\ c + d < 2 ^ 63
  /\ d <= op_max * 1000 /\ op_max < 2 ^ 63.

(** *** More example processes *)

(** The write takes 6.001 s, more than the 5 s allowed. *)
Definition slow_write : world :=
  after_main 60000 5000 (device_of freetag) t0 [transfer 512 6001000].

(** [A] took the lease 61 s ago. *)
Definition on_sector_of_A_expired : world :=
  after_main 60000 5000 (device_of (buildtag (lit "A") t0)) (t0 + 61000000)
    [transfer 512 1000].

(** [A] took the lease 30 s ago; the read is quick, the write takes
    40 s. *)
Definition on_sector_of_A_stalled : world :=
  after_main 60000 5000 (device_of (buildtag (lit "A") t0)) (t0 + 30000000)
    [transfer 512 0; transfer 512 40000000].

(** The device answers the first transfer with [EIO]. *)
Definition failing_device : world :=
  after_main 60000 5000 (device_of freetag) t0
    [{| io_res := Failed EIO; io_usec := 1000 |}].

(** The sector is free, the lease lasts no longer than one transfer may
    take, and four full transfers are answered. *)
Definition on_free_sector_short_lease : world :=
  after_main 5000 5000 (device_of freetag) t0
    [transfer 512 1000; transfer 512 1000; transfer 512 1000;
     transfer 512 1000].

(** *** What the kernel answers next, and alarms that stay away *)

(** The kernel's answer to the next transfer of the process. *)
Definition answer (w : world) : io_step :=
  match device w with
  | st :: _ => st
  | [] => {| io_res := Failed EIO; io_usec := 0 |}
  end.

(** No alarm comes due within the next [usec] microseconds. *)
Definition undisturbed (usec : Z) (w : world) : Prop :=
  match alarm_at w with
  | Some t => clock w + usec < t
  | None => True
  end.

(** *** Example processes with an alarm pending or a longer name *)

(** [A]'s process inside [renew], between its [alarm] call and its
    write: the I/O buffer holds the sector it has read, the tag of [A]
    followed by [x], and an alarm is pending. *)
Definition renewing_A : world :=
  set_alarm (Some (t0 + 59000000))
    (set_iobuf (buildtag (lit "A") t0 ++ repeat "x"%char 480)
       (after_main 60000 5000
          (device_of (buildtag (lit "A") t0 ++ repeat "x"%char 480))
          (t0 + 30001000) [transfer 512 1000])).

(** The kernel stores 100 of the 512 bytes while an alarm is pending. *)
Definition short_of_sector_armed : world :=
  set_alarm (Some (t0 + 29000000)) short_of_sector.

(** [node1] took the lease 30 s ago; two full transfers are answered. *)
Definition on_sector_of_node1 : world :=
  after_main 60000 5000 (device_of (buildtag (lit "node1") t0))
    (t0 + 30000000) [transfer 512 1000; transfer 512 1000].

(** *** One round of acquire, phase by phase

    Between two system calls of a process another process can act on
    the sector.  One contention round of [acquire], that is [acquire]
    with its loops bounded by 1, is cut here into its phases: each
    makes one transfer or one sleep, and the locals that live on from
    one phase to the next ([curr], [last], [tag], [*ts]) are the
    arguments of the stage reached. *)

Inductive stage :=
| AtStart (ts : Z)
| AtBackoffSleep (curr last : bytes) (ts : Z)
| AtBackoffRead (curr last : bytes) (ts : Z)
| AtWrite (curr last : bytes) (ts : Z)
| AtContendSleep (curr tag : bytes) (ts : Z)
| AtReread (curr tag : bytes) (ts : Z)
| AtRenewRead (ts : Z)
| AtRenewWrite (ts : Z)
| Over (res : option (Z * Z))
| Ended (status : Z).

(** The phase a process at stage [s] runs next.  [AtRenewRead] is
    [renew] up to its [alarm] call, [AtRenewWrite] the rest of it.
    [Over res] is [acquire] returned ([None]: the bound on the loops
    was reached); [Ended] is the process gone through [exit]. *)
Definition phase (fd offset : Z) (id : bytes) (busyloop : Z) (s : stage)
  : M stage :=
  match s with
  | AtStart ts =>
      '(r, curr) <- readtag fd offset (fresh (taglen + 1)) 1 ;;
      if r <? 0 then e <- get errno ;; ret (Over (Some (- e, ts)))
      else
        let last := settag (fresh (taglen + 1)) freetag in
        if negb (sametag curr last) && negb (isfree curr)
        then ret (AtBackoffSleep curr last ts)
        else ret (AtWrite curr last ts)
  | AtBackoffSleep curr last ts =>
      lease <- get lease_ms ;;
      op_max <- get op_max_ms ;;
      let last := settag last curr in
      usleep ((lease + 6 * op_max) * 1000) ;;
      ret (AtBackoffRead curr last ts)
  | AtBackoffRead curr last ts =>
      '(r, curr) <- readtag fd offset curr 1 ;;
      if r <? 0 then e <- get errno ;; ret (Over (Some (- e, ts)))
      else if negb (busyloop =? 0) && negb (sametag curr last)
              && negb (isfree curr)
      then ret (Over None)
      else if negb (sametag curr last) && negb (isfree curr)
      then ret (Over (Some (0, ts)))
      else ret (AtWrite curr last ts)
  | AtWrite curr last ts =>
      '(r, tag, ts) <- writetimestamp fd offset id ts ;;
      if r <? 0 then e <- get errno ;; ret (Over (Some (- e, ts)))
      else ret (AtContendSleep curr tag ts)
  | AtContendSleep curr tag ts =>
      op_max <- get op_max_ms ;;
      usleep ((2 * op_max) * 1000) ;;
      ret (AtReread curr tag ts)
  | AtReread curr tag ts =>
      '(r, curr) <- readtag fd offset curr 1 ;;
      if r <? 0 then e <- get errno ;; ret (Over (Some (- e, ts)))
      else if negb (busyloop =? 0) && negb (sametag curr tag)
      then ret (Over None)
      else if negb (busyloop =? 0) || sametag curr tag
      then ret (AtRenewRead (snd (querytag curr)))
      else ret (Over (Some (0, ts)))
  | AtRenewRead ts =>
      '(r, curr) <- readtag fd offset (fresh (taglen + 1)) 0 ;;
      if r <? 0 then
        e <- get errno ;; alarm 0 ;; ret (Over (Some (- e, ts)))
      else if negb (sameid curr id) then
        alarm 0 ;; ret (Over (Some (0, 0)))
      else
        let ts := snd (querytag curr) in
        msleft <- timeleft_ms ts ;;
        if msleft <=? 0 then
          alarm 0 ;; ret (Over (Some (- ETIMEDOUT, ts)))
        else
          alarm (Z.quot msleft 1000) ;; ret (AtRenewWrite ts)
  | AtRenewWrite ts =>
      '(r, tag, ts) <- writetimestamp fd offset id ts ;;
      if r <? 0 then
        e <- get errno ;; alarm 0 ;; ret (Over (Some (- e, ts)))
      else
        alarm 0 ;; ret (Over (Some (1, ts)))
  | Over res => ret (Over res)
  | Ended status => ret (Ended status)
  end.

(** [n] phases one after the other, nothing in between. *)
Fixpoint phases (n : nat) (fd offset : Z) (id : bytes) (busyloop : Z)
    (s : stage) : M stage :=
  match n with
  | O => ret s
  | S n' =>
      s' <- phase fd offset id busyloop s ;;
      phases n' fd offset id busyloop s'
  end.

(** What [acquire] has returned at a stage. *)
Definition result_of (s : stage) : option (Z * Z) :=
  match s with
  | Over res => res
  | _ => None
  end.
(** What no call of the program changes: the two globals; and what a
    call uses up of the kernel's answers: none, or the first. *)
Definition settled (w w' : world) : Prop :=
  lease_ms w' = lease_ms w /\ op_max_ms w' = op_max_ms w
  /\ (device w' = device w \/ device w' = tl (device w)).

(** An answer of the kernel that moves at least the 32 bytes of a tag,
    or fails with an error number, which is positive. *)
Definition whole (st : io_step) : Prop :=
  match io_res st with
  | Transferred n => Z.of_nat taglen <= n
  | Failed e => 0 < e
  end.

(** *** Two contenders for one sector

    Two processes run a round of [acquire] on the same sector of the
    same device.  Each has its own globals, buffer, alarm and kernel
    answers; the device is shared.  A phase of a process occupies the
    interval of real time from its start to the end of its call, and
    the transfer it makes takes effect on the device at one instant of
    that interval; the device serves the transfers in the order of
    these instants.  Both processes read the same wall clock. *)

Inductive party := PartyA | PartyB.

Definition opponent (p : party) : party :=
  match p with
  | PartyA => PartyB
  | PartyB => PartyA
  end.

Record contender := {
  c_fd : Z;
  c_id : bytes;
  c_busy : Z;
  c_stage : stage;
  c_world : world;
  c_read_at : Z
}.

(** [c_world] is the process as its last phase left it ([clock]: the
    end of that phase; [disk] is not looked at), [c_read_at] the instant
    its latest read took effect.  [medium] is the shared device,
    [latest] the instant of the latest effect on it. *)
Record arena := {
  sideA : contender;
  sideB : contender;
  lease_at : Z;
  medium : Z -> ascii;
  latest : Z
}.

Definition side (p : party) (a : arena) : contender :=
  match p with
  | PartyA => sideA a
  | PartyB => sideB a
  end.

(** One phase of one process: who moves, when the phase starts and
    when its transfer takes effect. *)
Record turn := { mover : party; starts : Z; lands : Z }.

Definition running (s : stage) : bool :=
  match s with
  | Over _ | Ended _ => false
  | _ => true
  end.

Definition reads (s : stage) : bool :=
  match s with
  | AtStart _ | AtBackoffRead _ _ _ | AtReread _ _ _ | AtRenewRead _ => true
  | _ => false
  end.

(** The contention sleep of a process, as [usleep] receives it. *)
Definition contend_usec (c : contender) : Z :=
  u32 (2 * op_max_ms (c_world c) * 1000).

(** What a schedule may be asked to respect beyond the order of real
    time. *)
Definition discipline := arena -> turn -> bool.

(** No more than the order of real time. *)
Definition any_order : discipline := fun _ _ => true.

(** The write of a contender's stamp takes effect less than the other
    contender's contention sleep after the read that came before it. *)
Definition prompt : discipline :=
  fun a t =>
    match c_stage (side (mover t) a) with
    | AtWrite _ _ _ =>
        lands t - c_read_at (side (mover t) a)
        <? contend_usec (side (opponent (mover t)) a)
    | _ => true
    end.

Definition moved (t : turn) (c : contender) (s : stage) (w : world)
  : contender :=
  {| c_fd := c_fd c; c_id := c_id c; c_busy := c_busy c;
     c_stage := s; c_world := w;
     c_read_at := if reads (c_stage c) then lands t else c_read_at c |}.

Definition after_turn (t : turn) (a : arena) (s : stage) (w : world)
  : arena :=
  {| sideA := match mover t with
              | PartyA => moved t (sideA a) s w
              | PartyB => sideA a
              end;
     sideB := match mover t with
              | PartyA => sideB a
              | PartyB => moved t (sideB a) s w
              end;
     lease_at := lease_at a;
     medium := disk w;
     latest := lands t |}.

(** A turn: the mover is still running, its phase starts no earlier
    than its previous one ended, the effect falls within the phase and
    no earlier than the latest effect on the device; the phase runs on
    the device as it then is. *)
Definition take_turn (d : discipline) (t : turn) (a : arena) : option arena :=
  let c := side (mover t) a in
  if running (c_stage c)
     && (clock (c_world c) <=? starts t) && (starts t <=? lands t)
     && (latest a <=? lands t) && d a t
  then
    let w := set_clock (starts t) (set_disk (medium a) (c_world c)) in
    let o := phase (c_fd c) (lease_at a) (c_id c) (c_busy c) (c_stage c) w in
    if lands t <=? clock (final o)
    then Some (after_turn t a
                 (match o with Ret s _ => s | Exit st _ => Ended st end)
                 (final o))
    else None
  else None.

Fixpoint play (d : discipline) (sch : list turn) (a : arena) : option arena :=
  match sch with
  | [] => Some a
  | t :: rest =>
      match take_turn d t a with
      | Some a' => play d rest a'
      | None => None
      end
  end.

(** [acquire] has returned 1. *)
Definition won (c : contender) : Prop :=
  exists ts, c_stage c = Over (Some (1, ts)).

(** A process that has left the round without winning it. *)
Definition lost (s : stage) : Prop :=
  match s with
  | Over (Some (1, _)) => False
  | Over _ | Ended _ => True
  | _ => False
  end.

(** *** Example rounds *)

(** A process about to run [acquire] without [-b] on the free sector,
    a lease of 60 s with 5 s per transfer, with the kernel's answers
    [answers]. *)
Definition newcomer (id : string) (answers : list io_step) : contender :=
  {| c_fd := 3; c_id := lit id; c_busy := 0; c_stage := AtStart 0;
     c_world := after_main 60000 5000 (device_of freetag) t0 answers;
     c_read_at := t0 |}.

Definition full_answers : list io_step :=
  [transfer 512 1000; transfer 512 1000; transfer 512 1000;
   transfer 512 1000; transfer 512 1000].

(** [A] and [B] on the free sector, every transfer complete. *)
Definition two_on_free_sector : arena :=
  {| sideA := newcomer "A" full_answers;
     sideB := newcomer "B" full_answers;
     lease_at := 0; medium := device_of freetag; latest := t0 |}.

(** A phase of [p] that starts [usec] after [t0] and takes effect as it
    starts. *)
Definition at_usec (p : party) (usec : Z) : turn :=
  {| mover := p; starts := t0 + usec; lands := t0 + usec |}.

(** [B] reads the free sector and is then held up for ten seconds,
    while [A] runs its whole round; then [B] goes on. *)
Definition stalled_schedule : list turn :=
  [at_usec PartyB 0;
   at_usec PartyA 1000; at_usec PartyA 2000; at_usec PartyA 3000;
   at_usec PartyA 10003000; at_usec PartyA 10004000;
   at_usec PartyA 10005000;
   at_usec PartyB 10006000; at_usec PartyB 10007000;
   at_usec PartyB 20007000; at_usec PartyB 20008000;
   at_usec PartyB 20009000].

(** [hostA] and [hostB] on the free sector; the kernel answers the
    second and the third read of [hostB] with 4 bytes. *)
Definition two_hosts_short_reads : arena :=
  {| sideA := newcomer "hostA" full_answers;
     sideB := newcomer "hostB"
                [transfer 512 1000; transfer 512 1000; transfer 4 1000;
                 transfer 4 1000; transfer 512 1000];
     lease_at := 0; medium := device_of freetag; latest := t0 |}.

(** Both read, both write within a millisecond, [hostA] last; both
    sleep, read again and renew. *)
Definition brisk_schedule : list turn :=
  [at_usec PartyA 0; at_usec PartyB 0;
   at_usec PartyB 1000;
   {| mover := PartyA; starts := t0 + 1000; lands := t0 + 1500 |};
   at_usec PartyA 2000; at_usec PartyB 2000;
   at_usec PartyA 10002000; at_usec PartyB 10002000;
   at_usec PartyA 10003000; at_usec PartyB 10003000;
   at_usec PartyA 10004000; at_usec PartyB 10004000].

(** Both read, both write within a millisecond, [A] last; [B] finds
    the tag of [A] at its second read and gives up. *)
Definition timely_schedule : list turn :=
  [at_usec PartyA 0; at_usec PartyB 0;
   at_usec PartyB 1000;
   {| mover := PartyA; starts := t0 + 1000; lands := t0 + 1500 |};
   at_usec PartyA 2000; at_usec PartyB 2000;
   at_usec PartyA 10002000; at_usec PartyB 10002000;
   at_usec PartyA 10003000; at_usec PartyA 10004000].

(** [A] alone, then [B]: [B] starts when [A] has returned, finds the
    tag of [A], waits [backoff_usec] (90 s), finds the same tag and
    takes the sector over. *)
Definition two_in_turn : arena :=
  {| sideA := newcomer "A" full_answers;
     sideB := newcomer "B" (transfer 512 1000 :: full_answers);
     lease_at := 0; medium := device_of freetag; latest := t0 |}.

Definition takeover_schedule : list turn :=
  [at_usec PartyA 0; at_usec PartyA 1000; at_usec PartyA 2000;
   at_usec PartyA 10002000; at_usec PartyA 10003000;
   at_usec PartyA 10004000;
   at_usec PartyB 20000000; at_usec PartyB 20001000;
   at_usec PartyB 110001000; at_usec PartyB 110002000;
   at_usec PartyB 110003000; at_usec PartyB 120003000;
   at_usec PartyB 120004000; at_usec PartyB 120005000].

(** *** Facts about bytes *)

Lemma bytes_eqb_eq (a b : bytes) : bytes_eqb a b = true <-> a = b.
Proof.
  revert b; induction a as [|x a IH]; intros [|y b]; simpl;
    try (split; [discriminate | discriminate]); try tauto.
  rewrite andb_true_iff, Ascii.eqb_eq, IH.
  split; [intros [-> ->]; reflexivity | intros [= -> ->]; auto].
Qed.

Lemma bytes_eqb_refl (a : bytes) : bytes_eqb a a = true.
Proof. apply bytes_eqb_eq; reflexivity. Qed.

Lemma bytes_eqb_neq (a b : bytes) : bytes_eqb a b = false <-> a <> b.
Proof.
  rewrite <- bytes_eqb_eq. destruct (bytes_eqb a b); split; congruence.
Qed.

Lemma rstrip_spaces (n : nat) : rstrip (repeat SP n) = [].
Proof. induction n as [|n IH]; simpl; [reflexivity | now rewrite IH]. Qed.

Lemma rstrip_app_spaces (s : bytes) (n : nat) :
  rstrip (s ++ repeat SP n) = rstrip s.
Proof.
  induction s as [|c s IH]; simpl.
  - apply rstrip_spaces.
  - fold (rstrip (s ++ repeat SP n)). fold (rstrip s). now rewrite IH.
Qed.

Lemma rstrip_id (s : bytes) : last s NUL <> SP -> rstrip s = s.
Proof.
  induction s as [|c s IH]; [reflexivity|].
  intros H. simpl. fold (rstrip s).
  destruct s as [|d s].
  - simpl in *. destruct (Ascii.eqb_spec c SP); congruence.
  - rewrite IH by exact H. reflexivity.
Qed.

(** *** Facts about C integers *)

Lemma u64_range (z : Z) : 0 <= u64 z < 2 ^ 64.
Proof. unfold u64. apply Z.mod_pos_bound. reflexivity. Qed.

Lemma s64_u64 (z : Z) : in_s64 z -> s64 (u64 z) = z.
Proof.
  unfold in_s64, s64, u64.
  change (2 ^ 64) with 18446744073709551616.
  change (2 ^ 63) with 9223372036854775808.
  intros H. Z.div_mod_to_equations. lia.
Qed.

Lemma u64_zero (z : Z) : in_s64 z -> u64 z = 0 -> z = 0.
Proof.
  unfold in_s64, u64.
  change (2 ^ 64) with 18446744073709551616.
  change (2 ^ 63) with 9223372036854775808.
  intros H H0. Z.div_mod_to_equations. lia.
Qed.

(** *** Facts about the formatting and parsing *)

Module LibcFacts.
Import Libc.

Lemma digit_cases (d : Z) :
  0 <= d < 16 ->
  In d [0; 1; 2; 3; 4; 5; 6; 7; 8; 9; 10; 11; 12; 13; 14; 15].
Proof. intros H. simpl. lia. Qed.

Ltac each_digit d H :=
  apply digit_cases in H; simpl in H;
  repeat (destruct H as [<- | H]; [vm_compute; reflexivity |]);
  destruct H.

Lemma hexval_hexchar (d : Z) : 0 <= d < 16 -> hexval (hexchar d) = Some d.
Proof. intros H. each_digit d H. Qed.

Lemma hexchar_plain (d : Z) : 0 <= d < 16 -> plain (hexchar d) = true.
Proof. intros H. each_digit d H. Qed.

Lemma length_hexdigits (n : nat) (v : Z) : length (hexdigits n v) = n.
Proof.
  revert v; induction n as [|n IH]; intros v; simpl; [reflexivity|].
  rewrite length_app, IH. simpl. lia.
Qed.

Lemma hexdigits_plain (n : nat) (v : Z) :
  Forall (fun c => plain c = true) (hexdigits n v).
Proof.
  revert v; induction n as [|n IH]; intros v; simpl; [constructor|].
  apply Forall_app. split; [apply IH|].
  constructor; [|constructor].
  apply hexchar_plain. apply Z.mod_pos_bound. reflexivity.
Qed.

Lemma hexacc_hexdigits (n : nat) :
  forall v acc rest,
    hexacc acc (hexdigits n v ++ rest)
    = hexacc (acc * 16 ^ Z.of_nat n + v mod 16 ^ Z.of_nat n) rest.
Proof.
  induction n as [|n IH]; intros v acc rest.
  - simpl. rewrite Z.mod_1_r. f_equal. lia.
  - cbn [hexdigits]. rewrite <- app_assoc. rewrite IH.
    cbn [app hexacc].
    rewrite hexval_hexchar by (apply Z.mod_pos_bound; reflexivity).
    f_equal.
    rewrite Nat2Z.inj_succ, Z.pow_succ_r by lia.
    assert (Hp : 0 < 16 ^ Z.of_nat n) by (apply Z.pow_pos_nonneg; lia).
    rewrite (Z.rem_mul_r v 16 (16 ^ Z.of_nat n)) by lia.
    lia.
Qed.

Lemma hexacc_hexdigits_all (n : nat) (v : Z) :
  hexacc 0 (hexdigits n v) = v mod 16 ^ Z.of_nat n.
Proof.
  rewrite <- (app_nil_r (hexdigits n v)), hexacc_hexdigits. reflexivity.
Qed.

Lemma hexlen_le_16 (v : Z) : 0 <= v < 2 ^ 64 -> (hexlen v <= 16)%nat.
Proof.
  intros [H0 H1]. unfold hexlen.
  destruct (Z.eqb_spec v 0) as [|Hnz]; [lia|].
  assert (Hl : Z.log2 v < 64) by (apply Z.log2_lt_pow2; lia).
  pose proof (Z.log2_nonneg v) as Hn.
  assert (Z.log2 v / 4 + 1 <= 16) by (Z.div_mod_to_equations; lia).
  lia.
Qed.

Lemma fmt_0llx_16 (v : Z) :
  0 <= v < 2 ^ 64 -> fmt_0llx 16 v = hexdigits 16 v.
Proof.
  intros H. unfold fmt_0llx.
  rewrite Nat.max_l by (apply hexlen_le_16; exact H). reflexivity.
Qed.

Lemma length_fmt_ls (w : nat) (s : bytes) :
  (length s <= w)%nat -> length (fmt_ls w s) = w.
Proof.
  intros H. unfold fmt_ls. rewrite length_app, repeat_length. lia.
Qed.

Lemma cstr_plain (l rest : bytes) :
  Forall (fun c => plain c = true) l -> cstr (l ++ NUL :: rest) = l.
Proof.
  induction 1 as [|c l Hc _ IH]; simpl; [reflexivity|].
  unfold plain in Hc. rewrite !andb_true_iff in Hc.
  destruct Hc as [_ Hn]. apply negb_true_iff in Hn.
  rewrite Hn, IH. reflexivity.
Qed.

Lemma skipspace_plain (c : ascii) (r : bytes) :
  plain c = true -> skipspace (c :: r) = c :: r.
Proof.
  intros Hc. unfold plain in Hc. rewrite !andb_true_iff in Hc.
  destruct Hc as [[[[[Hs _] _] _] _] _]. apply negb_true_iff in Hs.
  simpl. rewrite Hs. reflexivity.
Qed.

(** Sixteen hexadecimal digits are read back as the value printed. *)
Lemma strtoull16_hexdigits (v : Z) :
  0 <= v < 2 ^ 64 -> strtoull16 (hexdigits 16 v) = v.
Proof.
  intros Hv.
  pose proof (hexdigits_plain 16 v) as Hp.
  pose proof (hexacc_hexdigits_all 16 v) as Hacc.
  pose proof (length_hexdigits 16 v) as Hl.
  destruct (hexdigits 16 v) as [|c1 [|c2 r]]; try discriminate Hl.
  inversion Hp as [|? ? Hc1 Hp']; subst.
  inversion Hp' as [|? ? Hc2 _]; subst.
  unfold strtoull16. rewrite (skipspace_plain c1 (c2 :: r) Hc1).
  unfold plain in Hc1, Hc2. rewrite !andb_true_iff, !negb_true_iff in Hc1, Hc2.
  destruct Hc1 as [[[[[_ Hm] Hpl] _] _] _].
  destruct Hc2 as [[[[[_ _] _] Hx] HX] _].
  rewrite Hm, Hpl, Hx, HX, andb_false_r, Hacc.
  change (16 ^ Z.of_nat 16) with (2 ^ 64).
  rewrite Z.mod_small by exact Hv.
  unfold ULLONG_MAX.
  destruct (Z.gtb_spec v (2 ^ 64 - 1)); [lia | reflexivity].
Qed.

End LibcFacts.

(** *** The codec *)

Section Codec.
Import Libc LibcFacts.

(** The identity field: the identity padded with spaces to 16 bytes. *)
Lemma buildtag_fields (id : bytes) (ts : Z) :
  (length id <= idlen)%nat ->
  buildtag id ts = fmt_ls idlen id ++ hexdigits stamplen (u64 ts).
Proof.
  intros Hlen. unfold buildtag, snprintf.
  rewrite fmt_0llx_16 by apply u64_range.
  apply firstn_all2.
  rewrite length_app, length_fmt_ls, length_hexdigits by exact Hlen.
  reflexivity.
Qed.

Lemma buildtag_identity (id : bytes) (ts : Z) :
  (length id <= idlen)%nat ->
  firstn idlen (buildtag id ts) = fmt_ls idlen id.
Proof.
  intros Hlen. rewrite buildtag_fields by exact Hlen.
  rewrite firstn_app, length_fmt_ls by exact Hlen.
  rewrite Nat.sub_diag, firstn_O, app_nil_r.
  apply firstn_all2. rewrite length_fmt_ls by exact Hlen. reflexivity.
Qed.

Lemma buildtag_stamp (id : bytes) (ts : Z) :
  (length id <= idlen)%nat ->
  skipn idlen (buildtag id ts) = hexdigits stamplen (u64 ts).
Proof.
  intros Hlen. rewrite buildtag_fields by exact Hlen.
  rewrite skipn_app, length_fmt_ls by exact Hlen.
  rewrite Nat.sub_diag, skipn_O.
  rewrite skipn_all2 by (rewrite length_fmt_ls by exact Hlen; reflexivity).
  reflexivity.
Qed.

Lemma querytag_of_buildtag (id : bytes) (ts : Z) :
  (length id <= idlen)%nat -> in_s64 ts ->
  querytag (buildtag id ts) = (fmt_ls idlen id, ts).
Proof.
  intros Hlen Hts. unfold querytag.
  rewrite buildtag_identity, buildtag_stamp by exact Hlen.
  unfold memcpy.
  rewrite firstn_all2 by (rewrite length_hexdigits; reflexivity).
  change (skipn stamplen (repeat NUL (stamplen + 1))) with [NUL].
  rewrite cstr_plain by apply hexdigits_plain.
  rewrite strtoull16_hexdigits by apply u64_range.
  rewrite s64_u64 by exact Hts. reflexivity.
Qed.

(** The stamp of a tag built from a non-zero timestamp is not the
    sentinel's. *)
Lemma stamp_nonzero (ts : Z) :
  in_s64 ts -> ts <> 0 ->
  hexdigits stamplen (u64 ts) <> skipn idlen freetag.
Proof.
  intros Hts Hnz Heq.
  pose proof (strtoull16_hexdigits (u64 ts) (u64_range ts)) as Hrt.
  unfold stamplen in Heq. rewrite Heq in Hrt.
  assert (H0 : strtoull16 (skipn idlen freetag) = 0) by reflexivity.
  apply Hnz, u64_zero; [exact Hts | congruence].
Qed.

(** Padding adds spaces only, so a padded identity that equals the
    sentinel's prefix was that prefix already. *)
Lemma fmt_ls_prefix (id : bytes) :
  (length id <= idlen)%nat ->
  fmt_ls idlen id = firstn idlen freetag -> id = firstn idlen freetag.
Proof.
  intros Hlen Heq. unfold fmt_ls in Heq.
  destruct (Nat.eq_dec (length id) idlen) as [He | Hne].
  - rewrite He, Nat.sub_diag in Heq. simpl in Heq.
    rewrite app_nil_r in Heq. exact Heq.
  - exfalso.
    assert (Hl : last (id ++ repeat SP (idlen - length id)) NUL = SP).
    { destruct (idlen - length id)%nat as [|k] eqn:Hk; [lia|].
      replace (repeat SP (S k)) with (repeat SP k ++ [SP])
        by (symmetry; apply (repeat_cons k SP)).
      rewrite app_assoc. apply last_last. }
    rewrite Heq in Hl. vm_compute in Hl. discriminate Hl.
Qed.

Lemma memeq_refl (n : nat) (a : bytes) : memeq n a a = true.
Proof. apply bytes_eqb_refl. Qed.

(** What [sameid] decides: the identity field against the padded
    identity. *)
Lemma sameid_spec (tag id : bytes) :
  sameid tag id = true <-> firstn idlen tag = firstn idlen (fmt_ls idlen id).
Proof.
  unfold sameid, memeq, snprintf. rewrite bytes_eqb_eq.
  change (idlen + 1 - 1)%nat with idlen.
  rewrite firstn_firstn, Nat.min_id. reflexivity.
Qed.

(** An identity is its stem followed by its trailing spaces. *)
Lemma rstrip_split (s : bytes) :
  exists k, s = rstrip s ++ repeat SP k.
Proof.
  induction s as [|c s [k IH]].
  - exists 0%nat. reflexivity.
  - simpl. fold (rstrip s).
    destruct (rstrip s) as [|d r] eqn:Hr.
    + destruct (Ascii.eqb_spec c SP) as [-> | Hc].
      * exists (S k). simpl in IH. rewrite IH. reflexivity.
      * exists k. simpl in IH. rewrite IH. reflexivity.
    + exists k. rewrite IH at 1. reflexivity.
Qed.

Lemma fmt_ls_stem (stem : bytes) (k : nat) :
  (length (stem ++ repeat SP k) <= idlen)%nat ->
  fmt_ls idlen (stem ++ repeat SP k) = fmt_ls idlen stem.
Proof.
  rewrite length_app, repeat_length. intros Hlen. unfold fmt_ls.
  rewrite <- app_assoc, <- repeat_app, length_app, repeat_length.
  do 2 f_equal. lia.
Qed.

(** Identities with the same stem are padded alike. *)
Lemma fmt_ls_rstrip (i j : bytes) :
  (length i <= idlen)%nat -> (length j <= idlen)%nat ->
  rstrip i = rstrip j -> fmt_ls idlen i = fmt_ls idlen j.
Proof.
  intros Hi Hj Hr.
  destruct (rstrip_split i) as [m Hm], (rstrip_split j) as [n Hn].
  rewrite Hm in Hi |- *. rewrite Hn in Hj |- *.
  rewrite !fmt_ls_stem by assumption. rewrite Hr. reflexivity.
Qed.

End Codec.

(** *** The system calls and the timed sector I/O *)

Section SectorIO.

Lemma length_bytes_at d off k : length (bytes_at d off k) = k.
Proof. unfold bytes_at. rewrite length_map, length_seq. reflexivity. Qed.

Lemma firstn_seq_le (m : nat) :
  forall a k, (m <= k)%nat -> firstn m (seq a k) = seq a m.
Proof.
  induction m as [|m IH]; intros a k H; [reflexivity|].
  destruct k as [|k]; [lia|]. simpl. rewrite IH by lia. reflexivity.
Qed.

Lemma firstn_bytes_at d off m k :
  (m <= k)%nat -> firstn m (bytes_at d off k) = bytes_at d off m.
Proof.
  intros H. unfold bytes_at. rewrite firstn_map, firstn_seq_le by exact H.
  reflexivity.
Qed.

Lemma writes_cons (w w' : world) (e : event) :
  trace w' = e :: trace w ->
  writes w' = writes w
              ++ match e with EvPwrite _ buf off => [(buf, off)] | _ => [] end.
Proof.
  intros H. unfold writes. rewrite H. cbn [rev].
  rewrite flat_map_app. cbn [flat_map]. rewrite app_nil_r. reflexivity.
Qed.

Lemma pread_step fd count off w st rest :
  alarm_at w = None -> device w = st :: rest ->
  pread fd count off w =
    let w2 := answered (EvPread fd off) st rest w in
    match io_res st with
    | Failed e => Ret (-1) (set_errno e w2)
    | Transferred n =>
        let k := clamp n count in
        Ret (Z.of_nat k)
          (set_iobuf (memcpy (iobuf w) (bytes_at (disk w) off k) k) w2)
    end.
Proof.
  intros Ha Hd. unfold pread, next_step. cbn [device log]. rewrite Hd.
  cbn beta iota zeta. unfold blocking. cbn [alarm_at set_device log].
  rewrite Ha. reflexivity.
Qed.

Lemma pwrite_step fd count off w st rest :
  alarm_at w = None -> device w = st :: rest ->
  pwrite fd count off w =
    let buf := firstn (Z.to_nat count) (iobuf w) in
    let w2 := answered (EvPwrite fd buf off) st rest w in
    match io_res st with
    | Failed e => Ret (-1) (set_errno e w2)
    | Transferred n =>
        let k := clamp n count in
        Ret (Z.of_nat k) (set_disk (write_at (disk w) off (firstn k buf)) w2)
    end.
Proof.
  intros Ha Hd. unfold pwrite, next_step. cbn [device log]. rewrite Hd.
  cbn beta iota zeta. unfold blocking. cbn [alarm_at set_device log].
  rewrite Ha. reflexivity.
Qed.

(** What a read without a deadline that transfers something returns. *)
Lemma readtag_nolimit fd off tag w st rest n :
  alarm_at w = None -> device w = st :: rest ->
  io_res st = Transferred n -> 0 < n ->
  let k := clamp n 512 in
  let buf := memcpy (iobuf w) (bytes_at (disk w) off k) k in
  readtag fd off tag 0 w
  = Ret (Z.of_nat k, memcpy tag buf taglen)
        (set_iobuf buf (answered (EvPread fd off) st rest w)).
Proof.
  intros Ha Hd Hr Hn k buf.
  unfold readtag, bind, gettimeofday, get.
  rewrite (pread_step _ _ _ _ _ _ Ha Hd), Hr. cbn beta iota zeta.
  assert (Hk : (Z.of_nat (clamp n 512) <=? 0) = false).
  { apply Z.leb_gt. unfold clamp. lia. }
  rewrite Hk. reflexivity.
Qed.

(** A read that fails or transfers nothing reports failure and leaves
    the device and the caller's tag alone. *)
Lemma readtag_nothing fd off tag limit w st rest :
  alarm_at w = None -> device w = st :: rest ->
  (forall n, io_res st = Transferred n -> n <= 0) ->
  exists w', readtag fd off tag limit w = Ret (-1, tag) w'
             /\ disk w' = disk w /\ writes w' = writes w.
Proof.
  intros Ha Hd Hr.
  unfold readtag, bind, gettimeofday, get.
  rewrite (pread_step _ _ _ _ _ _ Ha Hd). cbn beta iota zeta.
  destruct (io_res st) as [n | e].
  - assert (Hk : (Z.of_nat (clamp n 512) <=? 0) = true).
    { apply Z.leb_le. specialize (Hr n eq_refl). unfold clamp. lia. }
    rewrite Hk. eexists. split; [reflexivity|]. split; [reflexivity|].
    erewrite writes_cons by reflexivity. apply app_nil_r.
  - eexists. split; [reflexivity|]. split; [reflexivity|].
    erewrite writes_cons by reflexivity. apply app_nil_r.
Qed.

Lemma sameid_firstn a b id :
  firstn idlen a = firstn idlen b -> sameid a id = sameid b id.
Proof. intros H. unfold sameid, memeq. rewrite H. reflexivity. Qed.

(** The identity field of the tag a read hands back is the sector's,
    as soon as the transfer covers it. *)
Lemma read_identity d off iob tag k :
  (idlen <= k)%nat ->
  firstn idlen (memcpy tag (memcpy iob (bytes_at d off k) k) taglen)
  = firstn idlen (bytes_at d off 512).
Proof.
  intros Hk. unfold memcpy.
  rewrite (firstn_all2 (n := k) (bytes_at d off k))
    by (rewrite length_bytes_at; lia).
  rewrite firstn_app.
  assert (Hl : (idlen <= length (firstn taglen (bytes_at d off k ++ skipn k iob)))%nat).
  { rewrite length_firstn, length_app, length_bytes_at. unfold taglen, idlen in *. lia. }
  replace (idlen - length (firstn taglen (bytes_at d off k ++ skipn k iob)))%nat with 0%nat by lia.
  rewrite firstn_O, app_nil_r, firstn_firstn.
  replace (Nat.min idlen taglen) with idlen by reflexivity.
  rewrite firstn_app, length_bytes_at.
  replace (idlen - k)%nat with 0%nat by lia.
  rewrite firstn_O, app_nil_r.
  rewrite !firstn_bytes_at; [reflexivity | unfold idlen; lia | exact Hk].
Qed.



Lemma writetag_step fd off tag limit w st rest :
  alarm_at w = None -> device w = st :: rest ->
  (returned st 512 < Z.of_nat taglen ->
   exists w', writetag fd off tag limit w = Ret (-1) w')
  /\ (Z.of_nat taglen <= returned st 512 ->
      exists w', writetag fd off tag 0 w = Ret 0 w').
Proof.
  intros Ha Hd. unfold returned.
  split; intros Hn; unfold writetag, bind, modify, gettimeofday, get.
  - rewrite (pwrite_step fd 512 off _ st rest) by assumption.
    cbn beta iota zeta.
    destruct (io_res st) as [n | e].
    + apply Z.ltb_lt in Hn. rewrite Hn. cbn. eexists; reflexivity.
    + cbn. eexists; reflexivity.
  - rewrite (pwrite_step fd 512 off _ st rest) by assumption.
    cbn beta iota zeta.
    destruct (io_res st) as [n | e].
    + apply Z.ltb_ge in Hn. rewrite Hn. cbn. eexists; reflexivity.
    + exfalso. unfold taglen, idlen, stamplen in Hn. simpl in Hn. lia.
Qed.

Lemma length_memcpy dst src n :
  (n <= length src)%nat -> (n <= length dst)%nat ->
  length (memcpy dst src n) = length dst.
Proof.
  intros Hs Hd. unfold memcpy.
  rewrite length_app, length_firstn, length_skipn. lia.
Qed.

Lemma pwrite_trace fd count off w :
  trace (final (pwrite fd count off w))
  = EvPwrite fd (firstn (Z.to_nat count) (iobuf w)) off :: trace w.
Proof.
  unfold pwrite, next_step. cbn [device log].
  destruct (device w) as [|st rest]; cbn beta iota zeta;
    unfold blocking, handler, panic;
    cbn [alarm_at set_device log io_usec io_res];
    destruct (alarm_at w) as [t|];
    repeat match goal with
      | |- context [if ?b then _ else _] => destruct b
      | |- context [match io_res ?s with _ => _ end] => destruct (io_res s)
      end; reflexivity.
Qed.

Lemma withintimelimits_cases a b w :
  withintimelimits a b w = Ret 1 w
  \/ withintimelimits a b w = Ret 0 (set_errno (- ETIMEDOUT) w).
Proof.
  unfold withintimelimits, bind, get, modify, ret.
  destruct (op_max_ms w <=? 0); [left; reflexivity|].
  destruct (_ >? _); [right | left]; reflexivity.
Qed.

(** The buffer [writetag] hands to [pwrite], whatever happens next. *)
Lemma writetag_trace fd off tag limit w :
  trace (final (writetag fd off tag limit w))
  = EvPwrite fd (firstn 512 (memcpy (iobuf w) tag taglen)) off :: trace w.
Proof.
  unfold writetag, bind, modify, gettimeofday, get.
  pose proof (pwrite_trace fd 512 off (set_iobuf (memcpy (iobuf w) tag taglen) w)) as Hp.
  destruct (pwrite fd 512 off _) as [n w2 | s w2]; cbn [final] in Hp;
    [|exact Hp].
  destruct (n <? Z.of_nat taglen); [exact Hp|].
  change (0 <? 0) with false. cbn beta iota.
  destruct (limit =? 0); [exact Hp|].
  match goal with
  | |- context [withintimelimits ?a ?b ?x] =>
      destruct (withintimelimits_cases a b x) as [H | H]; rewrite H
  end; exact Hp.
Qed.

Lemma map_nth_seq (data : bytes) :
  map (fun i => nth i data NUL) (seq 0 (length data)) = data.
Proof.
  induction data as [|c data IH]; [reflexivity|].
  cbn [length seq map nth]. f_equal.
  rewrite <- seq_shift, map_map. exact IH.
Qed.

Lemma bytes_at_write_at d off data :
  bytes_at (write_at d off data) off (length data) = data.
Proof.
  unfold bytes_at. rewrite <- (map_nth_seq data) at 2.
  apply map_ext_in. intros i Hi. apply in_seq in Hi.
  unfold write_at.
  replace ((off <=? off + Z.of_nat i) && (off + Z.of_nat i <? off + Z.of_nat (length data)))
    with true by (symmetry; apply andb_true_iff; split; [apply Z.leb_le | apply Z.ltb_lt]; lia).
  f_equal. lia.
Qed.

(** What a write leaves on the device when the kernel answers with a
    transfer. *)
Lemma writetag_disk fd off tag limit w st rest n :
  alarm_at w = None -> device w = st :: rest ->
  io_res st = Transferred n ->
  disk (final (writetag fd off tag limit w))
  = write_at (disk w) off
      (firstn (clamp n 512) (firstn 512 (memcpy (iobuf w) tag taglen))).
Proof.
  intros Ha Hd Hr.
  unfold writetag, bind, modify, gettimeofday, get.
  rewrite (pwrite_step fd 512 off _ st rest) by assumption.
  cbn beta iota zeta. rewrite Hr.
  destruct (_ <? Z.of_nat taglen); cbn beta iota; [reflexivity|].
  change (0 <? 0) with false. cbn beta iota.
  destruct (limit =? 0); [reflexivity|].
  match goal with
  | |- context [withintimelimits ?a ?b ?x] =>
      destruct (withintimelimits_cases a b x) as [H | H]; rewrite H
  end; reflexivity.
Qed.

(** A read that transfers the whole sector leaves the sector, all of
    it, in the I/O buffer, deadline or not. *)
Lemma readtag_iobuf fd off tag limit w st rest n :
  length (iobuf w) = 512%nat ->
  alarm_at w = None -> device w = st :: rest ->
  io_res st = Transferred n -> 512 <= n ->
  iobuf (final (readtag fd off tag limit w)) = sector w off.
Proof.
  intros Hl Ha Hd Hr Hn.
  assert (Hk : clamp n 512 = 512%nat) by (unfold clamp; lia).
  assert (Hb : memcpy (iobuf w) (bytes_at (disk w) off 512) 512
               = sector w off).
  { unfold memcpy, sector.
    rewrite firstn_all2 by (rewrite length_bytes_at; lia).
    rewrite skipn_all2 by lia. apply app_nil_r. }
  unfold readtag, bind, gettimeofday, get.
  rewrite (pread_step _ _ _ _ _ _ Ha Hd), Hr. cbn beta iota zeta.
  rewrite Hk. change (Z.of_nat 512 <=? 0) with false. cbn beta iota.
  destruct (limit =? 0); [exact Hb|].
  match goal with
  | |- context [withintimelimits ?a ?b ?x] =>
      destruct (withintimelimits_cases a b x) as [H | H]; rewrite H
  end; exact Hb.
Qed.

End SectorIO.

(** ** Part 4: the properties *)

(** *** Round trip of the codec *)

(** C4, as stated, fails: [querytag] copies the identity field as it
    is, so for the identity [A] it hands back [A] followed by fifteen
    spaces, not [A]. *)
Lemma querytag_keeps_padding :
  querytag (buildtag (lit "A") 1) <> (lit "A", 1).
Proof. vm_compute. discriminate. Qed.

(** C4, amended: for an identity of at most 16 bytes without trailing
    spaces and a 64-bit timestamp, [querytag] of the tag [buildtag]
    produces yields the identity padded with spaces to 16 bytes (removing
    the trailing spaces gives the identity back) and the timestamp. *)
Theorem querytag_buildtag (id : bytes) (ts : Z) :
  (length id <= idlen)%nat -> last id NUL <> SP -> in_s64 ts ->
  querytag (buildtag id ts) = (Libc.fmt_ls idlen id, ts)
  /\ rstrip (fst (querytag (buildtag id ts))) = id.
Proof.
  intros Hlen Hsp Hts.
  rewrite querytag_of_buildtag by assumption.
  split; [reflexivity|].
  cbn [fst]. unfold Libc.fmt_ls.
  rewrite rstrip_app_spaces. apply rstrip_id, Hsp.
Qed.

Lemma querytag_buildtag_witness :
  querytag (buildtag (lit "host-17") 1700000000123456)
  = (Libc.fmt_ls idlen (lit "host-17"), 1700000000123456)
  /\ rstrip (fst (querytag (buildtag (lit "host-17") 1700000000123456)))
     = lit "host-17".
Proof.
  apply querytag_buildtag.
  - vm_compute. lia.
  - vm_compute. discriminate.
  - unfold in_s64. change (2 ^ 63) with 9223372036854775808. lia.
Defined.

(** *** Recognising the sentinel *)

(** C5, as stated, fails: the identity [------FREE------] is not empty,
    yet with timestamp 0 it builds the sentinel itself. *)
Lemma sentinel_identity_builds_free :
  ~ (forall (i : bytes) (t : Z),
        i <> [] \/ t <> 0 -> isfree (buildtag i t) = false).
Proof.
  intros H.
  assert (Hi : lit "------FREE------" <> [] \/ 0 <> 0)
    by (left; discriminate).
  specialize (H (lit "------FREE------") 0 Hi).
  vm_compute in H. discriminate H.
Qed.

(** A tag built with a non-zero timestamp, or with an identity other
    than the sentinel's prefix, is not the sentinel. *)
Lemma buildtag_not_free (i : bytes) (t : Z) :
  (length i <= idlen)%nat -> in_s64 t ->
  t <> 0 \/ i <> firstn idlen freetag ->
  isfree (buildtag i t) = false.
Proof.
  intros Hlen Ht Hor.
  unfold isfree, sametag, memeq. apply bytes_eqb_neq. intros Heq.
  assert (Hid : firstn idlen (buildtag i t) = firstn idlen freetag).
  { apply (f_equal (firstn idlen)) in Heq.
    rewrite !firstn_firstn in Heq. exact Heq. }
  assert (Hst : skipn idlen (firstn taglen (buildtag i t))
                = skipn idlen freetag).
  { rewrite Heq. reflexivity. }
  rewrite firstn_all2 in Hst
    by (rewrite buildtag_fields, length_app, LibcFacts.length_fmt_ls,
          LibcFacts.length_hexdigits by exact Hlen; reflexivity).
  rewrite buildtag_identity in Hid by exact Hlen.
  rewrite buildtag_stamp in Hst by exact Hlen.
  destruct Hor as [Hnz | Hne].
  - exact (stamp_nonzero t Ht Hnz Hst).
  - exact (Hne (fmt_ls_prefix i Hlen Hid)).
Qed.

(** C5, amended: the sentinel is free, and for an identity of at most
    16 bytes and a 64-bit timestamp the tag built is not free whenever
    the timestamp is not zero or the identity is not the sentinel's
    16-byte identity prefix (the identity [validate_id] refuses). *)
Theorem isfree_buildtag (i : bytes) (t : Z) :
  (length i <= idlen)%nat -> in_s64 t ->
  t <> 0 \/ i <> firstn idlen freetag ->
  isfree freetag = true /\ isfree (buildtag i t) = false.
Proof.
  intros Hlen Ht Hor. split; [reflexivity|].
  apply buildtag_not_free; assumption.
Qed.

Lemma isfree_buildtag_witness :
  isfree freetag = true /\ isfree (buildtag (lit "------FREE------") 1) = false.
Proof.
  apply isfree_buildtag.
  - vm_compute. lia.
  - unfold in_s64. change (2 ^ 63) with 9223372036854775808. lia.
  - left. discriminate.
Defined.

(** X6: an identity [validate_id] lets through never builds the
    sentinel, whatever the timestamp. *)
Corollary valid_identity_not_free (i : bytes) (t : Z) :
  validate_id_ok i = true -> in_s64 t -> isfree (buildtag i t) = false.
Proof.
  unfold validate_id_ok, strncmp_eq. intros Hv Ht.
  apply andb_true_iff in Hv. destruct Hv as [Hlen Hne].
  apply Nat.leb_le in Hlen. apply negb_true_iff, bytes_eqb_neq in Hne.
  apply buildtag_not_free; [exact Hlen | exact Ht |].
  right. intros ->. apply Hne. rewrite firstn_firstn. reflexivity.
Qed.

(** *** The identity check of release *)

Section Release.

Lemma nth_fmt_ls_not_nul (id : bytes) (k : nat) :
  Forall (fun c => c <> NUL) id -> (k < idlen)%nat ->
  nth k (Libc.fmt_ls idlen id) SP <> NUL.
Proof.
  intros Hid Hk. unfold Libc.fmt_ls.
  assert (Hall : Forall (fun c => c <> NUL)
                   (id ++ repeat SP (idlen - length id))).
  { apply Forall_app. split; [exact Hid|].
    apply Forall_forall. intros c Hc. apply repeat_spec in Hc.
    subst c. discriminate. }
  rewrite Forall_forall in Hall.
  destruct (Nat.lt_ge_cases k (length (id ++ repeat SP (idlen - length id))))
    as [Hlt | Hge].
  - apply Hall, nth_In, Hlt.
  - rewrite nth_overflow by exact Hge. discriminate.
Qed.

(** A read that stops inside the identity field, into the zeroed
    buffer of a fresh process, shows an identity with a NUL in it: it
    matches no caller, and [release] writes nothing. *)
Lemma release_short_read fd off id w st rest n :
  alarm_at w = None -> device w = st :: rest ->
  io_res st = Transferred n -> 0 < n < Z.of_nat idlen ->
  iobuf w = repeat NUL 512 -> Forall (fun c => c <> NUL) id ->
  exists w', release fd off id 0 w = Ret 0 w'
             /\ disk w' = disk w /\ writes w' = writes w.
Proof.
  intros Ha Hd Hr Hn Hbuf Hid.
  unfold release. cbn [Z.eqb]. unfold bind.
  rewrite (readtag_nolimit fd off _ w st rest n Ha Hd Hr) by lia.
  cbn beta iota zeta.
  assert (Hr0 : (Z.of_nat (clamp n 512) <? 0) = false)
    by (apply Z.ltb_ge; lia).
  rewrite Hr0.
  set (k := clamp n 512).
  assert (Hk : (0 < k < idlen)%nat) by (unfold k, clamp; lia).
  match goal with
  | |- context [sameid ?c id] => set (curr := c)
  end.
  assert (Hnul : nth k curr SP = NUL).
  { unfold curr, memcpy. rewrite Hbuf.
    assert (Hlen : length (firstn k (bytes_at (disk w) off k)) = k)
      by (rewrite length_firstn, length_bytes_at; lia).
    rewrite app_nth1.
    2:{ rewrite length_firstn, length_app, Hlen, length_skipn, repeat_length.
        change taglen with 32%nat. unfold idlen in Hk. lia. }
    rewrite nth_firstn.
    replace (k <? taglen)%nat with true
      by (symmetry; apply Nat.ltb_lt; change taglen with 32%nat;
          unfold idlen in Hk; lia).
    rewrite app_nth2 by lia. rewrite Hlen, Nat.sub_diag.
    rewrite nth_skipn, Nat.add_0_r. apply nth_repeat_lt.
    unfold idlen in Hk. lia. }
  assert (Hne : sameid curr id = false).
  { destruct (sameid curr id) eqn:E; [|reflexivity]. exfalso.
    apply sameid_spec in E.
    apply (nth_fmt_ls_not_nul id k Hid (proj2 Hk)).
    rewrite <- Hnul.
    apply (f_equal (fun l => nth k l SP)) in E.
    rewrite !nth_firstn in E.
    replace (k <? idlen)%nat with true in E
      by (symmetry; apply Nat.ltb_lt; lia).
    symmetry. exact E. }
  rewrite Hne. cbn [negb].
  eexists. split; [reflexivity|]. split; [reflexivity|].
  erewrite writes_cons by reflexivity. apply app_nil_r.
Qed.

End Release.

(** C8: [release] without force, on a sector whose identity field is
    not the caller's identity (the read delivering at least that field),
    returns 0 and writes nothing: no [pwrite] is issued and the device is
    as it was. *)
Theorem release_not_held (fd offset : Z) (id : bytes) (w : world)
    (st : io_step) (rest : list io_step) (n : Z) :
  alarm_at w = None -> device w = st :: rest ->
  io_res st = Transferred n -> Z.of_nat idlen <= n ->
  sameid (sector w offset) id = false ->
  exists w', release fd offset id 0 w = Ret 0 w'
             /\ disk w' = disk w /\ writes w' = writes w.
Proof.
  intros Ha Hd Hr Hn Hid.
  unfold release. cbn [Z.eqb]. unfold bind.
  rewrite (readtag_nolimit fd offset _ w st rest n Ha Hd Hr)
    by (unfold idlen in Hn; lia).
  cbn beta iota zeta.
  assert (Hr0 : (Z.of_nat (clamp n 512) <? 0) = false) by (apply Z.ltb_ge; lia).
  rewrite Hr0.
  rewrite (sameid_firstn _ (sector w offset)), Hid.
  - cbn [negb]. eexists. split; [reflexivity|]. split; [reflexivity|].
    erewrite writes_cons by reflexivity. apply app_nil_r.
  - apply read_identity. unfold clamp, idlen in *. lia.
Qed.

Lemma release_not_held_witness :
  exists w',
    release 3 0 (lit "A") 0 on_sector_of_B = Ret 0 w'
    /\ disk w' = disk on_sector_of_B /\ writes w' = writes on_sector_of_B.
Proof.
  apply (release_not_held 3 0 (lit "A") on_sector_of_B
           (transfer 512 1000) [] 512).
  - reflexivity.
  - reflexivity.
  - reflexivity.
  - vm_compute. discriminate.
  - vm_compute. reflexivity.
Defined.

(** *** Short writes *)

(** C7, as stated, fails: the kernel stores 100 of the 512 bytes and
    [writetag] still reports success. *)
Lemma writetag_accepts_short_write :
  match writetag 3 0 freetag 0 short_of_sector with
  | Ret r w' => r = 0 /\ returned (transfer 100 1000) 512 = 100
  | Exit _ _ => False
  end.
Proof. vm_compute. split; reflexivity. Qed.

Section Calm.

Lemma pwrite_calm fd count off w :
  undisturbed (io_usec (answer w)) w ->
  pwrite fd count off w =
    let buf := firstn (Z.to_nat count) (iobuf w) in
    let w2 := set_clock (clock w + io_usec (answer w))
                (snd (next_step (log (EvPwrite fd buf off) w))) in
    match io_res (answer w) with
    | Failed e => Ret (-1) (set_errno e w2)
    | Transferred n =>
        let k := clamp n count in
        Ret (Z.of_nat k) (set_disk (write_at (disk w) off (firstn k buf)) w2)
    end.
Proof.
  unfold undisturbed, answer, pwrite, next_step. cbn [device log].
  destruct (device w) as [|st rest]; cbn beta iota zeta;
    cbn [fst snd io_usec io_res]; unfold blocking;
    cbn [alarm_at set_device log clock];
    destruct (alarm_at w) as [t|]; intros H;
    try (destruct (Z.leb_spec t (clock w + 0));
         [exfalso; lia | reflexivity]);
    try (destruct (Z.leb_spec t (clock w + io_usec st));
         [exfalso; lia | reflexivity]);
    reflexivity.
Qed.

Lemma withintimelimits_value a b w w0 :
  op_max_ms w = op_max_ms w0 ->
  withintimelimits a b w = Ret 1 w /\ withintimelimits a b w0 = Ret 1 w0
  \/ withintimelimits a b w = Ret 0 (set_errno (- ETIMEDOUT) w)
     /\ withintimelimits a b w0 = Ret 0 (set_errno (- ETIMEDOUT) w0).
Proof.
  intros H. unfold withintimelimits, bind, get, modify, ret. rewrite H.
  destruct (op_max_ms w0 <=? 0); [left; split; reflexivity|].
  destruct (_ >? _); [right | left]; split; reflexivity.
Qed.

End Calm.

(** C7, amended: when no alarm cuts the call short, [writetag] returns
    -1 whenever [pwrite] fails or stores fewer than the 32 bytes of the
    tag; a write that stores 32 bytes or more, though short of the 512
    asked for, is not taken for a short write: [writetag] returns 0 for
    it when no deadline applies, and with a deadline 0 or -1 as
    [withintimelimits] judges the time the call took. *)
Theorem writetag_short (fd offset : Z) (tag : bytes) (limit : Z) (w : world) :
  undisturbed (io_usec (answer w)) w ->
  exists r w',
    writetag fd offset tag limit w = Ret r w'
    /\ (returned (answer w) 512 < Z.of_nat taglen -> r = -1)
    /\ (Z.of_nat taglen <= returned (answer w) 512 -> limit = 0 -> r = 0)
    /\ (Z.of_nat taglen <= returned (answer w) 512 -> limit <> 0 ->
        forall ok wx,
          withintimelimits (tv_at (clock w))
            (tv_at (clock w + io_usec (answer w))) w = Ret ok wx ->
          r = if ok =? 0 then -1 else 0).
Proof.
  intros Hu.
  unfold writetag, bind, modify, gettimeofday, get.
  rewrite pwrite_calm
    by exact Hu.
  cbn beta iota zeta.
  change (answer (set_iobuf (memcpy (iobuf w) tag taglen) w)) with (answer w).
  unfold returned.
  destruct (io_res (answer w)) as [n | e].
  - destruct (Z.ltb_spec (Z.of_nat (clamp n 512)) (Z.of_nat taglen)) as [Hn | Hn].
    + cbn beta iota. do 2 eexists. split; [reflexivity|].
      split; [reflexivity|]. split; intros; lia.
    + change (0 <? 0) with false. cbn beta iota.
      destruct (Z.eqb_spec limit 0) as [Hl | Hl].
      * do 2 eexists. split; [reflexivity|].
        split; [intros; lia|]. split; [reflexivity|]. intros _ Hl'. lia.
      * cbn [clock set_iobuf set_disk set_clock].
        match goal with
        | |- context [withintimelimits ?a ?b (set_disk ?d ?y)] =>
            destruct (withintimelimits_value a b (set_disk d y) w)
              as [[H H0] | [H H0]];
              [unfold next_step; cbn [device log set_iobuf];
               destruct (device w); reflexivity | |]; rewrite H
        end;
          (do 2 eexists; split; [reflexivity|];
           split; [intros; lia|]; split; [intros; lia|];
           intros _ _ ok wx Hw; unfold tv_at in Hw; rewrite H0 in Hw;
           inversion Hw; reflexivity).
  - cbn beta iota. change (-1 <? Z.of_nat taglen) with true. cbn beta iota.
    do 2 eexists. split; [reflexivity|].
    split; [reflexivity|].
    change (Z.of_nat taglen) with 32. split; intros; lia.
Qed.

Lemma writetag_short_witness :
  exists r w',
    writetag 3 0 freetag 0 short_of_sector_armed = Ret r w'
    /\ (returned (answer short_of_sector_armed) 512 < Z.of_nat taglen ->
        r = -1)
    /\ (Z.of_nat taglen <= returned (answer short_of_sector_armed) 512 ->
        0 = 0 -> r = 0)
    /\ (Z.of_nat taglen <= returned (answer short_of_sector_armed) 512 ->
        0 <> 0 ->
        forall ok wx,
          withintimelimits (tv_at (clock short_of_sector_armed))
            (tv_at (clock short_of_sector_armed
                    + io_usec (answer short_of_sector_armed)))
            short_of_sector_armed = Ret ok wx ->
          r = if ok =? 0 then -1 else 0).
Proof.
  apply (writetag_short 3 0 freetag 0 short_of_sector_armed).
  vm_compute. reflexivity.
Defined.

(** With no deadline, 32 bytes stored are enough for [writetag] to
    report the write as done. *)
Lemma writetag_enough (fd offset : Z) (tag : bytes) (w : world)
    (st : io_step) (rest : list io_step) :
  alarm_at w = None -> device w = st :: rest ->
  Z.of_nat taglen <= returned st 512 ->
  exists w', writetag fd offset tag 0 w = Ret 0 w'.
Proof.
  intros Ha Hd. apply (writetag_step fd offset tag 0 w st rest Ha Hd).
Qed.

(** *** What a write puts in the rest of the sector *)

(** C6, as stated, fails: a sector that holds our tag followed by
    bytes [x] is read by [release], and the write that frees it hands
    those bytes back to the device; byte 32 of the buffer written, and of
    the sector afterwards, is [x], not zero. *)
Lemma release_writes_back_tail :
  match release 3 0 (lit "A") 0 on_sector_of_A with
  | Ret r w' =>
      r = 1
      /\ map (fun p => (firstn taglen (fst p), nth 32 (fst p) NUL)) (writes w')
         = [(freetag, "x"%char)]
      /\ nth 32 (sector w' 0) NUL = "x"%char
  | Exit _ _ => False
  end.
Proof. vm_compute. repeat split. Qed.

Section Finals.

Ltac every_way w :=
  unfold answer, next_step; cbn [device log];
  destruct (device w) as [|st rest]; cbn beta iota zeta;
  unfold blocking, bind, handler, panic;
  cbn [alarm_at set_device log io_usec io_res];
  destruct (alarm_at w) as [t|];
  repeat match goal with
    | |- context [if ?b then _ else _] => destruct b
    | |- context [match io_res ?s with _ => _ end] => destruct (io_res s)
    end; reflexivity.

(** What a [pwrite] leaves behind, however it ends. *)
Lemma pwrite_final fd count off w :
  iobuf (final (pwrite fd count off w)) = iobuf w
  /\ disk (final (pwrite fd count off w))
     = match io_res (answer w) with
       | Transferred n =>
           write_at (disk w) off
             (firstn (clamp n count) (firstn (Z.to_nat count) (iobuf w)))
       | Failed _ => disk w
       end.
Proof. split; unfold pwrite; every_way w. Qed.

(** What a [pread] leaves behind, however it ends. *)
Lemma pread_final fd count off w :
  disk (final (pread fd count off w)) = disk w
  /\ iobuf (final (pread fd count off w))
     = match io_res (answer w) with
       | Transferred n =>
           memcpy (iobuf w) (bytes_at (disk w) off (clamp n count))
             (clamp n count)
       | Failed _ => iobuf w
       end.
Proof. split; unfold pread; every_way w. Qed.

Lemma writetag_final fd off tag limit w :
  iobuf (final (writetag fd off tag limit w)) = memcpy (iobuf w) tag taglen
  /\ disk (final (writetag fd off tag limit w))
     = match io_res (answer w) with
       | Transferred n =>
           write_at (disk w) off
             (firstn (clamp n 512)
                (firstn 512 (memcpy (iobuf w) tag taglen)))
       | Failed _ => disk w
       end.
Proof.
  unfold writetag, bind, modify, gettimeofday, get.
  pose proof (pwrite_final fd 512 off
                (set_iobuf (memcpy (iobuf w) tag taglen) w)) as [Hi Hd].
  change (answer (set_iobuf (memcpy (iobuf w) tag taglen) w))
    with (answer w) in Hd.
  cbn [iobuf disk set_iobuf] in Hi, Hd.
  destruct (pwrite fd 512 off _) as [n w2 | s w2]; cbn [final] in Hi, Hd;
    [|split; assumption].
  destruct (n <? Z.of_nat taglen); [split; assumption|].
  change (0 <? 0) with false. cbn beta iota.
  destruct (limit =? 0); [split; assumption|].
  match goal with
  | |- context [withintimelimits ?a ?b ?x] =>
      destruct (withintimelimits_cases a b x) as [H | H]; rewrite H
  end; split; assumption.
Qed.

Lemma readtag_final fd off tag limit w :
  disk (final (readtag fd off tag limit w)) = disk w
  /\ iobuf (final (readtag fd off tag limit w))
     = match io_res (answer w) with
       | Transferred n =>
           memcpy (iobuf w) (bytes_at (disk w) off (clamp n 512))
             (clamp n 512)
       | Failed _ => iobuf w
       end.
Proof.
  unfold readtag, bind, gettimeofday, get.
  pose proof (pread_final fd 512 off w) as [Hd Hi].
  destruct (pread fd 512 off w) as [r w2 | s w2]; cbn [final] in Hi, Hd;
    [|split; assumption].
  destruct (r <=? 0); [split; assumption|].
  destruct (limit =? 0); [split; assumption|].
  match goal with
  | |- context [withintimelimits ?a ?b ?x] =>
      destruct (withintimelimits_cases a b x) as [H | H]; rewrite H
  end; split; assumption.
Qed.

End Finals.

(** C6, amended: every [writetag], whatever reads and writes came
    before it, whether or not an alarm is pending and whatever the
    kernel then answers, hands [pwrite] a 512-byte buffer whose bytes 0
    to 31 are the tag and whose bytes 32 to 511 are those of the shared
    I/O buffer at that moment, and leaves exactly that buffer in the I/O
    buffer; when the kernel stores all 512 bytes the sector holds
    exactly that buffer.  The I/O buffer is zero when the process
    starts; a [readtag] puts the bytes the kernel transfers at its front
    (the whole sector, when all 512 are transferred; nothing, when the
    read fails) and keeps the rest.  So the bytes written after the tag
    are zero until a read has brought in bytes that are not, and from
    then on they are written back as read. *)
Theorem writetag_buffer_tail (fd offset : Z) (tag : bytes) (limit : Z)
    (w : world) :
  length (iobuf w) = 512%nat -> (taglen <= length tag)%nat ->
  let buf := firstn taglen tag ++ skipn taglen (iobuf w) in
  let w' := final (writetag fd offset tag limit w) in
  length buf = 512%nat
  /\ writes w' = writes w ++ [(buf, offset)]
  /\ iobuf w' = buf
  /\ (forall n, io_res (answer w) = Transferred n -> 512 <= n ->
                sector w' offset = buf)
  /\ (forall fd' off' tag' limit',
        let w'' := final (readtag fd' off' tag' limit' w) in
        length (iobuf w'') = 512%nat
        /\ (forall n, io_res (answer w) = Transferred n ->
              iobuf w''
              = bytes_at (disk w) off' (clamp n 512)
                  ++ skipn (clamp n 512) (iobuf w))
        /\ (forall n, io_res (answer w) = Transferred n -> 512 <= n ->
              iobuf w'' = sector w off')
        /\ (forall e, io_res (answer w) = Failed e -> iobuf w'' = iobuf w))
  /\ (forall lease op_max d now answers,
        iobuf (after_main lease op_max d now answers) = repeat NUL 512).
Proof.
  intros Hl Ht buf w'.
  assert (Hlen : length buf = 512%nat).
  { unfold buf. rewrite length_app, length_firstn, length_skipn.
    change taglen with 32%nat in *. lia. }
  assert (Hbuf : firstn 512 (memcpy (iobuf w) tag taglen) = buf).
  { change (memcpy (iobuf w) tag taglen) with buf.
    apply firstn_all2. rewrite Hlen. apply Nat.le_refl. }
  destruct (writetag_final fd offset tag limit w) as [Hi Hd].
  split; [exact Hlen|]. split; [|split; [|split; [|split]]].
  - unfold w'. erewrite writes_cons by apply writetag_trace.
    rewrite Hbuf. reflexivity.
  - exact Hi.
  - intros n Hr Hn. unfold sector, w'. rewrite Hd, Hr, Hbuf.
    rewrite firstn_all2 by (unfold clamp; lia).
    rewrite <- Hlen. apply bytes_at_write_at.
  - intros fd' off' tag' limit' w''.
    destruct (readtag_final fd' off' tag' limit' w) as [_ Hr].
    fold w'' in Hr.
    assert (Hm : forall n,
               memcpy (iobuf w) (bytes_at (disk w) off' (clamp n 512))
                 (clamp n 512)
               = bytes_at (disk w) off' (clamp n 512)
                   ++ skipn (clamp n 512) (iobuf w)).
    { intros n. unfold memcpy. f_equal. apply firstn_all2.
      rewrite length_bytes_at. apply Nat.le_refl. }
    split; [|split; [|split]].
    + rewrite Hr. destruct (io_res (answer w)) as [n | e]; [|exact Hl].
      rewrite Hm, length_app, length_bytes_at, length_skipn.
      unfold clamp. lia.
    + intros n E. rewrite Hr, E. apply Hm.
    + intros n E Hn. rewrite Hr, E, Hm.
      replace (clamp n 512) with 512%nat by (unfold clamp; lia).
      rewrite skipn_all2 by lia. apply app_nil_r.
    + intros e E. rewrite Hr, E. reflexivity.
  - reflexivity.
Qed.

Lemma writetag_buffer_tail_witness :
  let tag := buildtag (lit "A") (t0 + 30001000) in
  let buf := firstn taglen tag ++ skipn taglen (iobuf renewing_A) in
  let w' := final (writetag 3 0 tag 1 renewing_A) in
  length buf = 512%nat
  /\ writes w' = writes renewing_A ++ [(buf, 0)]
  /\ iobuf w' = buf
  /\ (forall n, io_res (answer renewing_A) = Transferred n -> 512 <= n ->
                sector w' 0 = buf)
  /\ (forall fd' off' tag' limit',
        let w'' := final (readtag fd' off' tag' limit' renewing_A) in
        length (iobuf w'') = 512%nat
        /\ (forall n, io_res (answer renewing_A) = Transferred n ->
              iobuf w''
              = bytes_at (disk renewing_A) off' (clamp n 512)
                  ++ skipn (clamp n 512) (iobuf renewing_A))
        /\ (forall n, io_res (answer renewing_A) = Transferred n ->
              512 <= n -> iobuf w'' = sector renewing_A off')
        /\ (forall e, io_res (answer renewing_A) = Failed e ->
              iobuf w'' = iobuf renewing_A))
  /\ (forall lease op_max d now answers,
        iobuf (after_main lease op_max d now answers) = repeat NUL 512).
Proof.
  apply (writetag_buffer_tail 3 0 (buildtag (lit "A") (t0 + 30001000)) 1
           renewing_A).
  - reflexivity.
  - vm_compute. lia.
Defined.

(** *** Identities that differ in trailing spaces *)

Section Ident.
Import Libc.

Lemma sameid_padded (i j : bytes) :
  fmt_ls idlen i = fmt_ls idlen j -> forall tag, sameid tag i = sameid tag j.
Proof. intros H tag. unfold sameid. rewrite H. reflexivity. Qed.

Lemma buildtag_padded (i j : bytes) :
  fmt_ls idlen i = fmt_ls idlen j -> forall ts, buildtag i ts = buildtag j ts.
Proof. intros H ts. unfold buildtag. rewrite H. reflexivity. Qed.

Lemma release_padded (i j : bytes) :
  fmt_ls idlen i = fmt_ls idlen j ->
  forall fd offset force w,
    release fd offset i force w = release fd offset j force w.
Proof.
  intros H fd offset force w. unfold release, bind.
  destruct (force =? 0); [|reflexivity].
  destruct (readtag fd offset _ 0 w) as [[r curr] w1 | s w1];
    [|reflexivity].
  cbn beta iota zeta. rewrite (sameid_padded i j H). reflexivity.
Qed.

Lemma writetimestamp_padded (i j : bytes) :
  fmt_ls idlen i = fmt_ls idlen j ->
  forall fd offset ts w,
    writetimestamp fd offset i ts w = writetimestamp fd offset j ts w.
Proof.
  intros H fd offset ts w. unfold writetimestamp, bind, gettimeofday, get.
  rewrite (buildtag_padded i j H). reflexivity.
Qed.

Lemma renew_padded (i j : bytes) :
  fmt_ls idlen i = fmt_ls idlen j ->
  forall fd offset ts w,
    renew fd offset i ts w = renew fd offset j ts w.
Proof.
  intros H fd offset ts w. unfold renew, bind.
  destruct (readtag fd offset _ 0 w) as [[r curr] w1 | s w1];
    [|reflexivity].
  cbn beta iota zeta. rewrite (sameid_padded i j H).
  destruct (r <? 0); [reflexivity|].
  destruct (sameid curr j); [|reflexivity]. cbn [negb].
  destruct (timeleft_ms _ w1) as [m w2 | s w2]; [|reflexivity].
  destruct (m <=? 0); [reflexivity|].
  destruct (alarm _ w2) as [u w3 | s w3]; [|reflexivity].
  rewrite (writetimestamp_padded i j H). reflexivity.
Qed.
End Ident.

(** *** What query calls free *)

Section QueryState.

Lemma query_state_cases (curr : bytes) :
  (query_state curr = lit "FREE"
   <-> firstn idlen curr = firstn idlen freetag)
  /\ (query_state curr = lit "LOCKED"
      <-> firstn idlen curr <> firstn idlen freetag).
Proof.
  unfold query_state.
  assert (Hs : sameid curr freetag = true
               <-> firstn idlen curr = firstn idlen freetag).
  { rewrite sameid_spec. reflexivity. }
  destruct (sameid curr freetag); split; split; intros H;
    try reflexivity; try discriminate H.
  - apply Hs. reflexivity.
  - exfalso. apply H, Hs. reflexivity.
  - exfalso. assert (true = false) by (symmetry; apply Hs; exact H). 
    discriminate.
  - intros E. apply Hs in E. discriminate E.
Qed.
End QueryState.

(** C9: [query] chooses between FREE and LOCKED by the first 16 bytes
    of the tag alone: it prints FREE when they are the sentinel's and
    LOCKED when they are not.  So for a sector whose identity field is
    the sentinel's but whose timestamp field is not all zeros, [query]
    prints FREE although the tag is not the sentinel and [isfree] of it
    is false. *)
Theorem query_free_by_identity (fd offset : Z) (w : world) (st : io_step)
    (rest : list io_step) (n : Z) :
  alarm_at w = None -> device w = st :: rest ->
  io_res st = Transferred n -> Z.of_nat taglen <= n ->
  let tag := firstn taglen (sector w offset) in
  exists w' state id stamp tsec tusec,
    query fd offset w = Ret 1 w'
    /\ trace w' = EvPrintf state id stamp tsec tusec
                    :: EvPread fd offset :: trace w
    /\ (firstn idlen tag = firstn idlen freetag -> state = lit "FREE")
    /\ (firstn idlen tag <> firstn idlen freetag -> state = lit "LOCKED")
    /\ (firstn idlen tag = firstn idlen freetag ->
        skipn idlen tag <> skipn idlen freetag ->
        state = lit "FREE" /\ tag <> freetag /\ isfree tag = false).
Proof.
  intros Ha Hd Hr Hn tag.
  unfold query, bind.
  rewrite (readtag_nolimit fd offset _ w st rest n Ha Hd Hr)
    by (change taglen with 32%nat in Hn; lia).
  cbn beta iota zeta.
  assert (Hr0 : (Z.of_nat (clamp n 512) <? 0) = false)
    by (apply Z.ltb_ge; lia).
  rewrite Hr0.
  match goal with
  | |- context [querytag ?c] =>
      set (curr := c); destruct (querytag curr) as [id ts]
  end.
  assert (Hcurr : firstn idlen curr = firstn idlen tag).
  { unfold tag, sector.
    rewrite firstn_firstn. change (Nat.min idlen taglen) with idlen.
    apply read_identity. unfold clamp. change taglen with 32%nat in Hn.
    unfold idlen. lia. }
  unfold modify, ret.
  exists (log (EvPrintf (query_state curr) (Libc.fmt_ls idlen (cstr id))
                 (Libc.fmt_0llx stamplen (u64 ts)) (Z.quot ts 1000000)
                 (Z.rem ts 1000000))
            (set_iobuf
               (memcpy (iobuf w) (bytes_at (disk w) offset (clamp n 512))
                  (clamp n 512))
               (answered (EvPread fd offset) st rest w))).
  exists (query_state curr). do 4 eexists.
  split; [reflexivity|]. split; [reflexivity|].
  assert (Hfree : firstn idlen tag = firstn idlen freetag ->
                  query_state curr = lit "FREE").
  { intros E. apply (proj1 (query_state_cases curr)). rewrite Hcurr. exact E. }
  split; [exact Hfree|]. split.
  - intros E. apply (proj2 (query_state_cases curr)). rewrite Hcurr. exact E.
  - intros E Hst.
    assert (Hne : tag <> freetag).
    { intros E'. apply Hst. rewrite E'. reflexivity. }
    split; [exact (Hfree E)|]. split; [exact Hne|].
    unfold isfree, sametag, memeq. apply bytes_eqb_neq.
    unfold tag. rewrite firstn_firstn, Nat.min_id. exact Hne.
Qed.

Lemma query_free_by_identity_witness :
  exists w' state id stamp tsec tusec,
    query 3 0 on_stamped_free_identity = Ret 1 w'
    /\ trace w' = EvPrintf state id stamp tsec tusec
                    :: EvPread 3 0 :: trace on_stamped_free_identity
    /\ (firstn idlen (firstn taglen (sector on_stamped_free_identity 0))
        = firstn idlen freetag -> state = lit "FREE")
    /\ (firstn idlen (firstn taglen (sector on_stamped_free_identity 0))
        <> firstn idlen freetag -> state = lit "LOCKED")
    /\ (firstn idlen (firstn taglen (sector on_stamped_free_identity 0))
        = firstn idlen freetag ->
        skipn idlen (firstn taglen (sector on_stamped_free_identity 0))
        <> skipn idlen freetag ->
        state = lit "FREE"
        /\ firstn taglen (sector on_stamped_free_identity 0) <> freetag
        /\ isfree (firstn taglen (sector on_stamped_free_identity 0)) = false).
Proof.
  apply (query_free_by_identity 3 0 on_stamped_free_identity
           (transfer 512 1000) [] 512).
  - reflexivity.
  - reflexivity.
  - reflexivity.
  - vm_compute. discriminate.
Defined.

(** *** Renewal: the timestamp reported and the alarm *)

Section Renewal.

Lemma writetag_result fd off tag limit w :
  match writetag fd off tag limit w with
  | Ret r _ => r = 0 \/ r = -1
  | Exit _ _ => True
  end.
Proof.
  unfold writetag, bind, modify, gettimeofday, get.
  destruct (pwrite fd 512 off _) as [n w2 | s w2]; [|exact I].
  destruct (n <? Z.of_nat taglen).
  - right. reflexivity.
  - change (0 <? 0) with false. cbn beta iota.
    destruct (limit =? 0); [left; reflexivity|].
    match goal with
    | |- context [withintimelimits ?a ?b ?x] =>
        destruct (withintimelimits_cases a b x) as [H | H]; rewrite H
    end; [left | right]; reflexivity.
Qed.

(** [writetimestamp] never stores the time it wrote: [writetag]
    answers 0 or -1, and the store is guarded by [r > 0]. *)
Lemma writetimestamp_keeps_ts fd off id ts w :
  match writetimestamp fd off id ts w with
  | Ret (r, _, ts') _ => ts' = ts
  | Exit _ _ => True
  end.
Proof.
  unfold writetimestamp, bind, gettimeofday, get.
  match goal with
  | |- context [writetag ?a ?b ?c ?d ?x] =>
      pose proof (writetag_result a b c d x) as H;
      destruct (writetag a b c d x) as [r w1 | s w1]
  end; [|exact I].
  unfold ret. destruct H as [-> | ->]; reflexivity.
Qed.

Lemma timeleft_ms_at tsprev w :
  timeleft_ms tsprev w = Ret (msleft_at (lease_ms w) (clock w) tsprev) w.
Proof. reflexivity. Qed.

Lemma skipn_firstn_32 (a : bytes) :
  firstn stamplen (skipn idlen a) = skipn idlen (firstn taglen a).
Proof.
  rewrite skipn_firstn_comm. reflexivity.
Qed.

Lemma querytag_firstn (a b : bytes) :
  firstn taglen a = firstn taglen b -> querytag a = querytag b.
Proof.
  intros H. unfold querytag, memcpy.
  rewrite !skipn_firstn_32, H.
  replace (firstn idlen a) with (firstn idlen (firstn taglen a))
    by (rewrite firstn_firstn; reflexivity).
  rewrite H, firstn_firstn. reflexivity.
Qed.

Lemma read_tag d off iob tag k :
  (taglen <= k)%nat ->
  firstn taglen (memcpy tag (memcpy iob (bytes_at d off k) k) taglen)
  = firstn taglen (bytes_at d off 512).
Proof.
  intros Hk.
  assert (H512 : (taglen <= 512)%nat) by (change taglen with 32%nat; lia).
  unfold memcpy.
  rewrite (firstn_all2 (n := k) (bytes_at d off k))
    by (rewrite length_bytes_at; lia).
  rewrite (firstn_app taglen (bytes_at d off k)), length_bytes_at.
  replace (taglen - k)%nat with 0%nat by lia.
  rewrite firstn_O, app_nil_r, !firstn_bytes_at by assumption.
  rewrite firstn_app, length_bytes_at, Nat.sub_diag, firstn_O, app_nil_r.
  apply firstn_all2. rewrite length_bytes_at. lia.
Qed.

(** With no alarm pending a write runs to its end and leaves none
    pending. *)
Lemma writetag_returns fd off tag limit w :
  alarm_at w = None ->
  exists r w', writetag fd off tag limit w = Ret r w' /\ alarm_at w' = None.
Proof.
  intros Ha.
  unfold writetag, bind, modify, gettimeofday, get.
  unfold pwrite, next_step. cbn [device log set_iobuf].
  destruct (device w) as [|st rest]; cbn beta iota zeta;
    unfold blocking; cbn [alarm_at set_device log set_iobuf];
    rewrite Ha; cbn [io_res].
  - unfold ret. do 2 eexists. split; [reflexivity | exact Ha].
  - destruct (io_res st) as [n | e].
    + destruct (_ <? Z.of_nat taglen).
      * unfold ret. do 2 eexists. split; [reflexivity | exact Ha].
      * change (0 <? 0) with false. cbn beta iota.
        destruct (limit =? 0).
        -- unfold ret. do 2 eexists. split; [reflexivity | exact Ha].
        -- match goal with
           | |- context [withintimelimits ?a ?b ?x] =>
               destruct (withintimelimits_cases a b x) as [H | H]; rewrite H
           end; unfold ret; do 2 eexists; (split; [reflexivity | exact Ha]).
    + unfold ret. do 2 eexists. split; [reflexivity | exact Ha].
Qed.

(** The stamp a renewal reports with result 1 is the one it read. *)
Lemma renew_reports_read_stamp fd off id ts w st rest n r ts' w' :
  alarm_at w = None -> device w = st :: rest ->
  io_res st = Transferred n -> Z.of_nat taglen <= n ->
  renew fd off id ts w = Ret (r, ts') w' -> r = 1 ->
  ts' = snd (querytag (sector w off)).
Proof.
  intros Ha Hd Hr Hn Hrun H1.
  assert (Hk : (taglen <= clamp n 512)%nat)
    by (unfold clamp; change taglen with 32%nat in *; lia).
  unfold renew, bind in Hrun.
  rewrite (readtag_nolimit fd off _ w st rest n Ha Hd Hr) in Hrun
    by (change taglen with 32%nat in Hn; lia).
  cbn beta iota zeta in Hrun.
  assert (Hr0 : (Z.of_nat (clamp n 512) <? 0) = false)
    by (apply Z.ltb_ge; lia).
  rewrite Hr0 in Hrun.
  rewrite (querytag_firstn _ (sector w off)) in Hrun by (apply read_tag, Hk).
  destruct (sameid _ id); cbn [negb] in Hrun.
  2:{ unfold alarm, modify, ret in Hrun. inversion Hrun. lia. }
  rewrite timeleft_ms_at in Hrun. cbn beta iota in Hrun.
  destruct (_ <=? 0).
  { unfold alarm, modify, ret in Hrun. inversion Hrun.
    unfold ETIMEDOUT in *. lia. }
  unfold alarm at 1, modify in Hrun.
  match type of Hrun with
  | context [writetimestamp ?a ?b ?c ?d ?x] =>
      pose proof (writetimestamp_keeps_ts a b c d x) as Hk';
      destruct (writetimestamp a b c d x) as [[[r1 tag1] ts1] w1 | s w1]
  end; [|discriminate Hrun].
  cbn beta iota zeta in Hrun. subst ts1.
  destruct (r1 <? 0); unfold get, alarm, modify, ret in Hrun;
    inversion Hrun; reflexivity.
Qed.

(** X18: with a second or more left, [renew] arms the alarm for the
    whole seconds left and issues its write; when that write lasts as
    long as the time left or longer, the alarm comes due during it, the
    handler runs and [renew] never returns: the process exits with
    status -1, the alarm armed and not disarmed.  What the overtaken
    write has stored by then is the kernel's answer and is left open. *)
Lemma renew_fence_fires fd off id ts w st1 st2 rest n :
  alarm_at w = None -> device w = st1 :: st2 :: rest ->
  io_res st1 = Transferred n -> Z.of_nat taglen <= n ->
  sameid (sector w off) id = true ->
  let m := msleft_at (lease_ms w) (clock w + io_usec st1)
             (snd (querytag (sector w off))) in
  1000 <= m -> Z.quot m 1000 < 2 ^ 32 -> m * 1000 <= io_usec st2 ->
  exists w',
    renew fd off id ts w = Exit (-1) w'
    /\ alarms w' = alarms w ++ [Z.quot m 1000]
    /\ length (writes w') = S (length (writes w)).
Proof.
  intros Ha Hd Hr Hn Hid m Hm Hq Hlate.
  assert (Hk : (taglen <= clamp n 512)%nat)
    by (unfold clamp; change taglen with 32%nat in *; lia).
  unfold renew, bind.
  rewrite (readtag_nolimit fd off _ w st1 (st2 :: rest) n Ha Hd Hr)
    by (change taglen with 32%nat in Hn; lia).
  cbn beta iota zeta.
  assert (Hr0 : (Z.of_nat (clamp n 512) <? 0) = false)
    by (apply Z.ltb_ge; lia).
  rewrite Hr0.
  rewrite (sameid_firstn _ (sector w off)), Hid
    by (apply read_identity; change taglen with 32%nat in Hk;
        unfold idlen; lia).
  cbn [negb].
  rewrite (querytag_firstn _ (sector w off)) by (apply read_tag, Hk).
  rewrite timeleft_ms_at. cbn beta iota.
  change (msleft_at _ _ _) with m.
  assert (Hm0 : (m <=? 0) = false) by (apply Z.leb_gt; lia).
  rewrite Hm0.
  assert (Hu : u32 (Z.quot m 1000) = Z.quot m 1000).
  { unfold u32. apply Z.mod_small. split; [|exact Hq].
    apply Z.quot_pos; lia. }
  assert (Hq1 : 1 <= Z.quot m 1000).
  { apply Z.quot_le_lower_bound; lia. }
  assert (Hqm : Z.quot m 1000 * 1000 <= m).
  { rewrite Z.mul_comm. apply Z.mul_quot_le; lia. }
  unfold alarm, modify. rewrite Hu.
  assert (Hz : (Z.quot m 1000 =? 0) = false) by (apply Z.eqb_neq; lia).
  rewrite Hz.
  unfold writetimestamp, writetag, bind, modify, gettimeofday, get.
  unfold pwrite, next_step.
  cbn [device log set_alarm set_iobuf answered set_clock set_device].
  cbn beta iota zeta. unfold blocking.
  cbn [alarm_at log set_alarm set_iobuf answered set_clock set_device clock io_usec].
  match goal with
  | |- context [if ?c then _ else _] =>
      assert (Hc : c = true) by (apply Z.leb_le; lia); rewrite Hc
  end.
  unfold bind, handler, panic.
  destruct (io_res st2); (eexists; split; [reflexivity|]);
    unfold alarms, writes, answered;
    cbn [trace log set_errno set_disk set_alarm set_clock set_device
         set_iobuf];
    cbn [rev]; rewrite !flat_map_app; cbn [flat_map app];
    rewrite ?app_nil_r, ?length_app; cbn [length];
    (split; [reflexivity | lia]).
Qed.

(** With less than a second left no alarm is armed: whatever the
    device does next and however long it takes, [renew] is not
    interrupted. *)
Lemma renew_subsecond_returns fd off id ts w st rest n :
  alarm_at w = None -> device w = st :: rest ->
  io_res st = Transferred n -> Z.of_nat taglen <= n ->
  msleft_at (lease_ms w) (clock w + io_usec st)
    (snd (querytag (sector w off))) < 1000 ->
  exists res w', renew fd off id ts w = Ret res w'.
Proof.
  intros Ha Hd Hr Hn Hm.
  assert (Hk : (taglen <= clamp n 512)%nat)
    by (unfold clamp; change taglen with 32%nat in *; lia).
  unfold renew, bind.
  rewrite (readtag_nolimit fd off _ w st rest n Ha Hd Hr)
    by (change taglen with 32%nat in Hn; lia).
  cbn beta iota zeta.
  assert (Hr0 : (Z.of_nat (clamp n 512) <? 0) = false)
    by (apply Z.ltb_ge; lia).
  rewrite Hr0.
  rewrite (querytag_firstn _ (sector w off)) by (apply read_tag, Hk).
  destruct (sameid _ id); cbn [negb].
  2:{ do 2 eexists; reflexivity. }
  rewrite timeleft_ms_at. cbn beta iota.
  set (m := msleft_at _ _ _) in *.
  change (msleft_at _ _ _) with m in Hm.
  destruct (Z.leb_spec m 0) as [Hle | Hgt].
  { do 2 eexists; reflexivity. }
  assert (Hq : Z.quot m 1000 = 0) by (apply Z.quot_small; lia).
  unfold alarm at 1, modify. rewrite Hq.
  change (u32 0 =? 0) with true. cbn beta iota.
  unfold writetimestamp, bind, gettimeofday, get.
  match goal with
  | |- context [writetag ?a ?b ?c ?d ?x] =>
      destruct (writetag_returns a b c d x) as [r1 [w1 [Hw _]]];
      [reflexivity | rewrite Hw]
  end.
  unfold ret. cbn beta iota zeta.
  destruct (r1 <? 0); do 2 eexists; reflexivity.
Qed.

End Renewal.

(** C3, on the code: [writetimestamp] succeeds (returns 0), the tag
    it built and stored carries the clock's time, and [*ts] is still the
    7 it was; and [renew], 30 s after [A] took the lease at [t0], returns
    1 and reports [t0], the stamp it read, while the sector now carries
    the stamp it wrote. *)
Theorem renew_reports_old_stamp :
  match writetimestamp 3 0 (lit "A") 7 on_free_sector with
  | Ret (r, tag, ts) w' =>
      r = 0 /\ tag = buildtag (lit "A") t0
      /\ firstn taglen (sector w' 0) = tag /\ ts = 7
  | Exit _ _ => False
  end
  /\ match renew 3 0 (lit "A") 0 on_sector_of_A with
     | Ret (r, ts) w' =>
         r = 1 /\ ts = t0
         /\ snd (querytag (sector w' 0)) = t0 + 30001000
     | Exit _ _ => False
     end.
Proof. vm_compute. repeat split. Qed.

(** C2, on the code: with half a second of the lease left, [renew]
    calls [alarm(0)], which arms nothing; the write then takes 2 s, is
    not interrupted, and [renew] returns 1 with the new stamp on the
    device 1.5 s after the lease ran out. *)
Theorem renew_last_second_unfenced :
  match timeleft_ms t0 on_sector_of_A_late with
  | Ret msleft _ => msleft = 500
  | Exit _ _ => False
  end
  /\ match renew 3 0 (lit "A") 0 on_sector_of_A_late with
     | Ret (r, _) w' =>
         r = 1
         /\ alarms w' = [0; 0]
         /\ snd (querytag (sector w' 0)) = t0 + 59500000
         /\ clock w' = t0 + 61500000
     | Exit _ _ => False
     end.
Proof. vm_compute. repeat split. Qed.

(** *** An uncontended acquire *)

(** Alone on a free sector, a one-shot [acquire] wins: it writes its
    stamp, finds it again after the contention window, and renews. *)
Example acquire_alone :
  match acquire 2 3 0 (lit "A") 0 0 on_free_sector_alone with
  | Ret (Some (r, ts)) w' =>
      r = 1 /\ ts = t0 + 1000
      /\ firstn idlen (sector w' 0) = Libc.fmt_ls idlen (lit "A")
  | _ => False
  end.
Proof. vm_compute. repeat split. Qed.

(** ** Part 5: further properties of the operations *)

Section Codec2.
Import Libc LibcFacts.

Lemma length_fmt_ls_ge (w : nat) (s : bytes) : (w <= length (fmt_ls w s))%nat.
Proof. unfold fmt_ls. rewrite length_app, repeat_length. lia. Qed.

Lemma length_fmt_0llx_ge (w : nat) (v : Z) : (w <= length (fmt_0llx w v))%nat.
Proof. unfold fmt_0llx. rewrite length_hexdigits. lia. Qed.

Lemma rstrip_fmt_ls (w : nat) (s : bytes) : rstrip (fmt_ls w s) = rstrip s.
Proof. apply rstrip_app_spaces. Qed.

End Codec2.

Lemma length_buildtag (id : bytes) (ts : Z) : length (buildtag id ts) = taglen.
Proof.
  unfold buildtag, Libc.snprintf.
  rewrite length_firstn, length_app.
  pose proof (length_fmt_ls_ge idlen id).
  pose proof (length_fmt_0llx_ge stamplen (u64 ts)).
  change (taglen + 1 - 1)%nat with taglen.
  unfold taglen in *. lia.
Qed.

(** X1: whatever the identity and the timestamp, [buildtag] fills
    exactly the 32 bytes of a tag, and the identity field holds the
    first 16 characters of the padded identity: a longer identity is cut,
    never written past the tag. *)
Theorem buildtag_length (id : bytes) (ts : Z) :
  length (buildtag id ts) = taglen
  /\ firstn idlen (buildtag id ts) = firstn idlen (Libc.fmt_ls idlen id).
Proof.
  split; [apply length_buildtag|].
  unfold buildtag, Libc.snprintf.
  change (taglen + 1 - 1)%nat with taglen.
  rewrite firstn_firstn. change (Nat.min idlen taglen) with idlen.
  rewrite firstn_app.
  replace (idlen - length (Libc.fmt_ls idlen id))%nat with 0%nat
    by (pose proof (length_fmt_ls_ge idlen id); lia).
  rewrite firstn_O, app_nil_r. reflexivity.
Qed.

(** X2: for identities of at most 16 bytes and 64-bit timestamps,
    two tags are equal exactly when the timestamps are equal and the
    identities differ at most in trailing spaces. *)
Theorem buildtag_injective (i j : bytes) (t u : Z) :
  (length i <= idlen)%nat -> (length j <= idlen)%nat ->
  in_s64 t -> in_s64 u ->
  (buildtag i t = buildtag j u <-> rstrip i = rstrip j /\ t = u).
Proof.
  intros Hi Hj Ht Hu. split.
  - intros E. apply (f_equal querytag) in E.
    rewrite !querytag_of_buildtag in E by assumption.
    inversion E as [[Hp Htu]]. split; [|reflexivity].
    rewrite <- (rstrip_fmt_ls idlen i), <- (rstrip_fmt_ls idlen j), Hp.
    reflexivity.
  - intros [Hr ->]. unfold buildtag.
    rewrite (fmt_ls_rstrip i j Hi Hj Hr). reflexivity.
Qed.

(** X3: a tag built for an identity matches another identity (both
    of at most 16 bytes) exactly when the two differ at most in trailing
    spaces; a holder is never taken for someone of a different name. *)
Theorem sameid_buildtag_iff (i j : bytes) (ts : Z) :
  (length i <= idlen)%nat -> (length j <= idlen)%nat ->
  (sameid (buildtag i ts) j = true <-> rstrip i = rstrip j).
Proof.
  intros Hi Hj. rewrite sameid_spec, buildtag_identity by exact Hi.
  rewrite (firstn_all2 (Libc.fmt_ls idlen j))
    by (rewrite LibcFacts.length_fmt_ls by exact Hj; reflexivity).
  split.
  - intros E.
    rewrite <- (rstrip_fmt_ls idlen i), <- (rstrip_fmt_ls idlen j), E.
    reflexivity.
  - apply fmt_ls_rstrip; assumption.
Qed.

Lemma validate_id_ok_iff (id : bytes) :
  validate_id_ok id = true
  <-> (length id <= idlen)%nat /\ id <> lit "------FREE------".
Proof.
  unfold validate_id_ok, strncmp_eq.
  rewrite andb_true_iff, Nat.leb_le, negb_true_iff, bytes_eqb_neq.
  split; intros [Hl Hn]; (split; [exact Hl|]).
  - intros ->. apply Hn. reflexivity.
  - rewrite (firstn_all2 id) by exact Hl. exact Hn.
Qed.

(** X4: [validate_id] returns for an identity of at most 16 bytes
    that is not [------FREE------], and exits with status -1 for every
    other. *)
Theorem validate_id_spec (id : bytes) (w : world) :
  validate_id id w
  = if (length id <=? idlen)%nat
       && negb (bytes_eqb id (lit "------FREE------"))
    then Ret tt w else Exit (-1) w.
Proof.
  unfold validate_id, bind, panic, ret, strncmp_eq.
  destruct (Nat.ltb_spec idlen (length id)) as [Hgt | Hle].
  - replace (length id <=? idlen)%nat with false
      by (symmetry; apply Nat.leb_gt; exact Hgt).
    reflexivity.
  - replace (length id <=? idlen)%nat with true
      by (symmetry; apply Nat.leb_le; exact Hle).
    rewrite (firstn_all2 id) by exact Hle.
    change (firstn idlen freetag) with (lit "------FREE------").
    cbn [andb]. destruct (bytes_eqb id (lit "------FREE------")); reflexivity.
Qed.

(** X5: an identity [validate_id] lets through never matches the
    sentinel, and a tag built for it never carries the sentinel's
    identity. *)
Theorem sentinel_not_sameid (id : bytes) :
  validate_id_ok id = true ->
  sameid freetag id = false /\ forall t, in_s64 t -> sameid (buildtag id t) freetag = false.
Proof.
  intros Hv. apply validate_id_ok_iff in Hv. destruct Hv as [Hl Hn].
  split.
  - destruct (sameid freetag id) eqn:E; [|reflexivity]. exfalso.
    apply sameid_spec in E.
    rewrite (firstn_all2 (Libc.fmt_ls idlen id)) in E
      by (rewrite LibcFacts.length_fmt_ls by exact Hl; reflexivity).
    apply Hn. apply (fmt_ls_prefix id Hl). symmetry. exact E.
  - intros t Ht.
    destruct (sameid (buildtag id t) freetag) eqn:E; [|reflexivity]. exfalso.
    apply sameid_spec in E. rewrite buildtag_identity in E by exact Hl.
    apply Hn. apply (fmt_ls_prefix id Hl). rewrite E. reflexivity.
Qed.

Section Time.

Lemma s64_small (z : Z) : in_s64 z -> s64 z = z.
Proof.
  unfold in_s64, s64.
  change (2 ^ 64) with 18446744073709551616.
  change (2 ^ 63) with 9223372036854775808.
  intros H. Z.div_mod_to_equations. lia.
Qed.

Lemma u64_small (z : Z) : 0 <= z < 2 ^ 64 -> u64 z = z.
Proof. intros H. apply Z.mod_small, H. Qed.

Lemma tv2msec_at (c : Z) : 0 <= c < 2 ^ 63 -> tv2msec (tv_at c) = c / 1000.
Proof.
  intros Hc. unfold tv2msec, tv_at. cbn [tv_sec tv_usec].
  change (2 ^ 63) with 9223372036854775808 in Hc.
  assert (Hq : Z.quot (c mod 1000000) 1000 = (c mod 1000000) / 1000).
  { apply Z.quot_div_nonneg; [|lia]. apply Z.mod_pos_bound. lia. }
  rewrite Hq.
  assert (E : c / 1000000 * 1000 + c mod 1000000 / 1000 = c / 1000)
    by (Z.div_mod_to_equations; lia).
  rewrite E. apply u64_small.
  change (2 ^ 64) with 18446744073709551616.
  Z.div_mod_to_equations. lia.
Qed.

(** Without wrap-around [timeleft_ms] is the lease less the age of the
    stamp, both in milliseconds. *)
Lemma msleft_at_exact (lease now ts : Z) :
  0 <= now < 2 ^ 63 -> in_s64 ts -> - 2 ^ 62 <= lease <= 2 ^ 62 ->
  msleft_at lease now ts = lease - (now / 1000 - Z.quot ts 1000).
Proof.
  intros Hn Ht Hl. unfold msleft_at. fold (tv_at now).
  rewrite tv2msec_at by exact Hn.
  unfold in_s64 in *.
  change (2 ^ 63) with 9223372036854775808 in *.
  change (2 ^ 62) with 4611686018427387904 in *.
  assert (Hq : -9223372036854775 <= Z.quot ts 1000 <= 9223372036854775).
  { Z.quot_rem_to_equations. lia. }
  assert (Hd : 0 <= now / 1000 <= 9223372036854775)
    by (Z.div_mod_to_equations; lia).
  rewrite (s64_small (now / 1000))
    by (unfold in_s64; change (2 ^ 63) with 9223372036854775808; lia).
  rewrite (s64_small (now / 1000 - _))
    by (unfold in_s64; change (2 ^ 63) with 9223372036854775808; lia).
  apply s64_small. unfold in_s64.
  change (2 ^ 63) with 9223372036854775808. lia.
Qed.

Lemma gettimeofday_at w : gettimeofday w = Ret (tv_at (clock w)) w.
Proof. reflexivity. Qed.

End Time.

Lemma within_in_time (c d : Z) (w : world) :
  0 <= c -> 0 <= d -> c + d < 2 ^ 63 ->
  d <= op_max_ms w * 1000 -> op_max_ms w < 2 ^ 63 ->
  withintimelimits (tv_at c) (tv_at (c + d)) w = Ret 1 w.
Proof.
  intros Hc Hd Hcd Hop Hmax.
  unfold withintimelimits, bind, get.
  destruct (Z.leb_spec (op_max_ms w) 0) as [Hle | Hgt]; [reflexivity|].
  change (2 ^ 63) with 9223372036854775808 in *.
  rewrite !tv2msec_at
    by (change (2 ^ 63) with 9223372036854775808; lia).
  assert (Hdiff : 0 <= (c + d) / 1000 - c / 1000 <= op_max_ms w)
    by (Z.div_mod_to_equations; lia).
  rewrite !u64_small
    by (change (2 ^ 64) with 18446744073709551616; lia).
  destruct (Z.gtb_spec ((c + d) / 1000 - c / 1000) (op_max_ms w));
    [lia | reflexivity].
Qed.

(** X7: a transfer that starts at clock [c] and takes [d]
    microseconds, [d] at most [op_max_ms] milliseconds, is within limits
    and leaves [errno] alone. *)
Theorem withintimelimits_in_time (c d : Z) (w : world) :
  0 <= c -> 0 <= d -> c + d < 2 ^ 63 ->
  d <= op_max_ms w * 1000 -> op_max_ms w < 2 ^ 63 ->
  withintimelimits (tv_at c) (tv_at (c + d)) w = Ret 1 w.
Proof. apply within_in_time. Qed.

Lemma withintimelimits_in_time_witness :
  withintimelimits (tv_at t0) (tv_at (t0 + 5000000)) on_free_sector
  = Ret 1 on_free_sector.
Proof.
  apply withintimelimits_in_time.
  - vm_compute. discriminate.
  - lia.
  - vm_compute. reflexivity.
  - vm_compute. discriminate.
  - vm_compute. reflexivity.
Defined.

Lemma within_breach (c d : Z) (w : world) :
  0 <= c < 2 ^ 63 -> 0 <= c + d < 2 ^ 63 ->
  0 < op_max_ms w < 2 ^ 63 ->
  (op_max_ms w + 1) * 1000 <= d \/ d <= - 1000 ->
  withintimelimits (tv_at c) (tv_at (c + d)) w
  = Ret 0 (set_errno (- ETIMEDOUT) w).
Proof.
  intros Hc Hcd Hop Hd.
  unfold withintimelimits, bind, get, modify, ret.
  destruct (Z.leb_spec (op_max_ms w) 0) as [Hle | Hgt]; [lia|].
  rewrite !tv2msec_at by assumption.
  change (2 ^ 63) with 9223372036854775808 in *.
  rewrite (u64_small (op_max_ms w))
    by (change (2 ^ 64) with 18446744073709551616; lia).
  assert (Hgt' : u64 ((c + d) / 1000 - c / 1000) > op_max_ms w).
  { destruct Hd as [Hlate | Hback].
    - rewrite u64_small
        by (change (2 ^ 64) with 18446744073709551616;
            Z.div_mod_to_equations; lia).
      Z.div_mod_to_equations; lia.
    - unfold u64. change (2 ^ 64) with 18446744073709551616.
      assert (Hneg : -9223372036854775808 <= (c + d) / 1000 - c / 1000 <= -1)
        by (Z.div_mod_to_equations; lia).
      Z.div_mod_to_equations; lia. }
  destruct (Z.gtb_spec (u64 ((c + d) / 1000 - c / 1000)) (op_max_ms w));
    [reflexivity | lia].
Qed.

(** X8: a transfer that takes a millisecond more than [op_max_ms],
    or during which the clock went back by a millisecond or more, is
    out of limits, and [errno] is then set to minus [ETIMEDOUT]. *)
Theorem withintimelimits_breach (c d : Z) (w : world) :
  0 <= c < 2 ^ 63 -> 0 <= c + d < 2 ^ 63 ->
  0 < op_max_ms w < 2 ^ 63 ->
  (op_max_ms w + 1) * 1000 <= d \/ d <= - 1000 ->
  withintimelimits (tv_at c) (tv_at (c + d)) w
  = Ret 0 (set_errno (- ETIMEDOUT) w).
Proof. apply within_breach. Qed.

Lemma withintimelimits_breach_witness :
  withintimelimits (tv_at t0) (tv_at (t0 + -1000)) on_free_sector
  = Ret 0 (set_errno (- ETIMEDOUT) on_free_sector).
Proof.
  apply withintimelimits_breach.
  - vm_compute. split; [discriminate | reflexivity].
  - vm_compute. split; [discriminate | reflexivity].
  - vm_compute. split; reflexivity.
  - right. lia.
Defined.

(** X9: [validate_lease_params] judges its arguments as the call
    converts them to [int]: it returns exactly when the converted
    [op_max_ms] is at least 1000, a multiple of 1000 and at most the
    converted [lease_ms], and exits with status -1 otherwise; values
    that fit an [int] are judged as they are. *)
Theorem validate_lease_params_spec (lease op_max : Z) (w : world) :
  validate_lease_params lease op_max w
  = (if (1000 <=? s32 op_max) && (s32 op_max <=? s32 lease)
        && (s32 op_max mod 1000 =? 0)
     then Ret tt w else Exit (-1) w)
  /\ (- 2 ^ 31 <= lease < 2 ^ 31 -> s32 lease = lease)
  /\ (- 2 ^ 31 <= op_max < 2 ^ 31 -> s32 op_max = op_max).
Proof.
  split.
  - unfold validate_lease_params, panic, ret. cbn zeta.
    generalize (s32 lease) (s32 op_max). clear lease op_max.
    intros lease op_max.
    destruct (Z.leb_spec 1000 op_max) as [H1 | H1].
    + rewrite (Z.rem_mod_nonneg op_max 1000) by lia.
      destruct (Z.leb_spec lease 0), (Z.leb_spec op_max 0),
        (Z.ltb_spec lease op_max), (Z.ltb_spec op_max 1000),
        (Z.leb_spec op_max lease), (Z.eqb_spec (op_max mod 1000) 0);
        cbn [orb andb negb]; try reflexivity; lia.
    + destruct (Z.leb_spec lease 0), (Z.leb_spec op_max 0),
        (Z.ltb_spec lease op_max), (Z.ltb_spec op_max 1000);
        cbn [orb andb negb]; try reflexivity; lia.
  - split; intros H; unfold s32;
      change (2 ^ 31) with 2147483648 in *;
      change (2 ^ 32) with 4294967296;
      rewrite Z.mod_small by lia; lia.
Qed.

Lemma validate_lease_params_spec_witness :
  validate_lease_params 60000 5000 on_free_sector
  = (if (1000 <=? s32 5000) && (s32 5000 <=? s32 60000)
        && (s32 5000 mod 1000 =? 0)
     then Ret tt on_free_sector else Exit (-1) on_free_sector)
  /\ s32 60000 = 60000 /\ s32 5000 = 5000.
Proof.
  destruct (validate_lease_params_spec 60000 5000 on_free_sector)
    as (H & Hl & Ho).
  split; [exact H|]. split; [apply Hl | apply Ho]; lia.
Defined.

(** X10: the stamp [renew_timeout] computes leaves, by
    [timeleft_ms] read at the same instant, exactly [op_max_ms]
    milliseconds. *)
Theorem renew_timeout_timeleft (w : world) :
  0 <= clock w < 2 ^ 62 ->
  0 <= op_max_ms w <= lease_ms w -> lease_ms w < 2 ^ 31 ->
  (lease_ms w - op_max_ms w) * 1000 <= clock w ->
  (ts <- renew_timeout ;; timeleft_ms ts) w
  = Ret (op_max_ms w) w.
Proof.
  intros Hc Hop Hl Hpos.
  unfold renew_timeout, timeleft_ms, bind, get, ret.
  rewrite !gettimeofday_at. cbn [tv_at tv_sec tv_usec].
  fold (tv_at (clock w)).
  change (2 ^ 62) with 4611686018427387904 in *.
  change (2 ^ 31) with 2147483648 in *.
  assert (E : clock w / 1000000 * 1000000 + clock w mod 1000000 = clock w)
    by (Z.div_mod_to_equations; lia).
  rewrite E.
  set (ts := clock w - (lease_ms w - op_max_ms w) * 1000).
  assert (Hts : 0 <= ts < 4611686018427387904) by (unfold ts; lia).
  rewrite (u64_small ts) by (change (2 ^ 64) with 18446744073709551616; lia).
  rewrite (s64_small ts)
    by (unfold in_s64; change (2 ^ 63) with 9223372036854775808; lia).
  f_equal.
  change (s64 (lease_ms w - s64 (s64 (tv2msec (tv_at (clock w))) - Z.quot ts 1000)))
    with (msleft_at (lease_ms w) (clock w) ts).
  rewrite msleft_at_exact.
  - rewrite Z.quot_div_nonneg by lia. unfold ts.
    Z.div_mod_to_equations. lia.
  - change (2 ^ 63) with 9223372036854775808. lia.
  - unfold in_s64. change (2 ^ 63) with 9223372036854775808. lia.
  - change (2 ^ 62) with 4611686018427387904. lia.
Qed.

Section Runs.

Lemma readtag_run fd off tag limit w st rest n :
  alarm_at w = None -> device w = st :: rest ->
  io_res st = Transferred n -> 0 < n ->
  limit = 0 \/ in_time (op_max_ms w) (clock w) (io_usec st) ->
  let k := clamp n 512 in
  let buf := memcpy (iobuf w) (bytes_at (disk w) off k) k in
  readtag fd off tag limit w
  = Ret (Z.of_nat k, memcpy tag buf taglen)
        (set_iobuf buf (answered (EvPread fd off) st rest w)).
Proof.
  intros Ha Hd Hr Hn Hlim k buf.
  unfold readtag, bind. rewrite gettimeofday_at.
  rewrite (pread_step _ _ _ _ _ _ Ha Hd), Hr. cbn beta iota zeta.
  rewrite gettimeofday_at.
  assert (Hk : (Z.of_nat (clamp n 512) <=? 0) = false).
  { apply Z.leb_gt. unfold clamp. lia. }
  rewrite Hk.
  destruct (Z.eqb_spec limit 0) as [|Hne]; [reflexivity|].
  destruct Hlim as [|(Hc & Hd0 & Hcd & Hop & Hmax)]; [contradiction|].
  cbn [clock set_iobuf answered set_clock].
  rewrite within_in_time by assumption.
  reflexivity.
Qed.

Lemma writetag_run fd off tag limit w st rest n :
  alarm_at w = None -> device w = st :: rest ->
  io_res st = Transferred n -> Z.of_nat taglen <= n ->
  limit = 0 \/ in_time (op_max_ms w) (clock w) (io_usec st) ->
  let buf := memcpy (iobuf w) tag taglen in
  writetag fd off tag limit w
  = Ret 0
      (set_disk (write_at (disk w) off (firstn (clamp n 512) (firstn 512 buf)))
         (answered (EvPwrite fd (firstn 512 buf) off) st rest
            (set_iobuf buf w))).
Proof.
  intros Ha Hd Hr Hn Hlim buf.
  unfold writetag, bind, modify. rewrite gettimeofday_at.
  rewrite (pwrite_step fd 512 off _ st rest) by assumption.
  cbn beta iota zeta. rewrite Hr.
  assert (Hk : (Z.of_nat (clamp n 512) <? Z.of_nat taglen) = false).
  { apply Z.ltb_ge. unfold clamp. change taglen with 32%nat in *. lia. }
  rewrite Hk. change (0 <? 0) with false. cbn beta iota.
  rewrite gettimeofday_at.
  destruct (Z.eqb_spec limit 0) as [|Hne]; [reflexivity|].
  destruct Hlim as [|(Hc & Hd0 & Hcd & Hop & Hmax)]; [contradiction|].
  cbn [clock set_iobuf answered set_clock set_disk].
  rewrite within_in_time by assumption.
  reflexivity.
Qed.

Lemma writetag_run_late fd off tag limit w st rest n :
  alarm_at w = None -> device w = st :: rest ->
  io_res st = Transferred n -> Z.of_nat taglen <= n ->
  limit <> 0 ->
  0 <= clock w < 2 ^ 63 -> 0 <= clock w + io_usec st < 2 ^ 63 ->
  0 < op_max_ms w < 2 ^ 63 ->
  (op_max_ms w + 1) * 1000 <= io_usec st \/ io_usec st <= - 1000 ->
  let buf := memcpy (iobuf w) tag taglen in
  writetag fd off tag limit w
  = Ret (-1)
      (set_errno (- ETIMEDOUT)
         (set_disk (write_at (disk w) off (firstn (clamp n 512) (firstn 512 buf)))
            (answered (EvPwrite fd (firstn 512 buf) off) st rest
               (set_iobuf buf w)))).
Proof.
  intros Ha Hd Hr Hn Hlim Hc Hcd Hop Hlate buf.
  unfold writetag, bind, modify. rewrite gettimeofday_at.
  rewrite (pwrite_step fd 512 off _ st rest) by assumption.
  cbn beta iota zeta. rewrite Hr.
  assert (Hk : (Z.of_nat (clamp n 512) <? Z.of_nat taglen) = false).
  { apply Z.ltb_ge. unfold clamp. change taglen with 32%nat in *. lia. }
  rewrite Hk. change (0 <? 0) with false. cbn beta iota.
  rewrite gettimeofday_at.
  destruct (Z.eqb_spec limit 0) as [|Hne]; [contradiction|].
  cbn [clock set_iobuf answered set_clock set_disk].
  rewrite within_breach by assumption.
  reflexivity.
Qed.

Lemma firstn_map_nth (data : bytes) (m : nat) :
  (m <= length data)%nat ->
  map (fun i => nth i data NUL) (seq 0 m) = firstn m data.
Proof.
  revert m. induction data as [|c data IH]; intros m Hm.
  - destruct m; [reflexivity | simpl in Hm; lia].
  - destruct m as [|m]; [reflexivity|].
    cbn [length] in Hm. cbn [seq map nth firstn]. f_equal.
    rewrite <- seq_shift, map_map. apply IH. lia.
Qed.

Lemma bytes_at_write_at_prefix d off data m :
  (m <= length data)%nat ->
  bytes_at (write_at d off data) off m = firstn m data.
Proof.
  intros Hm. rewrite <- (firstn_map_nth data m Hm).
  unfold bytes_at. apply map_ext_in. intros i Hi. apply in_seq in Hi.
  unfold write_at.
  replace ((off <=? off + Z.of_nat i)
           && (off + Z.of_nat i <? off + Z.of_nat (length data)))
    with true
    by (symmetry; apply andb_true_iff; split;
        [apply Z.leb_le | apply Z.ltb_lt]; lia).
  f_equal. lia.
Qed.

(** The first 32 bytes of what a write of at least 32 bytes stores. *)
Lemma stored_tag (iob tag : bytes) (k : nat) :
  (taglen <= k)%nat -> (taglen <= length tag)%nat ->
  firstn taglen (firstn k (firstn 512 (memcpy iob tag taglen)))
  = firstn taglen tag.
Proof.
  intros Hk Ht. unfold memcpy.
  rewrite !firstn_firstn.
  replace (Nat.min (Nat.min taglen k) 512) with taglen
    by (change taglen with 32%nat in *; lia).
  rewrite firstn_app, length_firstn.
  replace (taglen - Nat.min taglen (length tag))%nat with 0%nat by lia.
  rewrite firstn_O, app_nil_r, firstn_firstn, Nat.min_id. reflexivity.
Qed.

End Runs.

Section Runs2.

Lemma sector_after_write d off iob tag k :
  (taglen <= k)%nat -> (taglen <= length tag)%nat ->
  firstn taglen
    (bytes_at (write_at d off (firstn k (firstn 512 (memcpy iob tag taglen))))
       off 512)
  = firstn taglen tag.
Proof.
  intros Hk Ht.
  rewrite firstn_bytes_at by (change taglen with 32%nat; lia).
  rewrite bytes_at_write_at_prefix.
  - apply stored_tag; assumption.
  - unfold memcpy.
    rewrite !length_firstn, length_app, length_firstn.
    change taglen with 32%nat in *. lia.
Qed.

Lemma pread_frame fd count off w :
  disk (final (pread fd count off w)) = disk w
  /\ trace (final (pread fd count off w)) = EvPread fd off :: trace w.
Proof.
  unfold pread, next_step. cbn [device log].
  destruct (device w) as [|st rest]; cbn beta iota zeta;
    unfold blocking, handler, panic;
    cbn [alarm_at set_device log io_usec io_res];
    destruct (alarm_at w) as [t|];
    repeat match goal with
      | |- context [if ?b then _ else _] => destruct b
      | |- context [match io_res ?s with _ => _ end] => destruct (io_res s)
      end; split; reflexivity.
Qed.

Lemma readtag_frame fd off tag limit w :
  disk (final (readtag fd off tag limit w)) = disk w
  /\ trace (final (readtag fd off tag limit w)) = EvPread fd off :: trace w.
Proof.
  unfold readtag, bind. rewrite gettimeofday_at.
  pose proof (pread_frame fd 512 off w) as Hp.
  destruct (pread fd 512 off w) as [r w1 | s w1]; cbn [final] in Hp;
    [|exact Hp].
  rewrite gettimeofday_at.
  destruct (r <=? 0); [exact Hp|].
  destruct (limit =? 0); [exact Hp|].
  match goal with
  | |- context [withintimelimits ?a ?b ?x] =>
      destruct (withintimelimits_cases a b x) as [H | H]; rewrite H
  end; exact Hp.
Qed.

End Runs2.

(** X11: a read without deadline that transfers fewer than 32 bytes
    succeeds and returns their number; the tag handed back is the bytes
    read followed by whatever the I/O buffer held behind them. *)
Theorem readtag_partial (fd off : Z) (tag : bytes) (w : world)
    (st : io_step) (rest : list io_step) (n : Z) :
  alarm_at w = None -> device w = st :: rest ->
  io_res st = Transferred n -> 0 < n < Z.of_nat taglen ->
  length (iobuf w) = 512%nat ->
  exists tag' w',
    readtag fd off tag 0 w = Ret (n, tag') w'
    /\ firstn taglen tag'
       = bytes_at (disk w) off (Z.to_nat n)
         ++ firstn (taglen - Z.to_nat n) (skipn (Z.to_nat n) (iobuf w)).
Proof.
  intros Ha Hd Hr Hn Hl.
  assert (Hk : clamp n 512 = Z.to_nat n)
    by (unfold clamp; change taglen with 32%nat in Hn; lia).
  rewrite (readtag_run fd off tag 0 w st rest n Ha Hd Hr) by (lia || auto).
  rewrite Hk, Z2Nat.id by lia.
  do 2 eexists. split; [reflexivity|].
  unfold memcpy.
  rewrite (firstn_all2 (n := Z.to_nat n) (bytes_at _ _ _))
    by (rewrite length_bytes_at; lia).
  rewrite firstn_app.
  assert (Hlen : (taglen <= length (bytes_at (disk w) off (Z.to_nat n)
                                    ++ skipn (Z.to_nat n) (iobuf w)))%nat).
  { rewrite length_app, length_bytes_at, length_skipn, Hl.
    change taglen with 32%nat in *. lia. }
  rewrite length_firstn.
  replace (taglen - Nat.min taglen _)%nat with 0%nat by lia.
  rewrite firstn_O, app_nil_r, firstn_firstn, Nat.min_id.
  rewrite firstn_app, length_bytes_at.
  rewrite (firstn_all2 (bytes_at _ _ _))
    by (rewrite length_bytes_at; change taglen with 32%nat in *; lia).
  reflexivity.
Qed.

(** X12: a write under deadline that stores the tag but takes a
    millisecond more than [op_max_ms] returns -1 with [errno] minus
    [ETIMEDOUT], and the tag is on the device all the same. *)
Theorem writetag_late_lands (fd off : Z) (tag : bytes) (limit : Z)
    (w : world) (st : io_step) (rest : list io_step) (n : Z) :
  alarm_at w = None -> device w = st :: rest ->
  io_res st = Transferred n -> Z.of_nat taglen <= n ->
  (taglen <= length tag)%nat -> limit <> 0 ->
  0 <= clock w -> clock w + io_usec st < 2 ^ 63 ->
  0 < op_max_ms w < 2 ^ 63 ->
  (op_max_ms w + 1) * 1000 <= io_usec st ->
  exists w',
    writetag fd off tag limit w = Ret (-1) w'
    /\ errno w' = - ETIMEDOUT
    /\ firstn taglen (sector w' off) = firstn taglen tag.
Proof.
  intros Ha Hd Hr Hn Ht Hlim Hc Hcd Hop Hlate.
  rewrite (writetag_run_late fd off tag limit w st rest n)
    by (assumption || lia || (left; assumption)).
  eexists. split; [reflexivity|]. split; [reflexivity|].
  unfold sector. cbn [disk set_errno set_disk].
  apply sector_after_write; [|exact Ht].
  unfold clamp. change taglen with 32%nat in *. lia.
Qed.

(** X13: a tag written (at least its 32 bytes stored) and then read
    back (at least 32 bytes transferred), both in time where a deadline
    applies, is the same tag to [sametag]. *)
Theorem writetag_readtag (fd off : Z) (tag buf : bytes) (l1 l2 : Z)
    (w : world) (st1 st2 : io_step) (rest : list io_step) (n1 n2 : Z) :
  alarm_at w = None -> device w = st1 :: st2 :: rest ->
  io_res st1 = Transferred n1 -> Z.of_nat taglen <= n1 ->
  io_res st2 = Transferred n2 -> Z.of_nat taglen <= n2 ->
  (taglen <= length tag)%nat ->
  l1 = 0 \/ in_time (op_max_ms w) (clock w) (io_usec st1) ->
  l2 = 0 \/ in_time (op_max_ms w) (clock w + io_usec st1) (io_usec st2) ->
  exists r tag' w',
    (writetag fd off tag l1 ;; readtag fd off buf l2) w = Ret (r, tag') w'
    /\ 0 < r /\ sametag tag' tag = true.
Proof.
  intros Ha Hd Hr1 Hn1 Hr2 Hn2 Ht Hl1 Hl2.
  unfold bind.
  rewrite (writetag_run fd off tag l1 w st1 (st2 :: rest) n1)
    by assumption.
  cbn zeta.
  erewrite (readtag_run fd off buf l2 _ st2 rest n2);
    [ | exact Ha | reflexivity | exact Hr2
      | change taglen with 32%nat in Hn2; lia | exact Hl2 ].
  do 3 eexists. split; [reflexivity|]. split.
  - unfold clamp. change taglen with 32%nat in Hn2. lia.
  - unfold sametag, memeq. apply bytes_eqb_eq.
    cbn [disk iobuf set_iobuf set_disk answered set_clock set_device log].
    rewrite read_tag by (unfold clamp; change taglen with 32%nat in *; lia).
    apply sector_after_write; [|exact Ht].
    unfold clamp. change taglen with 32%nat in *. lia.
Qed.

Section RenewPaths.

Lemma alarms_cons (w w' : world) (e : event) :
  trace w' = e :: trace w ->
  alarms w' = alarms w ++ match e with EvAlarm s => [s] | _ => [] end.
Proof.
  intros H. unfold alarms. rewrite H. cbn [rev].
  rewrite flat_map_app. cbn [flat_map]. rewrite app_nil_r. reflexivity.
Qed.

Lemma alarm_run s w :
  alarm s w
  = Ret tt (log (EvAlarm (u32 s))
              (set_alarm (if u32 s =? 0 then None
                          else Some (clock w + u32 s * 1000000)) w)).
Proof. reflexivity. Qed.

End RenewPaths.

(** X14: [renew] on a sector whose identity field is not the
    caller's returns 0 with [*ts] set to 0, writes nothing and leaves no
    alarm pending. *)
Theorem renew_not_held (fd off : Z) (id : bytes) (ts : Z) (w : world)
    (st : io_step) (rest : list io_step) (n : Z) :
  alarm_at w = None -> device w = st :: rest ->
  io_res st = Transferred n -> Z.of_nat idlen <= n ->
  sameid (sector w off) id = false ->
  exists w',
    renew fd off id ts w = Ret (0, 0) w'
    /\ disk w' = disk w /\ writes w' = writes w /\ alarm_at w' = None.
Proof.
  intros Ha Hd Hr Hn Hid.
  unfold renew, bind.
  rewrite (readtag_nolimit fd off _ w st rest n Ha Hd Hr)
    by (unfold idlen in Hn; lia).
  cbn beta iota zeta.
  assert (Hr0 : (Z.of_nat (clamp n 512) <? 0) = false)
    by (apply Z.ltb_ge; lia).
  rewrite Hr0.
  rewrite (sameid_firstn _ (sector w off)), Hid
    by (apply read_identity; unfold clamp, idlen in *; lia).
  cbn [negb]. rewrite alarm_run. unfold ret.
  eexists. split; [reflexivity|]. split; [reflexivity|]. split; [|reflexivity].
  erewrite writes_cons by reflexivity.
  erewrite (writes_cons w) by reflexivity.
  rewrite !app_nil_r. reflexivity.
Qed.

Lemma renew_expired_run (fd off : Z) (id : bytes) (ts : Z) (w : world)
    (st : io_step) (rest : list io_step) (n : Z) :
  alarm_at w = None -> device w = st :: rest ->
  io_res st = Transferred n -> Z.of_nat taglen <= n ->
  sameid (sector w off) id = true ->
  0 <= clock w + io_usec st < 2 ^ 63 ->
  - 2 ^ 62 <= lease_ms w <= 2 ^ 62 ->
  let stamp := snd (querytag (sector w off)) in
  lease_ms w <= (clock w + io_usec st) / 1000 - Z.quot stamp 1000 ->
  exists w',
    renew fd off id ts w = Ret (- ETIMEDOUT, stamp) w'
    /\ disk w' = disk w /\ writes w' = writes w /\ alarm_at w' = None.
Proof.
  intros Ha Hd Hr Hn Hid Hc Hl stamp Hage.
  assert (Hk : (taglen <= clamp n 512)%nat)
    by (unfold clamp; change taglen with 32%nat in *; lia).
  unfold renew, bind.
  rewrite (readtag_nolimit fd off _ w st rest n Ha Hd Hr)
    by (change taglen with 32%nat in Hn; lia).
  cbn beta iota zeta.
  assert (Hr0 : (Z.of_nat (clamp n 512) <? 0) = false)
    by (apply Z.ltb_ge; lia).
  rewrite Hr0.
  rewrite (sameid_firstn _ (sector w off)), Hid
    by (apply read_identity; change taglen with 32%nat in Hk;
        unfold idlen; lia).
  cbn [negb].
  rewrite (querytag_firstn _ (sector w off)) by (apply read_tag, Hk).
  fold stamp.
  rewrite timeleft_ms_at. cbn beta iota.
  cbn [lease_ms clock set_iobuf answered set_clock set_device log].
  assert (Hs : in_s64 stamp).
  { unfold stamp, querytag, snd, s64, in_s64.
    change (2 ^ 64) with 18446744073709551616.
    change (2 ^ 63) with 9223372036854775808.
    Z.div_mod_to_equations. lia. }
  rewrite msleft_at_exact by assumption.
  assert (Hm : (lease_ms w - ((clock w + io_usec st) / 1000 - Z.quot stamp 1000)
                <=? 0) = true) by (apply Z.leb_le; lia).
  rewrite Hm, alarm_run. unfold ret.
  eexists. split; [reflexivity|]. split; [reflexivity|]. split; [|reflexivity].
  erewrite writes_cons by reflexivity.
  erewrite (writes_cons w) by reflexivity.
  rewrite !app_nil_r. reflexivity.
Qed.

(** X15: [renew] on a sector of the caller whose stamp is
    [lease_ms] milliseconds old or older returns minus [ETIMEDOUT],
    reports the stamp it read, writes nothing and leaves no alarm
    pending. *)
Theorem renew_expired (fd off : Z) (id : bytes) (ts : Z) (w : world)
    (st : io_step) (rest : list io_step) (n : Z) :
  alarm_at w = None -> device w = st :: rest ->
  io_res st = Transferred n -> Z.of_nat taglen <= n ->
  sameid (sector w off) id = true ->
  0 <= clock w + io_usec st < 2 ^ 63 ->
  - 2 ^ 62 <= lease_ms w <= 2 ^ 62 ->
  let stamp := snd (querytag (sector w off)) in
  lease_ms w <= (clock w + io_usec st) / 1000 - Z.quot stamp 1000 ->
  exists w',
    renew fd off id ts w = Ret (- ETIMEDOUT, stamp) w'
    /\ disk w' = disk w /\ writes w' = writes w /\ alarm_at w' = None.
Proof. apply renew_expired_run. Qed.

(** X16: whenever [renew] returns, whatever its result, no alarm is
    pending and its last call to [alarm] was [alarm(0)]. *)
Theorem renew_disarms (fd off : Z) (id : bytes) (ts : Z) (w : world)
    (res : Z * Z) (w' : world) :
  renew fd off id ts w = Ret res w' ->
  alarm_at w' = None /\ exists before, alarms w' = before ++ [0].
Proof.
  unfold renew, bind.
  destruct (readtag fd off _ 0 w) as [[r curr] w1 | s w1]; [|discriminate].
  cbn beta iota zeta.
  assert (Hend : forall (x : Z * Z) w2,
             (alarm 0 ;; ret x) w2 = Ret res w' ->
             alarm_at w' = None /\ exists before, alarms w' = before ++ [0]).
  { intros x w2 H. unfold bind, ret in H. rewrite alarm_run in H.
    inversion H; subst. split; [reflexivity|].
    eexists. erewrite alarms_cons by reflexivity. reflexivity. }
  destruct (r <? 0).
  { unfold get. apply Hend. }
  destruct (negb (sameid curr id)).
  { apply Hend. }
  rewrite timeleft_ms_at. cbn beta iota.
  destruct (_ <=? 0).
  { apply Hend. }
  rewrite alarm_run.
  destruct (writetimestamp _ _ _ _ _) as [[[r1 tag1] ts1] w3 | s w3];
    [|discriminate].
  cbn beta iota zeta.
  destruct (r1 <? 0); unfold get; apply Hend.
Qed.

Section RenewRun.

(** [writetimestamp] with a write of at least the tag, in time and not
    interrupted. *)
Lemma writetimestamp_run fd off id ts w st rest n :
  alarm_at w = None \/
  (exists t, alarm_at w = Some t /\ clock w + io_usec st < t) ->
  device w = st :: rest ->
  io_res st = Transferred n -> Z.of_nat taglen <= n ->
  in_time (op_max_ms w) (clock w) (io_usec st) ->
  let tag := buildtag id (clock w) in
  let buf := memcpy (iobuf w) tag taglen in
  writetimestamp fd off id ts w
  = Ret (0, tag, ts)
      (set_disk (write_at (disk w) off (firstn (clamp n 512) (firstn 512 buf)))
         (answered (EvPwrite fd (firstn 512 buf) off) st rest
            (set_iobuf buf w))).
Proof.
  intros Ha Hd Hr Hn Hin tag buf.
  destruct Hin as (Hc & Hd0 & Hcd & Hop & Hmax).
  unfold writetimestamp, bind. rewrite gettimeofday_at.
  cbn [tv_at tv_sec tv_usec].
  assert (E : clock w / 1000000 * 1000000 + clock w mod 1000000 = clock w)
    by (Z.div_mod_to_equations; lia).
  rewrite E.
  rewrite (s64_small (clock w))
    by (unfold in_s64; change (2 ^ 63) with 9223372036854775808 in *; lia).
  fold tag.
  assert (Hw : writetag fd off tag 1 w
               = Ret 0
                   (set_disk (write_at (disk w) off
                                (firstn (clamp n 512) (firstn 512 buf)))
                      (answered (EvPwrite fd (firstn 512 buf) off) st rest
                         (set_iobuf buf w)))).
  { destruct Ha as [Ha | [t [Ha Ht]]].
    - apply (writetag_run fd off tag 1 w st rest n Ha Hd Hr Hn).
      right. repeat split; assumption.
    - unfold writetag, bind, modify. rewrite gettimeofday_at.
      unfold pwrite, next_step. cbn [device log set_iobuf]. rewrite Hd.
      cbn beta iota zeta. unfold blocking.
      cbn [alarm_at set_device log set_iobuf clock]. rewrite Ha.
      assert (Hnf : (t <=? clock w + io_usec st) = false)
        by (apply Z.leb_gt; exact Ht).
      rewrite Hnf, Hr.
      assert (Hk : (Z.of_nat (clamp n 512) <? Z.of_nat taglen) = false).
      { apply Z.ltb_ge. unfold clamp. change taglen with 32%nat in *. lia. }
      cbn beta iota zeta. rewrite Hk. change (0 <? 0) with false.
      cbn beta iota. rewrite gettimeofday_at.
      change (1 =? 0) with false. cbn beta iota.
      cbn [clock set_iobuf answered set_clock set_disk set_device log].
      rewrite within_in_time by assumption.
      reflexivity. }
  rewrite Hw. reflexivity.
Qed.

End RenewRun.

Lemma renew_run (fd off : Z) (id : bytes) (ts : Z) (w : world)
    (st1 st2 : io_step) (rest : list io_step) (n1 n2 : Z) :
  alarm_at w = None -> device w = st1 :: st2 :: rest ->
  io_res st1 = Transferred n1 -> Z.of_nat taglen <= n1 ->
  io_res st2 = Transferred n2 -> Z.of_nat taglen <= n2 ->
  (length id <= idlen)%nat ->
  sameid (sector w off) id = true ->
  let stamp := snd (querytag (sector w off)) in
  let now := clock w + io_usec st1 in
  let msleft := msleft_at (lease_ms w) now stamp in
  let secs := u32 (Z.quot msleft 1000) in
  0 < msleft ->
  secs = 0 \/ io_usec st2 < secs * 1000000 ->
  in_time (op_max_ms w) now (io_usec st2) ->
  exists w',
    renew fd off id ts w = Ret (1, stamp) w'
    /\ firstn taglen (sector w' off) = buildtag id now
    /\ alarms w' = alarms w ++ [secs; 0]
    /\ length (writes w') = S (length (writes w))
    /\ alarm_at w' = None.
Proof.
  intros Ha Hd Hr1 Hn1 Hr2 Hn2 Hlen Hid stamp now msleft secs Hm Hsecs Hin.
  assert (Hk : (taglen <= clamp n1 512)%nat)
    by (unfold clamp; change taglen with 32%nat in *; lia).
  unfold renew, bind.
  rewrite (readtag_nolimit fd off _ w st1 (st2 :: rest) n1 Ha Hd Hr1)
    by (change taglen with 32%nat in Hn1; lia).
  cbn beta iota zeta.
  assert (Hr0 : (Z.of_nat (clamp n1 512) <? 0) = false)
    by (apply Z.ltb_ge; lia).
  rewrite Hr0.
  rewrite (sameid_firstn _ (sector w off)), Hid
    by (apply read_identity; change taglen with 32%nat in Hk;
        unfold idlen; lia).
  cbn [negb].
  rewrite (querytag_firstn _ (sector w off)) by (apply read_tag, Hk).
  fold stamp.
  rewrite timeleft_ms_at. cbn beta iota.
  cbn [lease_ms clock set_iobuf answered set_clock set_device log].
  fold now. fold msleft.
  assert (Hm0 : (msleft <=? 0) = false) by (apply Z.leb_gt; exact Hm).
  rewrite Hm0, alarm_run. fold secs.
  cbn [clock set_iobuf answered set_clock set_device log].
  fold now.
  erewrite (writetimestamp_run fd off id stamp _ st2 rest n2);
    [ | | reflexivity | exact Hr2 | exact Hn2 | exact Hin ].
  2:{ cbn [alarm_at clock log set_alarm set_iobuf answered set_clock].
      fold now.
      destruct (Z.eqb_spec secs 0) as [Hz | Hnz]; [left; reflexivity|].
      right. eexists. split; [reflexivity|].
      destruct Hsecs as [|Hlt]; [contradiction | lia]. }
  cbn beta iota zeta. change (0 <? 0) with false. cbn beta iota.
  rewrite alarm_run. unfold ret.
  eexists. split; [reflexivity|]. split; [|split; [|split; [|reflexivity]]].
  - unfold sector.
    cbn [disk clock log set_alarm set_iobuf answered set_clock set_disk
           set_device].
    fold now.
    rewrite sector_after_write.
    + apply firstn_all2. rewrite length_buildtag. apply Nat.le_refl.
    + unfold clamp. change taglen with 32%nat in *. lia.
    + rewrite length_buildtag. apply Nat.le_refl.
  - unfold alarms.
    cbn [trace log set_alarm set_iobuf answered set_clock set_disk set_device].
    cbn [rev]. rewrite !flat_map_app. cbn [flat_map app].
    rewrite !app_nil_r, <- !app_assoc. reflexivity.
  - unfold writes.
    cbn [trace log set_alarm set_iobuf answered set_clock set_disk set_device].
    cbn [rev]. rewrite !flat_map_app. cbn [flat_map app].
    rewrite !app_nil_r, length_app. cbn [length]. lia.
Qed.

(** X17: [renew] on a sector of the caller with time left, when the
    write of the new stamp stores the tag in time and before the alarm,
    returns 1, has armed the alarm for the whole seconds left and
    disarmed it, has written once, and leaves a tag with the caller's
    identity and the time of the write on the device; the stamp it
    reports is the one it read. *)
Theorem renew_in_time (fd off : Z) (id : bytes) (ts : Z) (w : world)
    (st1 st2 : io_step) (rest : list io_step) (n1 n2 : Z) :
  alarm_at w = None -> device w = st1 :: st2 :: rest ->
  io_res st1 = Transferred n1 -> Z.of_nat taglen <= n1 ->
  io_res st2 = Transferred n2 -> Z.of_nat taglen <= n2 ->
  (length id <= idlen)%nat ->
  sameid (sector w off) id = true ->
  let stamp := snd (querytag (sector w off)) in
  let now := clock w + io_usec st1 in
  let msleft := msleft_at (lease_ms w) now stamp in
  let secs := u32 (Z.quot msleft 1000) in
  0 < msleft ->
  secs = 0 \/ io_usec st2 < secs * 1000000 ->
  in_time (op_max_ms w) now (io_usec st2) ->
  exists w',
    renew fd off id ts w = Ret (1, stamp) w'
    /\ firstn taglen (sector w' off) = buildtag id now
    /\ alarms w' = alarms w ++ [secs; 0]
    /\ length (writes w') = S (length (writes w))
    /\ alarm_at w' = None.
Proof. apply renew_run. Qed.

(** X19: a forced [release] writes the sentinel without reading,
    whoever holds the sector, and returns 1; the sector is free
    afterwards. *)
Theorem release_force_frees (fd off : Z) (id : bytes) (force : Z) (w : world)
    (st : io_step) (rest : list io_step) (n : Z) :
  alarm_at w = None -> device w = st :: rest ->
  io_res st = Transferred n -> Z.of_nat taglen <= n ->
  force <> 0 ->
  exists w',
    release fd off id force w = Ret 1 w'
    /\ isfree (sector w' off) = true
    /\ trace w' = EvPwrite fd (firstn 512 (memcpy (iobuf w) freetag taglen)) off
                    :: trace w.
Proof.
  intros Ha Hd Hr Hn Hf.
  unfold release.
  destruct (Z.eqb_spec force 0) as [|_]; [contradiction|].
  unfold bind.
  rewrite (writetag_run fd off freetag 0 w st rest n Ha Hd Hr Hn)
    by (left; reflexivity).
  cbn zeta. change (0 <? 0) with false. unfold ret.
  eexists. split; [reflexivity|]. split; [|reflexivity].
  unfold isfree, sametag, memeq. apply bytes_eqb_eq.
  unfold sector. cbn [disk set_disk].
  apply sector_after_write.
  - unfold clamp. change taglen with 32%nat in *. lia.
  - apply Nat.le_refl.
Qed.

Lemma release_held_run (fd off : Z) (id : bytes) (w : world)
    (st1 st2 : io_step) (rest : list io_step) (n1 n2 : Z) :
  alarm_at w = None -> device w = st1 :: st2 :: rest ->
  io_res st1 = Transferred n1 -> Z.of_nat idlen <= n1 ->
  io_res st2 = Transferred n2 -> Z.of_nat taglen <= n2 ->
  sameid (sector w off) id = true ->
  exists w',
    release fd off id 0 w = Ret 1 w'
    /\ isfree (sector w' off) = true
    /\ length (writes w') = S (length (writes w)).
Proof.
  intros Ha Hd Hr1 Hn1 Hr2 Hn2 Hid.
  unfold release. cbn [Z.eqb]. unfold bind.
  rewrite (readtag_nolimit fd off _ w st1 (st2 :: rest) n1 Ha Hd Hr1)
    by (unfold idlen in Hn1; lia).
  cbn beta iota zeta.
  assert (Hr0 : (Z.of_nat (clamp n1 512) <? 0) = false)
    by (apply Z.ltb_ge; lia).
  rewrite Hr0.
  rewrite (sameid_firstn _ (sector w off)), Hid
    by (apply read_identity; unfold clamp, idlen in *; lia).
  cbn [negb].
  erewrite (writetag_run fd off freetag 0 _ st2 rest n2);
    [ | exact Ha | reflexivity | exact Hr2 | exact Hn2 | left; reflexivity ].
  cbn zeta. change (0 <? 0) with false. unfold ret.
  eexists. split; [reflexivity|]. split.
  - unfold isfree, sametag, memeq. apply bytes_eqb_eq.
    unfold sector. cbn [disk set_disk].
    apply sector_after_write.
    + unfold clamp. change taglen with 32%nat in *. lia.
    + apply Nat.le_refl.
  - erewrite writes_cons by reflexivity.
    erewrite (writes_cons w) by reflexivity.
    rewrite app_nil_r, length_app. cbn [length]. lia.
Qed.

(** X20: [release] without force on a sector of the caller reads
    it, writes the sentinel once and returns 1; the sector is free
    afterwards. *)
Theorem release_held_frees (fd off : Z) (id : bytes) (w : world)
    (st1 st2 : io_step) (rest : list io_step) (n1 n2 : Z) :
  alarm_at w = None -> device w = st1 :: st2 :: rest ->
  io_res st1 = Transferred n1 -> Z.of_nat idlen <= n1 ->
  io_res st2 = Transferred n2 -> Z.of_nat taglen <= n2 ->
  sameid (sector w off) id = true ->
  exists w',
    release fd off id 0 w = Ret 1 w'
    /\ isfree (sector w' off) = true
    /\ length (writes w') = S (length (writes w)).
Proof.
  exact (release_held_run fd off id w st1 st2 rest n1 n2).
Qed.

(** *** Identities that differ in trailing spaces, in renew and release *)

(** C10: identities of at most 16 bytes that differ only in trailing
    spaces are the same to [sameid]: a tag built from one matches the
    other, whatever the timestamp.  So [renew] called with one on a
    sector written under the other takes the sector for its own and,
    with time left on the lease and the write in time, returns 1 and
    writes its stamp; [release] without force called with one frees a
    sector written under the other and returns 1; and on every state
    [renew] and [release] called with one do exactly what they do when
    called with the other. *)
Theorem sameid_trailing_spaces (i j : bytes) (ts : Z) :
  (length i <= idlen)%nat -> (length j <= idlen)%nat ->
  rstrip i = rstrip j ->
  sameid (buildtag i ts) j = true
  /\ (forall fd off ts0 w st1 st2 rest n1 n2,
        alarm_at w = None -> device w = st1 :: st2 :: rest ->
        io_res st1 = Transferred n1 -> Z.of_nat taglen <= n1 ->
        io_res st2 = Transferred n2 -> Z.of_nat taglen <= n2 ->
        firstn taglen (sector w off) = buildtag i ts ->
        let stamp := snd (querytag (buildtag i ts)) in
        let now := clock w + io_usec st1 in
        let msleft := msleft_at (lease_ms w) now stamp in
        let secs := u32 (Z.quot msleft 1000) in
        0 < msleft ->
        secs = 0 \/ io_usec st2 < secs * 1000000 ->
        in_time (op_max_ms w) now (io_usec st2) ->
        exists w',
          renew fd off j ts0 w = Ret (1, stamp) w'
          /\ firstn taglen (sector w' off) = buildtag i now)
  /\ (forall fd off w st1 st2 rest n1 n2,
        alarm_at w = None -> device w = st1 :: st2 :: rest ->
        io_res st1 = Transferred n1 -> Z.of_nat idlen <= n1 ->
        io_res st2 = Transferred n2 -> Z.of_nat taglen <= n2 ->
        firstn taglen (sector w off) = buildtag i ts ->
        exists w',
          release fd off j 0 w = Ret 1 w'
          /\ isfree (sector w' off) = true)
  /\ (forall fd off ts0 w, renew fd off j ts0 w = renew fd off i ts0 w)
  /\ (forall fd off force w,
        release fd off j force w = release fd off i force w).
Proof.
  intros Hi Hj Hr.
  pose proof (fmt_ls_rstrip i j Hi Hj Hr) as Hp.
  assert (Hsame : sameid (buildtag i ts) j = true).
  { apply sameid_spec. rewrite buildtag_identity by exact Hi.
    rewrite Hp. symmetry. apply firstn_all2.
    rewrite LibcFacts.length_fmt_ls by exact Hj. reflexivity. }
  assert (Hsec : forall w off,
             firstn taglen (sector w off) = buildtag i ts ->
             sameid (sector w off) j = true).
  { intros w off E. rewrite <- Hsame, <- E. apply sameid_firstn.
    rewrite firstn_firstn. reflexivity. }
  split; [exact Hsame|]. split; [|split; [|split]].
  - intros fd off ts0 w st1 st2 rest n1 n2 Ha Hd Hr1 Hn1 Hr2 Hn2 E
           stamp now msleft secs Hm Hs Hin.
    assert (Hq : snd (querytag (sector w off)) = stamp).
    { unfold stamp. f_equal. apply querytag_firstn. rewrite E.
      symmetry. apply firstn_all2. rewrite length_buildtag.
      apply Nat.le_refl. }
    destruct (renew_run fd off j ts0 w st1 st2 rest n1 n2 Ha Hd Hr1 Hn1
                Hr2 Hn2 Hj (Hsec w off E)) as (w' & Hrun & Htag & _).
    + rewrite Hq. exact Hm.
    + rewrite Hq. exact Hs.
    + exact Hin.
    + exists w'. rewrite Hq in Hrun. split; [exact Hrun|].
      rewrite Htag. symmetry. apply buildtag_padded, Hp.
  - intros fd off w st1 st2 rest n1 n2 Ha Hd Hr1 Hn1 Hr2 Hn2 E.
    destruct (release_held_run fd off j w st1 st2 rest n1 n2 Ha Hd Hr1 Hn1
                Hr2 Hn2 (Hsec w off E)) as (w' & Hrun & Hfree & _).
    exists w'. split; assumption.
  - intros. symmetry. apply renew_padded, Hp.
  - intros. symmetry. apply release_padded, Hp.
Qed.

Lemma sameid_trailing_spaces_witness :
  sameid (buildtag (lit "node1") t0) (lit "node1   ") = true
  /\ (exists w',
        renew 3 0 (lit "node1   ") 7 on_sector_of_node1 = Ret (1, t0) w'
        /\ firstn taglen (sector w' 0)
           = buildtag (lit "node1") (t0 + 30001000))
  /\ (exists w',
        release 3 0 (lit "node1   ") 0 on_sector_of_node1 = Ret 1 w'
        /\ isfree (sector w' 0) = true).
Proof.
  destruct (sameid_trailing_spaces (lit "node1") (lit "node1   ") t0)
    as (Hs & Hrenew & Hrelease & _).
  - vm_compute. lia.
  - vm_compute. lia.
  - reflexivity.
  - split; [exact Hs|]. split.
    + apply (Hrenew 3 0 7 on_sector_of_node1 (transfer 512 1000)
               (transfer 512 1000) [] 512 512);
        first
          [ solve [vm_compute;
                   repeat first [discriminate | reflexivity | lia | split]]
          | right;
            solve [vm_compute;
                   repeat first [discriminate | reflexivity | lia | split]] ].
    + apply (Hrelease 3 0 on_sector_of_node1 (transfer 512 1000)
               (transfer 512 1000) [] 512 512);
        solve [vm_compute;
               repeat first [discriminate | reflexivity | lia | split]].
Defined.

(** X21: [release] without force whose read fails returns minus the
    error number and writes nothing. *)
Theorem release_read_fails (fd off : Z) (id : bytes) (w : world)
    (st : io_step) (rest : list io_step) (e : Z) :
  alarm_at w = None -> device w = st :: rest ->
  io_res st = Failed e ->
  exists w',
    release fd off id 0 w = Ret (- e) w'
    /\ disk w' = disk w /\ writes w' = writes w.
Proof.
  intros Ha Hd Hr.
  unfold release. cbn [Z.eqb]. unfold bind, readtag, bind.
  rewrite gettimeofday_at, (pread_step _ _ _ _ _ _ Ha Hd), Hr.
  cbn beta iota zeta. rewrite gettimeofday_at.
  change (-1 <=? 0) with true. cbn beta iota. unfold ret.
  change (-1 <? 0) with true. cbn beta iota. unfold get.
  eexists. split; [reflexivity|]. split; [reflexivity|].
  erewrite writes_cons by reflexivity. apply app_nil_r.
Qed.

(** X22: [query] never writes: however it ends, the device is as it
    was and no [pwrite] has been issued. *)
Theorem query_reads_only (fd off : Z) (w : world) :
  disk (final (query fd off w)) = disk w
  /\ writes (final (query fd off w)) = writes w.
Proof.
  unfold query, bind.
  pose proof (readtag_frame fd off (fresh (taglen + 1)) 0 w) as [Hdisk Htr].
  destruct (readtag fd off _ 0 w) as [[r curr] w1 | s w1];
    cbn [final] in Hdisk, Htr.
  - cbn beta iota zeta.
    destruct (r <? 0).
    + unfold get, ret. cbn [final]. split; [exact Hdisk|].
      erewrite writes_cons by exact Htr. apply app_nil_r.
    + destruct (querytag curr) as [id ts]. unfold modify, ret. cbn [final].
      split; [exact Hdisk|].
      erewrite writes_cons by reflexivity.
      erewrite (writes_cons w) by exact Htr.
      rewrite !app_nil_r. reflexivity.
  - cbn [final]. split; [exact Hdisk|].
    erewrite writes_cons by exact Htr. apply app_nil_r.
Qed.

Section QueryLine.
Import Libc LibcFacts.

Lemma cstr_no_nul (l : bytes) :
  Forall (fun c => c <> NUL) l -> cstr l = l.
Proof.
  induction 1 as [|c l Hc _ IH]; [reflexivity|]. simpl.
  destruct (Ascii.eqb_spec c NUL); [contradiction|]. rewrite IH. reflexivity.
Qed.

Lemma fmt_ls_no_nul (id : bytes) :
  Forall (fun c => c <> NUL) id ->
  Forall (fun c => c <> NUL) (fmt_ls idlen id).
Proof.
  intros H. unfold fmt_ls. apply Forall_app. split; [exact H|].
  apply Forall_forall. intros c Hc. apply repeat_spec in Hc. subst c.
  discriminate.
Qed.

Lemma fmt_ls_idem (id : bytes) :
  (length id <= idlen)%nat -> fmt_ls idlen (fmt_ls idlen id) = fmt_ls idlen id.
Proof.
  intros H. unfold fmt_ls at 1. rewrite length_fmt_ls by exact H.
  rewrite Nat.sub_diag. apply app_nil_r.
Qed.

End QueryLine.

(** X23: [query] on a sector that holds the tag built for a valid
    identity and a 64-bit timestamp returns 1 and prints LOCKED, the
    padded identity, the 16 hexadecimal digits of the stamp, and the
    stamp split into seconds and microseconds. *)
Theorem query_prints_fields (fd off : Z) (id : bytes) (ts : Z) (w : world)
    (st : io_step) (rest : list io_step) (n : Z) :
  alarm_at w = None -> device w = st :: rest ->
  io_res st = Transferred n -> Z.of_nat taglen <= n ->
  validate_id_ok id = true -> Forall (fun c => c <> NUL) id -> in_s64 ts ->
  firstn taglen (sector w off) = buildtag id ts ->
  exists w',
    query fd off w = Ret 1 w'
    /\ trace w'
       = EvPrintf (lit "LOCKED") (Libc.fmt_ls idlen id)
           (Libc.hexdigits stamplen (u64 ts))
           (Z.quot ts 1000000) (Z.rem ts 1000000)
           :: EvPread fd off :: trace w.
Proof.
  intros Ha Hd Hr Hn Hv Hnul Hts Hsec.
  pose proof (proj1 (validate_id_ok_iff id) Hv) as [Hlen Hne].
  assert (Hk : (taglen <= clamp n 512)%nat)
    by (unfold clamp; change taglen with 32%nat in *; lia).
  unfold query, bind.
  rewrite (readtag_nolimit fd off _ w st rest n Ha Hd Hr)
    by (change taglen with 32%nat in Hn; lia).
  cbn beta iota zeta.
  assert (Hr0 : (Z.of_nat (clamp n 512) <? 0) = false)
    by (apply Z.ltb_ge; lia).
  rewrite Hr0.
  match goal with
  | |- context [querytag ?c] => set (curr := c)
  end.
  assert (Hcurr : firstn taglen curr = firstn taglen (buildtag id ts)).
  { unfold curr. rewrite read_tag by exact Hk. fold (sector w off).
    rewrite Hsec. symmetry. apply firstn_all2.
    rewrite length_buildtag. apply Nat.le_refl. }
  rewrite (querytag_firstn curr (buildtag id ts) Hcurr).
  rewrite querytag_of_buildtag by assumption.
  assert (Hstate : query_state curr = lit "LOCKED").
  { apply (proj2 (query_state_cases curr)).
    replace (firstn idlen curr) with (firstn idlen (firstn taglen curr))
      by (rewrite firstn_firstn; reflexivity).
    rewrite Hcurr, firstn_firstn. change (Nat.min idlen taglen) with idlen.
    rewrite buildtag_identity by exact Hlen.
    intros E. apply Hne. apply (fmt_ls_prefix id Hlen E). }
  rewrite Hstate.
  rewrite cstr_no_nul by (apply fmt_ls_no_nul, Hnul).
  rewrite fmt_ls_idem by exact Hlen.
  rewrite LibcFacts.fmt_0llx_16 by apply u64_range.
  unfold modify, ret. eexists. split; reflexivity.
Qed.

Section AcquireFacts.

Lemma usleep_run us w :
  alarm_at w = None ->
  usleep us w
  = Ret tt (set_clock (clock w + u32 us) (log (EvUsleep (u32 us)) w)).
Proof.
  intros Ha. unfold usleep, bind, modify, sleeping.
  cbn [alarm_at log]. rewrite Ha. reflexivity.
Qed.

Lemma sametag_firstn a b c :
  firstn taglen a = firstn taglen b -> sametag a c = sametag b c.
Proof. intros H. unfold sametag, memeq. rewrite H. reflexivity. Qed.

Lemma isfree_firstn a b :
  firstn taglen a = firstn taglen b -> isfree a = isfree b.
Proof. apply sametag_firstn. Qed.

(** One-shot: the inner loop runs once, whatever the bound. *)
Lemma backoff_oneshot fuel fd off bu curr last w :
  backoff (S fuel) fd off 0 bu curr last w = backoff 1 fd off 0 bu curr last w.
Proof. reflexivity. Qed.

Lemma backoff_oneshot_some fd off bu curr last w w' :
  backoff 1 fd off 0 bu curr last w <> Ret None w'.
Proof.
  cbn [backoff]. unfold bind.
  destruct (usleep bu w) as [u w1 | s w1]; [|discriminate].
  destruct (readtag fd off curr 1 w1) as [[r c] w2 | s w2]; [|discriminate].
  cbn beta iota zeta.
  destruct (r <? 0); unfold get, ret; discriminate.
Qed.

Lemma contend_oneshot fuel fd off id bu cu curr last ts w :
  contend (S fuel) fd off id 0 bu cu curr last ts w
  = contend 1 fd off id 0 bu cu curr last ts w.
Proof. reflexivity. Qed.

Lemma contend_oneshot_some fd off id bu cu curr last ts w w' :
  contend 1 fd off id 0 bu cu curr last ts w <> Ret None w'.
Proof.
  cbn [contend]. unfold bind.
  assert (Hw : forall w0 w1,
             (if negb (sametag curr last) && negb (isfree curr)
              then backoff 1 fd off 0 bu curr last
              else ret (Some (Go (curr, last)))) w0 <> Ret None w1).
  { intros w0 w1. destruct (negb (sametag curr last) && negb (isfree curr)).
    - apply backoff_oneshot_some.
    - unfold ret. discriminate. }
  destruct ((if negb (sametag curr last) && negb (isfree curr)
             then backoff 1 fd off 0 bu curr last
             else ret (Some (Go (curr, last)))) w)
    as [[[rc | [c l]] | ] w1 | s w1] eqn:E.
  - unfold ret. discriminate.
  - destruct (negb (sametag c l) && negb (isfree c)); [unfold ret; discriminate|].
    destruct (writetimestamp fd off id ts w1) as [[[r tag] ts1] w2 | s w2];
      [|discriminate].
    cbn beta iota zeta.
    destruct (r <? 0); [unfold get, ret; discriminate|].
    destruct (usleep cu w2) as [u w3 | s w3]; [|discriminate].
    destruct (readtag fd off c 1 w3) as [[r3 c3] w4 | s w4]; [|discriminate].
    cbn beta iota zeta.
    destruct (r3 <? 0); unfold get, ret; discriminate.
  - exfalso. exact (Hw w w1 E).
  - discriminate.
Qed.

End AcquireFacts.

(** X24: without [busyloop] each loop of [acquire] runs once: a
    bound of one on the loops is enough, a larger one changes nothing,
    and the bound is never what ends the run. *)
Theorem acquire_oneshot_ends (fuel : nat) (fd off : Z) (id : bytes) (ts : Z)
    (w : world) :
  acquire (S fuel) fd off id 0 ts w = acquire 1 fd off id 0 ts w
  /\ forall w', acquire 1 fd off id 0 ts w <> Ret None w'.
Proof.
  split; [reflexivity|].
  intros w'. unfold acquire, bind, get.
  destruct (readtag fd off _ 1 w) as [[r curr] w1 | s w1]; [|discriminate].
  cbn beta iota zeta.
  destruct (r <? 0); [unfold ret; discriminate|].
  match goal with
  | |- context [contend 1 ?a ?b ?c 0 ?d ?e ?f ?g ?h ?x] =>
      pose proof (contend_oneshot_some a b c d e f g h x) as Hc;
      destruct (contend 1 a b c 0 d e f g h x)
        as [[[[rc | [c3 tag]] ts1] | ] w2 | s w2]
  end.
  - unfold ret. discriminate.
  - change (negb (0 =? 0)) with false. cbn [orb].
    destruct (sametag c3 tag); [|unfold ret; discriminate].
    destruct (renew fd off id _ w2) as [res w3 | s w3]; [|discriminate].
    unfold ret. discriminate.
  - exfalso. exact (Hc w2 eq_refl).
  - discriminate.
Qed.

(** X25: [acquire] whose first read fails returns minus the error
    number, leaves [*ts] as it was and writes nothing. *)
Theorem acquire_read_fails (fuel : nat) (fd off : Z) (id : bytes)
    (busyloop ts : Z) (w : world) (st : io_step) (rest : list io_step)
    (e : Z) :
  alarm_at w = None -> device w = st :: rest -> io_res st = Failed e ->
  exists w',
    acquire fuel fd off id busyloop ts w = Ret (Some (- e, ts)) w'
    /\ disk w' = disk w /\ writes w' = writes w.
Proof.
  intros Ha Hd Hr.
  unfold acquire, bind, get, readtag, bind.
  rewrite gettimeofday_at, (pread_step _ _ _ _ _ _ Ha Hd), Hr.
  cbn beta iota zeta. rewrite gettimeofday_at.
  change (-1 <=? 0) with true. cbn beta iota. unfold ret.
  change (-1 <? 0) with true. cbn beta iota.
  eexists. split; [reflexivity|]. split; [reflexivity|].
  erewrite writes_cons by reflexivity. apply app_nil_r.
Qed.

Section AcquireAlone.

Variables (fd off : Z) (id : bytes) (busyloop ts : Z) (fuel : nat).
Variables (w : world) (s1 s2 s3 : io_step) (rest : list io_step).
Variables (n1 n2 n3 : Z).

Let c1 := clock w + io_usec s1.
Let c2 := c1 + io_usec s2.
Let c3 := c2 + u32 (2 * op_max_ms w * 1000).
Let c4 := c3 + io_usec s3.

Hypothesis Ha : alarm_at w = None.
Hypothesis Hd : device w = s1 :: s2 :: s3 :: rest.
Hypothesis Hr1 : io_res s1 = Transferred n1.
Hypothesis Hr2 : io_res s2 = Transferred n2.
Hypothesis Hr3 : io_res s3 = Transferred n3.
Hypothesis Hn1 : Z.of_nat taglen <= n1.
Hypothesis Hn2 : Z.of_nat taglen <= n2.
Hypothesis Hn3 : Z.of_nat taglen <= n3.
Hypothesis Hfree : isfree (sector w off) = true.
Hypothesis Hlen : (length id <= idlen)%nat.
Hypothesis Ht1 : in_time (op_max_ms w) (clock w) (io_usec s1).
Hypothesis Ht2 : in_time (op_max_ms w) c1 (io_usec s2).
Hypothesis Ht3 : in_time (op_max_ms w) c3 (io_usec s3).

(** Alone on a free sector, [acquire] reads it, writes its stamp,
    sleeps the contention window, reads its own tag back and goes on to
    [renew]. *)
Lemma acquire_alone_reaches_renew :
  exists w4,
    acquire (S fuel) fd off id busyloop ts w
    = (res <- renew fd off id c1 ;; ret (Some res)) w4
    /\ alarm_at w4 = None /\ device w4 = rest /\ clock w4 = c4
    /\ lease_ms w4 = lease_ms w /\ op_max_ms w4 = op_max_ms w
    /\ firstn taglen (sector w4 off) = buildtag id c1
    /\ length (writes w4) = S (length (writes w))
    /\ alarms w4 = alarms w.
Proof.
  assert (Hk1 : (taglen <= clamp n1 512)%nat)
    by (unfold clamp; change taglen with 32%nat in *; lia).
  assert (Hk2 : (taglen <= clamp n2 512)%nat)
    by (unfold clamp; change taglen with 32%nat in *; lia).
  assert (Hk3 : (taglen <= clamp n3 512)%nat)
    by (unfold clamp; change taglen with 32%nat in *; lia).
  assert (Hc1 : in_s64 c1).
  { destruct Ht1 as (? & ? & ? & ? & ?). unfold in_s64, c1.
    change (2 ^ 63) with 9223372036854775808 in *. lia. }
  unfold acquire, bind, get.
  rewrite (readtag_run fd off _ 1 w s1 (s2 :: s3 :: rest) n1 Ha Hd Hr1)
    by (right; exact Ht1) || (change taglen with 32%nat in Hn1; lia).
  cbn beta iota zeta.
  assert (Hr0 : (Z.of_nat (clamp n1 512) <? 0) = false)
    by (apply Z.ltb_ge; lia).
  rewrite Hr0.
  set (w1 := set_iobuf _ (answered (EvPread fd off) s1 _ w)).
  set (curr1 := memcpy (fresh (taglen + 1)) _ taglen).
  set (last0 := settag (fresh (taglen + 1)) freetag).
  assert (Hf1 : isfree curr1 = true).
  { rewrite <- Hfree. apply isfree_firstn. unfold curr1.
    rewrite read_tag by exact Hk1. reflexivity. }
  cbn [contend]. rewrite Hf1. cbn [negb andb]. rewrite andb_false_r.
  unfold bind at 1. unfold ret at 1. cbn beta iota zeta.
  rewrite Hf1, andb_false_r.
  unfold bind at 1.
  rewrite (writetimestamp_run fd off id ts w1 s2 (s3 :: rest) n2);
    [ | left; exact Ha | reflexivity | exact Hr2 | exact Hn2 | exact Ht2 ].
  cbn beta iota zeta. change (0 <? 0) with false. cbn beta iota.
  change (clock w1) with c1.
  set (w2 := set_disk _ (answered (EvPwrite fd _ off) s2 _ _)).
  unfold bind at 1.
  rewrite (usleep_run _ w2) by exact Ha.
  set (w3 := set_clock _ (log (EvUsleep _) w2)).
  unfold bind at 1.
  rewrite (readtag_run fd off curr1 1 w3 s3 rest n3);
    [ | exact Ha | reflexivity | exact Hr3
      | change taglen with 32%nat in Hn3; lia | right; exact Ht3 ].
  cbn beta iota zeta.
  assert (Hr3' : (Z.of_nat (clamp n3 512) <? 0) = false)
    by (apply Z.ltb_ge; lia).
  rewrite Hr3'.
  match goal with
  | |- context [sametag ?c (buildtag id c1)] => set (curr3 := c)
  end.
  assert (Hcurr3 : firstn taglen curr3 = firstn taglen (buildtag id c1)).
  { unfold curr3. rewrite read_tag by exact Hk3.
    unfold w3, w2.
    cbn [disk set_clock log set_disk answered set_device set_iobuf].
    apply sector_after_write; [exact Hk2|].
    rewrite length_buildtag. apply Nat.le_refl. }
  assert (Hsame : sametag curr3 (buildtag id c1) = true).
  { unfold sametag, memeq. apply bytes_eqb_eq. exact Hcurr3. }
  rewrite Hsame. cbn [negb]. rewrite andb_false_r.
  unfold ret at 1. cbn beta iota zeta.
  rewrite Hsame, orb_true_r.
  rewrite (querytag_firstn curr3 (buildtag id c1) Hcurr3).
  rewrite querytag_of_buildtag by assumption.
  cbn [snd].
  eexists. split; [reflexivity|].
  split; [exact Ha|]. split; [reflexivity|]. split; [reflexivity|].
  split; [reflexivity|]. split; [reflexivity|]. split; [|split].
  - unfold sector, w3, w2.
    cbn [disk set_clock log set_disk answered set_device set_iobuf].
    rewrite sector_after_write; [|exact Hk2|].
    + apply firstn_all2. rewrite length_buildtag. apply Nat.le_refl.
    + rewrite length_buildtag. apply Nat.le_refl.
  - unfold writes, w3, w2, w1.
    cbn [trace set_clock log set_disk answered set_device set_iobuf].
    cbn [rev]. rewrite !flat_map_app. cbn [flat_map app].
    rewrite !app_nil_r, length_app. cbn [length]. lia.
  - unfold alarms, w3, w2, w1.
    cbn [trace set_clock log set_disk answered set_device set_iobuf].
    cbn [rev]. rewrite !flat_map_app. cbn [flat_map app].
    rewrite !app_nil_r. reflexivity.
Qed.

Variables (s4 : io_step) (rest4 : list io_step) (n4 : Z).

Let c5 := c4 + io_usec s4.

Hypothesis Hrest : rest = s4 :: rest4.
Hypothesis Hr4 : io_res s4 = Transferred n4.
Hypothesis Hn4 : Z.of_nat taglen <= n4.

Lemma own_tag_read (w4 : world) :
  firstn taglen (sector w4 off) = buildtag id c1 ->
  in_s64 c1 ->
  sameid (sector w4 off) id = true
  /\ snd (querytag (sector w4 off)) = c1.
Proof.
  intros Hsec Hc1. split.
  - apply sameid_spec.
    replace (firstn idlen (sector w4 off))
      with (firstn idlen (firstn taglen (sector w4 off)))
      by (rewrite firstn_firstn; reflexivity).
    rewrite Hsec, buildtag_identity by exact Hlen.
    symmetry. apply firstn_all2.
    rewrite LibcFacts.length_fmt_ls by exact Hlen. apply Nat.le_refl.
  - rewrite (querytag_firstn (sector w4 off) (buildtag id c1)).
    + rewrite querytag_of_buildtag by assumption. reflexivity.
    + rewrite Hsec. symmetry. apply firstn_all2.
      rewrite length_buildtag. apply Nat.le_refl.
Qed.

Lemma c1_in_s64 : in_s64 c1.
Proof.
  destruct Ht1 as (? & ? & ? & ? & ?). unfold in_s64, c1.
  change (2 ^ 63) with 9223372036854775808 in *. lia.
Qed.

Section Wins.

Variables (s5 : io_step) (rest5 : list io_step) (n5 : Z).

Hypothesis Hrest4 : rest4 = s5 :: rest5.
Hypothesis Hr5 : io_res s5 = Transferred n5.
Hypothesis Hn5 : Z.of_nat taglen <= n5.

Let msleft := msleft_at (lease_ms w) c5 c1.
Let secs := u32 (Z.quot msleft 1000).

Hypothesis Hm : 0 < msleft.
Hypothesis Hsecs : secs = 0 \/ io_usec s5 < secs * 1000000.
Hypothesis Ht5 : in_time (op_max_ms w) c5 (io_usec s5).

Lemma acquire_alone_wins_run :
  exists w',
    acquire (S fuel) fd off id busyloop ts w = Ret (Some (1, c1)) w'
    /\ firstn taglen (sector w' off) = buildtag id c5
    /\ length (writes w') = (2 + length (writes w))%nat
    /\ alarm_at w' = None.
Proof.
  destruct acquire_alone_reaches_renew
    as (w4 & Hrun & Ha4 & Hd4 & Hc4 & Hl4 & Ho4 & Hsec & Hw4 & Hal4).
  destruct (own_tag_read w4 Hsec c1_in_s64) as [Hid Hst].
  rewrite Hrest, Hrest4 in Hd4.
  destruct (renew_run fd off id c1 w4 s4 s5 rest5 n4 n5 Ha4 Hd4 Hr4 Hn4 Hr5 Hn5
              Hlen Hid) as (w' & Hren & Hsec' & Hal & Hwr & Ha').
  - rewrite Hst, Hl4, Hc4. exact Hm.
  - rewrite Hst, Hl4, Hc4. exact Hsecs.
  - rewrite Ho4, Hc4. exact Ht5.
  - exists w'. rewrite Hrun. unfold bind. rewrite Hren.
    rewrite Hst. split; [reflexivity|].
    rewrite Hc4 in Hsec'. split; [exact Hsec'|]. split; [|exact Ha'].
    lia.
Qed.

End Wins.

Section TimesOut.

Hypothesis Hshort : - 2 ^ 62 <= lease_ms w <= 2 * op_max_ms w.
Hypothesis Hop32 : 0 <= 2 * op_max_ms w * 1000 < 2 ^ 32.
Hypothesis Hd4 : 0 <= io_usec s4.
Hypothesis Hc5 : c5 < 2 ^ 63.

Lemma acquire_short_lease_run :
  exists w',
    acquire (S fuel) fd off id busyloop ts w
    = Ret (Some (- ETIMEDOUT, c1)) w'
    /\ firstn taglen (sector w' off) = buildtag id c1
    /\ length (writes w') = S (length (writes w)).
Proof.
  destruct acquire_alone_reaches_renew
    as (w4 & Hrun & Ha4 & Hdev4 & Hc4 & Hl4 & Ho4 & Hsec & Hw4 & Hal4).
  destruct (own_tag_read w4 Hsec c1_in_s64) as [Hid Hst].
  rewrite Hrest in Hdev4.
  destruct Ht1 as (Hc0 & Hd1 & _ & _ & _).
  destruct Ht2 as (_ & Hd2 & _ & _ & _).
  destruct Ht3 as (_ & Hd3 & _ & _ & _).
  assert (Hu : u32 (2 * op_max_ms w * 1000) = 2 * op_max_ms w * 1000)
    by (apply Z.mod_small; exact Hop32).
  assert (Hc15 : c1 + 2 * op_max_ms w * 1000 <= c5)
    by (unfold c5, c4, c3, c2; rewrite Hu; lia).
  assert (Hc1pos : 0 <= c1) by (unfold c1; lia).
  destruct (renew_expired_run fd off id c1 w4 s4 rest4 n4
              Ha4 Hdev4 Hr4 Hn4 Hid)
    as (w' & Hren & Hdisk & Hwr & Ha').
  - rewrite Hc4. fold c5. change (2 ^ 63) with 9223372036854775808 in *. lia.
  - rewrite Hl4. change (2 ^ 62) with 4611686018427387904 in *.
    change (2 ^ 32) with 4294967296 in *. lia.
  - rewrite Hst, Hl4, Hc4. fold c5.
    rewrite Z.quot_div_nonneg by lia.
    Z.div_mod_to_equations. lia.
  - exists w'. rewrite Hrun. unfold bind. rewrite Hren, Hst.
    split; [reflexivity|]. split.
    + unfold sector in *. rewrite Hdisk. exact Hsec.
    + rewrite Hwr. exact Hw4.
Qed.

End TimesOut.

End AcquireAlone.


(** X26: alone on a free sector, with every transfer complete and
    in time and the lease longer than the contention window, [acquire]
    (busy or not) returns 1 after two writes; [*ts] is the time of its
    first write and the sector carries the caller's tag with the time of
    the renewal. *)
Theorem acquire_alone_wins (fuel : nat) (fd off : Z) (id : bytes)
    (busyloop ts : Z) (w : world) (s1 s2 s3 s4 s5 : io_step)
    (rest : list io_step) (n1 n2 n3 n4 n5 : Z) :
  alarm_at w = None -> device w = s1 :: s2 :: s3 :: s4 :: s5 :: rest ->
  io_res s1 = Transferred n1 -> Z.of_nat taglen <= n1 ->
  io_res s2 = Transferred n2 -> Z.of_nat taglen <= n2 ->
  io_res s3 = Transferred n3 -> Z.of_nat taglen <= n3 ->
  io_res s4 = Transferred n4 -> Z.of_nat taglen <= n4 ->
  io_res s5 = Transferred n5 -> Z.of_nat taglen <= n5 ->
  isfree (sector w off) = true -> (length id <= idlen)%nat ->
  let c1 := clock w + io_usec s1 in
  let c2 := c1 + io_usec s2 in
  let c3 := c2 + u32 (2 * op_max_ms w * 1000) in
  let c4 := c3 + io_usec s3 in
  let c5 := c4 + io_usec s4 in
  in_time (op_max_ms w) (clock w) (io_usec s1) ->
  in_time (op_max_ms w) c1 (io_usec s2) ->
  in_time (op_max_ms w) c3 (io_usec s3) ->
  in_time (op_max_ms w) c5 (io_usec s5) ->
  let msleft := msleft_at (lease_ms w) c5 c1 in
  let secs := u32 (Z.quot msleft 1000) in
  0 < msleft -> secs = 0 \/ io_usec s5 < secs * 1000000 ->
  exists w',
    acquire (S fuel) fd off id busyloop ts w = Ret (Some (1, c1)) w'
    /\ firstn taglen (sector w' off) = buildtag id c5
    /\ length (writes w') = (2 + length (writes w))%nat
    /\ alarm_at w' = None.
Proof.
  intros Ha Hd Hr1 Hn1 Hr2 Hn2 Hr3 Hn3 Hr4 Hn4 Hr5 Hn5 Hfree Hlen
    c1 c2 c3 c4 c5 Ht1 Ht2 Ht3 Ht5 msleft secs Hm Hsecs.
  exact (acquire_alone_wins_run fd off id busyloop ts fuel w s1 s2 s3
           (s4 :: s5 :: rest) n1 n2 n3 Ha Hd Hr1 Hr2 Hr3 Hn1 Hn2 Hn3 Hfree
           Hlen Ht1 Ht2 Ht3 s4 (s5 :: rest) n4 eq_refl Hr4 Hn4
           s5 rest n5 eq_refl Hr5 Hn5 Hm Hsecs Ht5).
Qed.

(** X27: alone on a free sector, with a lease of at most twice
    [op_max_ms] (the length of the contention window), [acquire] writes
    its tag, finds the lease expired when it comes to renew, and returns
    minus [ETIMEDOUT]; the sector keeps the caller's tag. *)
Theorem acquire_short_lease_times_out (fuel : nat) (fd off : Z) (id : bytes)
    (busyloop ts : Z) (w : world) (s1 s2 s3 s4 : io_step)
    (rest : list io_step) (n1 n2 n3 n4 : Z) :
  alarm_at w = None -> device w = s1 :: s2 :: s3 :: s4 :: rest ->
  io_res s1 = Transferred n1 -> Z.of_nat taglen <= n1 ->
  io_res s2 = Transferred n2 -> Z.of_nat taglen <= n2 ->
  io_res s3 = Transferred n3 -> Z.of_nat taglen <= n3 ->
  io_res s4 = Transferred n4 -> Z.of_nat taglen <= n4 ->
  isfree (sector w off) = true -> (length id <= idlen)%nat ->
  let c1 := clock w + io_usec s1 in
  let c2 := c1 + io_usec s2 in
  let c3 := c2 + u32 (2 * op_max_ms w * 1000) in
  let c4 := c3 + io_usec s3 in
  let c5 := c4 + io_usec s4 in
  in_time (op_max_ms w) (clock w) (io_usec s1) ->
  in_time (op_max_ms w) c1 (io_usec s2) ->
  in_time (op_max_ms w) c3 (io_usec s3) ->
  0 <= io_usec s4 -> c5 < 2 ^ 63 ->
  - 2 ^ 62 <= lease_ms w <= 2 * op_max_ms w ->
  0 <= 2 * op_max_ms w * 1000 < 2 ^ 32 ->
  exists w',
    acquire (S fuel) fd off id busyloop ts w
    = Ret (Some (- ETIMEDOUT, c1)) w'
    /\ firstn taglen (sector w' off) = buildtag id c1
    /\ length (writes w') = S (length (writes w)).
Proof.
  intros Ha Hd Hr1 Hn1 Hr2 Hn2 Hr3 Hn3 Hr4 Hn4 Hfree Hlen
    c1 c2 c3 c4 c5 Ht1 Ht2 Ht3 Hd4 Hc5 Hshort Hop32.
  exact (acquire_short_lease_run fd off id busyloop ts fuel w s1 s2 s3
           (s4 :: rest) n1 n2 n3 Ha Hd Hr1 Hr2 Hr3 Hn1 Hn2 Hn3 Hfree
           Hlen Ht1 Ht2 Ht3 s4 rest n4 eq_refl Hr4 Hn4 Hshort Hop32 Hd4 Hc5).
Qed.

Ltac by_computation :=
  solve [vm_compute; repeat first [discriminate | reflexivity | lia | split]].

Lemma buildtag_injective_witness :
  buildtag (lit "A") 7 = buildtag (lit "A  ") 7
  <-> rstrip (lit "A") = rstrip (lit "A  ") /\ 7 = 7.
Proof. apply buildtag_injective; by_computation. Defined.

Lemma sameid_buildtag_iff_witness :
  sameid (buildtag (lit "A") t0) (lit "B") = true
  <-> rstrip (lit "A") = rstrip (lit "B").
Proof. apply sameid_buildtag_iff; by_computation. Defined.

Lemma sentinel_not_sameid_witness :
  sameid freetag (lit "A") = false
  /\ forall t, in_s64 t -> sameid (buildtag (lit "A") t) freetag = false.
Proof. apply sentinel_not_sameid. reflexivity. Defined.

Lemma valid_identity_not_free_witness :
  isfree (buildtag (lit "A") 0) = false.
Proof. apply valid_identity_not_free; by_computation. Defined.

Lemma renew_timeout_timeleft_witness :
  (ts <- renew_timeout ;; timeleft_ms ts) on_free_sector
  = Ret (op_max_ms on_free_sector) on_free_sector.
Proof. apply renew_timeout_timeleft; by_computation. Defined.

Lemma readtag_partial_witness :
  exists tag' w',
    readtag 3 0 (fresh (taglen + 1)) 0 short_of_tag = Ret (31, tag') w'
    /\ firstn taglen tag'
       = bytes_at (disk short_of_tag) 0 (Z.to_nat 31)
         ++ firstn (taglen - Z.to_nat 31)
              (skipn (Z.to_nat 31) (iobuf short_of_tag)).
Proof.
  apply (readtag_partial 3 0 _ short_of_tag (transfer 31 1000) []);
    by_computation.
Defined.

Lemma writetag_late_lands_witness :
  exists w',
    writetag 3 0 (buildtag (lit "A") t0) 1 slow_write = Ret (-1) w'
    /\ errno w' = - ETIMEDOUT
    /\ firstn taglen (sector w' 0) = firstn taglen (buildtag (lit "A") t0).
Proof.
  apply (writetag_late_lands 3 0 _ 1 slow_write (transfer 512 6001000) [] 512);
    by_computation.
Defined.

Lemma writetag_readtag_witness :
  exists r tag' w',
    (writetag 3 0 freetag 1 ;; readtag 3 0 (fresh (taglen + 1)) 1)
      on_sector_of_A = Ret (r, tag') w'
    /\ 0 < r /\ sametag tag' freetag = true.
Proof.
  apply (writetag_readtag 3 0 freetag _ 1 1 on_sector_of_A
           (transfer 512 1000) (transfer 512 1000) [] 512 512);
    first [by_computation | right; by_computation].
Defined.

Lemma renew_not_held_witness :
  exists w',
    renew 3 0 (lit "A") 7 on_sector_of_B = Ret (0, 0) w'
    /\ disk w' = disk on_sector_of_B /\ writes w' = writes on_sector_of_B
    /\ alarm_at w' = None.
Proof.
  apply (renew_not_held 3 0 (lit "A") 7 on_sector_of_B (transfer 512 1000)
           [] 512); by_computation.
Defined.

Lemma renew_expired_witness :
  exists w',
    renew 3 0 (lit "A") 7 on_sector_of_A_expired
    = Ret (- ETIMEDOUT, snd (querytag (sector on_sector_of_A_expired 0))) w'
    /\ disk w' = disk on_sector_of_A_expired
    /\ writes w' = writes on_sector_of_A_expired
    /\ alarm_at w' = None.
Proof.
  apply (renew_expired 3 0 (lit "A") 7 on_sector_of_A_expired
           (transfer 512 1000) [] 512); by_computation.
Defined.

Lemma renew_disarms_witness :
  alarm_at (final (renew 3 0 (lit "A") 7 on_sector_of_B)) = None
  /\ exists before,
       alarms (final (renew 3 0 (lit "A") 7 on_sector_of_B)) = before ++ [0].
Proof.
  apply (renew_disarms 3 0 (lit "A") 7 on_sector_of_B (0, 0)).
  vm_compute. reflexivity.
Defined.

Lemma renew_in_time_witness :
  exists w',
    renew 3 0 (lit "A") 7 on_sector_of_A = Ret (1, t0) w'
    /\ firstn taglen (sector w' 0) = buildtag (lit "A") (t0 + 30001000)
    /\ alarms w' = alarms on_sector_of_A ++ [29; 0]
    /\ length (writes w') = S (length (writes on_sector_of_A))
    /\ alarm_at w' = None.
Proof.
  apply (renew_in_time 3 0 (lit "A") 7 on_sector_of_A
           (transfer 512 1000) (transfer 512 1000) [] 512 512);
    first [by_computation | right; by_computation].
Defined.

Lemma renew_fence_fires_witness :
  exists w',
    renew 3 0 (lit "A") 7 on_sector_of_A_stalled = Exit (-1) w'
    /\ alarms w' = alarms on_sector_of_A_stalled ++ [30]
    /\ length (writes w') = S (length (writes on_sector_of_A_stalled)).
Proof.
  apply (renew_fence_fires 3 0 (lit "A") 7 on_sector_of_A_stalled
           (transfer 512 0) (transfer 512 40000000) [] 512);
    by_computation.
Defined.

Lemma release_force_frees_witness :
  exists w',
    release 3 0 (lit "A") 1 on_sector_of_B = Ret 1 w'
    /\ isfree (sector w' 0) = true
    /\ trace w'
       = EvPwrite 3 (firstn 512 (memcpy (iobuf on_sector_of_B) freetag taglen))
           0 :: trace on_sector_of_B.
Proof.
  apply (release_force_frees 3 0 (lit "A") 1 on_sector_of_B
           (transfer 512 1000) [] 512); by_computation.
Defined.

Lemma release_held_frees_witness :
  exists w',
    release 3 0 (lit "A") 0 on_sector_of_A = Ret 1 w'
    /\ isfree (sector w' 0) = true
    /\ length (writes w') = S (length (writes on_sector_of_A)).
Proof.
  apply (release_held_frees 3 0 (lit "A") on_sector_of_A
           (transfer 512 1000) (transfer 512 1000) [] 512 512);
    by_computation.
Defined.

Lemma release_read_fails_witness :
  exists w',
    release 3 0 (lit "A") 0 failing_device = Ret (- EIO) w'
    /\ disk w' = disk failing_device /\ writes w' = writes failing_device.
Proof.
  apply (release_read_fails 3 0 (lit "A") failing_device
           {| io_res := Failed EIO; io_usec := 1000 |} []); reflexivity.
Defined.

Lemma query_prints_fields_witness :
  exists w',
    query 3 0 on_sector_of_B = Ret 1 w'
    /\ trace w'
       = EvPrintf (lit "LOCKED") (Libc.fmt_ls idlen (lit "B"))
           (Libc.hexdigits stamplen (u64 t0))
           (Z.quot t0 1000000) (Z.rem t0 1000000)
           :: EvPread 3 0 :: trace on_sector_of_B.
Proof.
  apply (query_prints_fields 3 0 (lit "B") t0 on_sector_of_B
           (transfer 512 1000) [] 512); try by_computation.
  repeat constructor; discriminate.
Defined.

Lemma acquire_read_fails_witness :
  exists w',
    acquire 1 3 0 (lit "A") 0 7 failing_device = Ret (Some (- EIO, 7)) w'
    /\ disk w' = disk failing_device /\ writes w' = writes failing_device.
Proof.
  apply (acquire_read_fails 1 3 0 (lit "A") 0 7 failing_device
           {| io_res := Failed EIO; io_usec := 1000 |} []); reflexivity.
Defined.

Lemma acquire_alone_wins_witness :
  exists w',
    acquire 1 3 0 (lit "A") 0 7 on_free_sector_alone
    = Ret (Some (1, t0 + 1000)) w'
    /\ firstn taglen (sector w' 0) = buildtag (lit "A") (t0 + 10004000)
    /\ length (writes w') = (2 + length (writes on_free_sector_alone))%nat
    /\ alarm_at w' = None.
Proof.
  apply (acquire_alone_wins 0 3 0 (lit "A") 0 7 on_free_sector_alone
           (transfer 512 1000) (transfer 512 1000) (transfer 512 1000)
           (transfer 512 1000) (transfer 512 1000) [] 512 512 512 512 512);
    first [by_computation | right; by_computation].
Defined.

Lemma acquire_short_lease_times_out_witness :
  exists w',
    acquire 1 3 0 (lit "A") 0 7 on_free_sector_short_lease
    = Ret (Some (- ETIMEDOUT, t0 + 1000)) w'
    /\ firstn taglen (sector w' 0) = buildtag (lit "A") (t0 + 1000)
    /\ length (writes w') = S (length (writes on_free_sector_short_lease)).
Proof.
  apply (acquire_short_lease_times_out 0 3 0 (lit "A") 0 7
           on_free_sector_short_lease
           (transfer 512 1000) (transfer 512 1000) (transfer 512 1000)
           (transfer 512 1000) [] 512 512 512 512);
    by_computation.
Defined.

(** ** Part 6: two contenders for one sector *)

(** *** What a call leaves behind when it returns *)

Section Frames.

Lemma settled_refl w : settled w w.
Proof. repeat split. left. reflexivity. Qed.

Lemma settled_trans w1 w2 w3 :
  settled w1 w2 -> settled w2 w3 ->
  lease_ms w3 = lease_ms w1 /\ op_max_ms w3 = op_max_ms w1.
Proof. intros (A & B & _) (C & D & _). split; congruence. Qed.

Lemma bind_Ret {A B} (c : M A) (k : A -> M B) w b w' :
  bind c k w = Ret b w' ->
  exists a w1, c w = Ret a w1 /\ k a w1 = Ret b w'.
Proof.
  unfold bind. destruct (c w) as [a w1 | s w1]; [|discriminate].
  intros H. exists a, w1. split; [reflexivity | exact H].
Qed.

Ltac all_ways w H :=
  unfold answer, next_step in *; cbn [device log] in *;
  destruct (device w) as [|st rest] eqn:Hdev; cbn beta iota zeta in *;
  unfold blocking, sleeping, bind, handler, panic, modify, ret in *;
  cbn [alarm_at set_device log io_usec io_res] in *;
  destruct (alarm_at w) as [t|];
  repeat match type of H with
    | context [if ?b then _ else _] => destruct b
    | context [match io_res ?s with _ => _ end] => destruct (io_res s)
    end;
  inversion H; subst; clear H; cbn; rewrite ?Hdev; repeat split; auto.

Lemma pread_Ret fd count off w r w' :
  pread fd count off w = Ret r w' ->
  settled w w' /\ disk w' = disk w
  /\ match io_res (answer w) with
     | Transferred n =>
         r = Z.of_nat (clamp n count)
         /\ iobuf w' = memcpy (iobuf w) (bytes_at (disk w) off (clamp n count))
                         (clamp n count)
     | Failed e => r = -1 /\ errno w' = e
     end.
Proof. intros H. unfold settled, pread in *. all_ways w H. Qed.

Lemma pwrite_Ret fd count off w r w' :
  pwrite fd count off w = Ret r w' ->
  settled w w'
  /\ match io_res (answer w) with
     | Transferred n =>
         r = Z.of_nat (clamp n count)
         /\ disk w' = write_at (disk w) off
                        (firstn (clamp n count)
                           (firstn (Z.to_nat count) (iobuf w)))
     | Failed e => r = -1 /\ errno w' = e
     end.
Proof. intros H. unfold settled, pwrite in *. all_ways w H. Qed.

Lemma usleep_Ret us w u w' :
  usleep us w = Ret u w' ->
  settled w w' /\ disk w' = disk w /\ clock w' = clock w + u32 us.
Proof.
  intros H. unfold settled, usleep, bind, modify, sleeping in *.
  cbn [alarm_at log clock] in H.
  destruct (alarm_at w) as [t|];
    repeat match type of H with
      | context [if ?b then _ else _] => destruct b
      end;
    inversion H; subst; clear H; cbn; repeat split; auto.
Qed.

Lemma alarm_Ret s w u w' :
  alarm s w = Ret u w' ->
  lease_ms w' = lease_ms w /\ op_max_ms w' = op_max_ms w
  /\ device w' = device w /\ disk w' = disk w /\ errno w' = errno w.
Proof.
  intros H. unfold alarm, modify in H. inversion H; subst.
  cbn. repeat split; auto.
Qed.

Lemma settled_then w w1 w2 :
  settled w w1 ->
  lease_ms w2 = lease_ms w1 -> op_max_ms w2 = op_max_ms w1 ->
  device w2 = device w1 ->
  settled w w2.
Proof.
  intros (A & B & C) D E F. unfold settled.
  rewrite D, E, F. repeat split; assumption.
Qed.

Lemma settled_errno e w w' : settled w w' -> settled w (set_errno e w').
Proof. intros H. exact H. Qed.

Lemma readtag_Ret fd off tag limit w r tag' w' :
  readtag fd off tag limit w = Ret (r, tag') w' ->
  settled w w' /\ disk w' = disk w
  /\ (whole (answer w) ->
      (r < 0 -> errno w' <> -1)
      /\ (0 <= r -> firstn taglen tag' = firstn taglen (sector w off))).
Proof.
  unfold readtag, bind, gettimeofday, get. intros H.
  destruct (pread fd 512 off w) as [r0 w1 | s w1] eqn:Hp; [|discriminate].
  apply pread_Ret in Hp. destruct Hp as (Hs & Hd & Hm).
  unfold whole.
  destruct (io_res (answer w)) as [n | e].
  - destruct Hm as [Hr Hi].
    assert (Hgood : Z.of_nat taglen <= n ->
              firstn taglen (memcpy tag (iobuf w1) taglen)
              = firstn taglen (sector w off)).
    { intros Hn. rewrite Hi. apply read_tag. unfold clamp.
      change taglen with 32%nat in *. lia. }
    destruct (r0 <=? 0) eqn:Hr0.
    + unfold ret in H. inversion H; subst.
      split; [exact Hs|]. split; [exact Hd|]. intros Hn.
      apply Z.leb_le in Hr0. unfold clamp in Hr0.
      change (Z.of_nat taglen) with 32 in Hn. lia.
    + destruct (limit =? 0).
      * unfold ret in H. inversion H; subst.
        split; [exact Hs|]. split; [exact Hd|]. intros Hn.
        split; [unfold clamp; lia | intros _; apply Hgood, Hn].
      * match type of H with
        | context [withintimelimits ?a ?b ?x] =>
            destruct (withintimelimits_cases a b x) as [Hw | Hw];
              rewrite Hw in H
        end; cbn in H; unfold ret in H; inversion H; subst.
        -- split; [exact Hs|]. split; [exact Hd|]. intros Hn.
           split; [unfold clamp; lia | intros _; apply Hgood, Hn].
        -- split; [exact Hs|]. split; [exact Hd|]. intros Hn.
           split; [intros _; cbn; unfold ETIMEDOUT; lia | lia].
  - destruct Hm as [Hr He]. subst r0. cbn in H. unfold ret in H.
    inversion H; subst.
    split; [exact Hs|]. split; [exact Hd|]. intros Hn.
    split; [intros _; lia | lia].
Qed.

Lemma writetag_Ret fd off tag limit w r w' :
  writetag fd off tag limit w = Ret r w' ->
  settled w w'
  /\ (whole (answer w) -> (taglen <= length tag)%nat ->
      (r < 0 -> errno w' <> -1)
      /\ (0 <= r -> firstn taglen (sector w' off) = firstn taglen tag)).
Proof.
  unfold writetag, bind, modify, gettimeofday, get. intros H.
  destruct (pwrite fd 512 off _) as [n0 w1 | s w1] eqn:Hp; [|discriminate].
  apply pwrite_Ret in Hp. destruct Hp as (Hs & Hm).
  change (answer (set_iobuf (memcpy (iobuf w) tag taglen) w))
    with (answer w) in Hm.
  assert (Hs' : settled w w1) by exact Hs. clear Hs.
  unfold whole.
  destruct (io_res (answer w)) as [n | e].
  - destruct Hm as [Hr Hd]. cbn [iobuf disk set_iobuf] in Hd.
    assert (Hgood : Z.of_nat taglen <= n -> (taglen <= length tag)%nat ->
              firstn taglen (sector w1 off) = firstn taglen tag).
    { intros Hn Ht. unfold sector. rewrite Hd.
      apply sector_after_write; [|exact Ht].
      unfold clamp. change taglen with 32%nat in *. lia. }
    destruct (n0 <? Z.of_nat taglen) eqn:Hn0.
    + cbn in H. unfold ret in H. inversion H; subst.
      split; [exact Hs'|]. intros Hn Ht.
      apply Z.ltb_lt in Hn0. unfold clamp in Hn0.
      change (Z.of_nat taglen) with 32 in *. lia.
    + change (0 <? 0) with false in H. cbn beta iota in H.
      destruct (limit =? 0).
      * unfold ret in H. inversion H; subst.
        split; [exact Hs'|]. intros Hn Ht.
        split; [lia | intros _; apply Hgood; assumption].
      * match type of H with
        | context [withintimelimits ?a ?b ?x] =>
            destruct (withintimelimits_cases a b x) as [Hw | Hw];
              rewrite Hw in H
        end; cbn in H; unfold ret in H; inversion H; subst.
        -- split; [exact Hs'|]. intros Hn Ht.
           split; [lia | intros _; apply Hgood; assumption].
        -- split; [exact Hs'|]. intros Hn Ht.
           split; [intros _; cbn; unfold ETIMEDOUT; lia | lia].
  - destruct Hm as [Hr He]. subst n0.
    change (-1 <? Z.of_nat taglen) with true in H. cbn in H.
    unfold ret in H. inversion H; subst.
    split; [exact Hs'|]. intros Hn Ht.
    split; [intros _; lia | lia].
Qed.

Lemma writetimestamp_Ret fd off id ts w r tag ts' w' :
  writetimestamp fd off id ts w = Ret (r, tag, ts') w' ->
  settled w w'
  /\ (exists t, tag = buildtag id t)
  /\ (whole (answer w) ->
      (r < 0 -> errno w' <> -1)
      /\ (0 <= r -> firstn taglen (sector w' off) = tag)).
Proof.
  unfold writetimestamp, bind, gettimeofday, get. intros H.
  destruct (writetag fd off _ 1 w) as [r0 w1 | s w1] eqn:Hw; [|discriminate].
  unfold ret in H. inversion H; subst.
  apply writetag_Ret in Hw. destruct Hw as (Hs & Hm).
  split; [exact Hs|]. split; [eexists; reflexivity|].
  intros Hn. destruct (Hm Hn) as [He Hg].
  { rewrite length_buildtag. apply Nat.le_refl. }
  split; [exact He|]. intros Hr. rewrite (Hg Hr).
  apply firstn_all2. rewrite length_buildtag. apply Nat.le_refl.
Qed.

Lemma timeleft_ms_Ret ts w m w' : timeleft_ms ts w = Ret m w' -> w' = w.
Proof.
  unfold timeleft_ms, bind, gettimeofday, get, ret. intros H.
  inversion H. reflexivity.
Qed.

End Frames.

(** *** The phases are acquire *)

Section Phases.

Ltac globals :=
  repeat match goal with
    | H : lease_ms _ = lease_ms _ |- _ => rewrite H
    | H : op_max_ms _ = op_max_ms _ |- _ => rewrite H
    end.

Ltac call :=
  match goal with
  | |- context [match readtag ?a ?b ?c ?d ?x with _ => _ end] =>
      let E := fresh "E" in
      destruct (readtag a b c d x) as [[? ?] ? | ? ?] eqn:E;
      [apply readtag_Ret in E; destruct E as ((? & ? & _) & _) | ]
  | |- context [match usleep ?a ?x with _ => _ end] =>
      let E := fresh "E" in
      destruct (usleep a x) as [? ? | ? ?] eqn:E;
      [apply usleep_Ret in E; destruct E as ((? & ? & _) & _) | ]
  | |- context [match writetimestamp ?a ?b ?c ?d ?x with _ => _ end] =>
      let E := fresh "E" in
      destruct (writetimestamp a b c d x) as [[[? ?] ?] ? | ? ?] eqn:E;
      [apply (writetimestamp_Ret a b) in E; destruct E as ((? & ? & _) & _) | ]
  | |- context [match alarm ?a ?x with _ => _ end] =>
      let E := fresh "E" in
      destruct (alarm a x) as [? ? | ? ?] eqn:E;
      [apply alarm_Ret in E; destruct E as (? & ? & _) | ]
  | |- context [match timeleft_ms ?a ?x with _ => _ end] =>
      let E := fresh "E" in
      destruct (timeleft_ms a x) as [? ? | ? ?] eqn:E;
      [apply timeleft_ms_Ret in E; subst | ]
  | |- context [if ?b then _ else _] => destruct b eqn:?
  end.

(** The phases, run one after the other by a process alone, are
    [acquire] with its loops bounded by 1. *)
Lemma acquire_in_phases fd offset id busyloop ts w :
  (s <- phases 8 fd offset id busyloop (AtStart ts) ;; ret (result_of s)) w
  = acquire 1 fd offset id busyloop ts w.
Proof.
  unfold acquire, contend, backoff, renew.
  repeat first
    [ reflexivity
    | progress cbn [phases phase]
    | progress unfold bind, get, ret
    | progress cbn beta iota zeta
    | progress globals
    | match goal with
      | H : ?b = _ |- context [if ?b then _ else _] => rewrite H
      end
    | call ].
Qed.

End Phases.

(** *** What each phase of a round does *)

Lemma sametag_true a b :
  sametag a b = true -> firstn taglen a = firstn taglen b.
Proof. unfold sametag, memeq. apply bytes_eqb_eq. Qed.

Lemma lost_error e ts : e <> -1 -> lost (Over (Some (- e, ts))).
Proof.
  intros H. unfold lost.
  destruct (- e) as [|p|p] eqn:E; try exact I.
  destruct p; try exact I. exfalso. lia.
Qed.

Section PhaseFacts.

Variables (fd off : Z) (id : bytes) (busyloop : Z).
Hypothesis Hid : (length id <= idlen)%nat.

Lemma sameid_own_tag t : sameid (buildtag id t) id = true.
Proof.
  apply sameid_spec. rewrite buildtag_identity by exact Hid.
  symmetry. apply firstn_all2.
  rewrite LibcFacts.length_fmt_ls by exact Hid. apply Nat.le_refl.
Qed.

Lemma phase_AtStart ts w s' w' :
  phase fd off id busyloop (AtStart ts) w = Ret s' w' ->
  whole (answer w) -> isfree (sector w off) = true ->
  settled w w' /\ disk w' = disk w
  /\ (lost s' \/ exists curr last, s' = AtWrite curr last ts).
Proof.
  cbn [phase]. intros H Hw Hfree.
  apply bind_Ret in H. destruct H as ([r curr] & w1 & Hr & H).
  apply readtag_Ret in Hr. destruct Hr as (Hs & Hd & Hr).
  destruct (Hr Hw) as [He Hg]. cbn beta iota zeta in H.
  destruct (r <? 0) eqn:Hneg.
  - unfold bind, get, ret in H. inversion H; subst.
    split; [exact Hs|]. split; [exact Hd|]. left.
    apply lost_error, He. apply Z.ltb_lt. exact Hneg.
  - apply Z.ltb_ge in Hneg.
    assert (Hc : isfree curr = true).
    { rewrite <- Hfree. apply isfree_firstn, Hg, Hneg. }
    rewrite Hc, andb_false_r in H. unfold ret in H. inversion H; subst.
    split; [exact Hs|]. split; [exact Hd|]. right. eauto.
Qed.

Lemma phase_AtWrite curr last ts w s' w' :
  phase fd off id busyloop (AtWrite curr last ts) w = Ret s' w' ->
  whole (answer w) ->
  settled w w'
  /\ (lost s'
      \/ exists tag ts',
           s' = AtContendSleep curr tag ts'
           /\ sameid tag id = true
           /\ sameid (sector w' off) id = true).
Proof.
  cbn [phase]. intros H Hw.
  apply bind_Ret in H. destruct H as ([[r tag] ts'] & w1 & Hr & H).
  apply (writetimestamp_Ret fd off) in Hr.
  destruct Hr as (Hs & [t Ht] & Hr).
  destruct (Hr Hw) as [He Hg]. cbn beta iota zeta in H.
  destruct (r <? 0) eqn:Hneg.
  - unfold bind, get, ret in H. inversion H; subst.
    split; [exact Hs|]. left.
    apply lost_error, He. apply Z.ltb_lt. exact Hneg.
  - apply Z.ltb_ge in Hneg. unfold ret in H. inversion H; subst.
    split; [exact Hs|]. right. exists (buildtag id t), ts'.
    split; [reflexivity|]. split; [apply sameid_own_tag|].
    rewrite <- (sameid_own_tag t). apply sameid_firstn.
    rewrite <- (Hg Hneg), firstn_firstn. reflexivity.
Qed.

Lemma phase_AtContendSleep curr tag ts w s' w' :
  phase fd off id busyloop (AtContendSleep curr tag ts) w = Ret s' w' ->
  settled w w' /\ disk w' = disk w
  /\ s' = AtReread curr tag ts
  /\ clock w' = clock w + u32 (2 * op_max_ms w * 1000).
Proof.
  cbn [phase]. unfold bind at 1. unfold get at 1. intros H.
  apply bind_Ret in H. destruct H as (u & w1 & Hu & H).
  apply usleep_Ret in Hu. destruct Hu as (Hs & Hd & Hc).
  unfold ret in H. inversion H; subst.
  split; [exact Hs|]. split; [exact Hd|]. split; [reflexivity | exact Hc].
Qed.

Lemma phase_AtReread curr tag ts w s' w' :
  phase fd off id busyloop (AtReread curr tag ts) w = Ret s' w' ->
  whole (answer w) ->
  settled w w' /\ disk w' = disk w
  /\ (lost s'
      \/ (exists ts', s' = AtRenewRead ts')
         /\ firstn taglen (sector w off) = firstn taglen tag).
Proof.
  cbn [phase]. intros H Hw.
  apply bind_Ret in H. destruct H as ([r curr'] & w1 & Hr & H).
  apply readtag_Ret in Hr. destruct Hr as (Hs & Hd & Hr).
  destruct (Hr Hw) as [He Hg]. cbn beta iota zeta in H.
  destruct (r <? 0) eqn:Hneg.
  - unfold bind, get, ret in H. inversion H; subst.
    split; [exact Hs|]. split; [exact Hd|]. left.
    apply lost_error, He. apply Z.ltb_lt. exact Hneg.
  - apply Z.ltb_ge in Hneg.
    destruct (sametag curr' tag) eqn:Hsame.
    + rewrite andb_false_r, orb_true_r in H. unfold ret in H.
      inversion H; subst.
      split; [exact Hs|]. split; [exact Hd|]. right. split; [eauto|].
      rewrite <- (Hg Hneg). apply sametag_true, Hsame.
    + rewrite andb_true_r, orb_false_r in H.
      destruct (negb (busyloop =? 0)); unfold ret in H; inversion H; subst;
        (split; [exact Hs|]); (split; [exact Hd|]); left; exact I.
Qed.

Lemma alarm_then (s : Z) (res : stage) w w1 s' w' :
  (alarm s ;; ret res) w1 = Ret s' w' ->
  settled w w1 ->
  settled w w' /\ disk w' = disk w1 /\ s' = res.
Proof.
  intros H Hs.
  apply bind_Ret in H. destruct H as (u & w2 & Ha & H).
  unfold ret in H. inversion H; subst.
  apply alarm_Ret in Ha. destruct Ha as (A & B & C & D & _).
  split; [|split; [exact D | reflexivity]].
  apply (settled_then w w1); assumption.
Qed.

Lemma phase_AtRenewRead ts w s' w' :
  phase fd off id busyloop (AtRenewRead ts) w = Ret s' w' ->
  whole (answer w) ->
  settled w w' /\ disk w' = disk w
  /\ (lost s' \/ exists ts', s' = AtRenewWrite ts').
Proof.
  cbn [phase]. intros H Hw.
  apply bind_Ret in H. destruct H as ([r curr'] & w1 & Hr & H).
  apply readtag_Ret in Hr. destruct Hr as (Hs & Hd & Hr).
  destruct (Hr Hw) as [He Hg]. cbn beta iota zeta in H.
  destruct (r <? 0) eqn:Hneg.
  - unfold bind at 1 in H. unfold get at 1 in H.
    apply (alarm_then _ _ w) in H; [|exact Hs].
    destruct H as (Hs' & Hd' & ->).
    split; [exact Hs'|]. split; [congruence|]. left.
    apply lost_error, He. apply Z.ltb_lt. exact Hneg.
  - destruct (negb (sameid curr' id)).
    + apply (alarm_then _ _ w) in H; [|exact Hs].
      destruct H as (Hs' & Hd' & ->).
      split; [exact Hs'|]. split; [congruence|]. left. exact I.
    + apply bind_Ret in H. destruct H as (m & w2 & Hm & H).
      apply timeleft_ms_Ret in Hm. subst w2.
      destruct (m <=? 0);
        (apply (alarm_then _ _ w) in H; [|exact Hs]);
        destruct H as (Hs' & Hd' & ->);
        (split; [exact Hs'|]); (split; [congruence|]).
      * left. exact I.
      * right. eauto.
Qed.

Lemma phase_AtRenewWrite ts w s' w' :
  phase fd off id busyloop (AtRenewWrite ts) w = Ret s' w' ->
  whole (answer w) ->
  settled w w'
  /\ (lost s'
      \/ (exists ts', s' = Over (Some (1, ts')))
         /\ sameid (sector w' off) id = true).
Proof.
  cbn [phase]. intros H Hw.
  apply bind_Ret in H. destruct H as ([[r tag] ts'] & w1 & Hr & H).
  apply (writetimestamp_Ret fd off) in Hr.
  destruct Hr as (Hs & [t Ht] & Hr).
  destruct (Hr Hw) as [He Hg]. cbn beta iota zeta in H.
  destruct (r <? 0) eqn:Hneg.
  - unfold bind at 1 in H. unfold get at 1 in H.
    apply (alarm_then _ _ w) in H; [|exact Hs].
    destruct H as (Hs' & Hd' & ->).
    split; [exact Hs'|]. left.
    apply lost_error, He. apply Z.ltb_lt. exact Hneg.
  - apply Z.ltb_ge in Hneg.
    apply (alarm_then _ _ w) in H; [|exact Hs].
    destruct H as (Hs' & Hd' & ->).
    split; [exact Hs'|]. right. split; [eauto|].
    unfold sector. rewrite Hd'. fold (sector w1 off).
    rewrite <- (sameid_own_tag t). apply sameid_firstn.
    subst tag. rewrite <- (Hg Hneg), firstn_firstn. reflexivity.
Qed.

End PhaseFacts.

(** *** The round *)

Section Round.

Variables (idA idB : bytes) (winA winB : Z).
Hypothesis HlenA : (length idA <= idlen)%nat.
Hypothesis HlenB : (length idB <= idlen)%nat.
Hypothesis Hdiff : rstrip idA <> rstrip idB.

Let id_of (p : party) : bytes :=
  match p with PartyA => idA | PartyB => idB end.

Let win (p : party) : Z :=
  match p with PartyA => winA | PartyB => winB end.

(** How far a contender has come: about to write, to sleep, to read
    again, or past its second read. *)
Let rk (s : stage) : nat :=
  match s with
  | AtWrite _ _ _ => 0
  | AtContendSleep _ _ _ => 1
  | AtReread _ _ _ => 2
  | _ => 3
  end.

Let racing (s : stage) : Prop :=
  match s with
  | AtWrite _ _ _ | AtContendSleep _ _ _ | AtReread _ _ _
  | AtRenewRead _ | AtRenewWrite _ => True
  | Over (Some (1, _)) => True
  | _ => False
  end.

Let tagged (p : party) (s : stage) : Prop :=
  match s with
  | AtContendSleep _ tag _ | AtReread _ tag _ => sameid tag (id_of p) = true
  | _ => True
  end.

(** While the other has not written: what the clock of [p] says about
    the other's read. *)
Let timing (p : party) (a : arena) : Prop :=
  rk (c_stage (side (opponent p) a)) = 0%nat ->
  match rk (c_stage (side p a)) with
  | 0%nat => True
  | 1%nat => c_read_at (side (opponent p) a) <= clock (c_world (side p a))
  | 2%nat =>
      c_read_at (side (opponent p) a) + win p <= clock (c_world (side p a))
  | _ => c_read_at (side (opponent p) a) + win p <= latest a
  end.

Let settled_in (p : party) (a : arena) : Prop :=
  c_id (side p a) = id_of p
  /\ contend_usec (side p a) = win p
  /\ Forall whole (device (c_world (side p a)))
  /\ racing (c_stage (side p a))
  /\ tagged p (c_stage (side p a))
  /\ c_read_at (side p a) <= latest a
  /\ timing p a.

(** Once both have written, the sector carries the identity of one of
    them, and the other has not passed its second read. *)
Let owned (a : arena) : Prop :=
  (forall p, (1 <= rk (c_stage (side p a)))%nat) ->
  exists p,
    sameid (bytes_at (medium a) (lease_at a) 512) (id_of p) = true
    /\ (rk (c_stage (side (opponent p) a)) <= 2)%nat.

Let good (a : arena) : Prop := (forall p, settled_in p a) /\ owned a.

Let inv (a : arena) : Prop :=
  lost (c_stage (sideA a)) \/ lost (c_stage (sideB a)) \/ good a.

Lemma id_of_length p : (length (id_of p) <= idlen)%nat.
Proof. destruct p; assumption. Qed.

Lemma id_of_differ p : rstrip (id_of p) <> rstrip (id_of (opponent p)).
Proof. destruct p; cbn; [exact Hdiff | intros E; apply Hdiff; symmetry; exact E]. Qed.

Lemma opponent_involutive p : opponent (opponent p) = p.
Proof. destruct p; reflexivity. Qed.

Lemma party_cases p p' : p' = p \/ p' = opponent p.
Proof. destruct p, p'; auto. Qed.

Lemma side_mover t a s w :
  side (mover t) (after_turn t a s w) = moved t (side (mover t) a) s w.
Proof. unfold side, after_turn. destruct (mover t); reflexivity. Qed.

Lemma side_other t a s w :
  side (opponent (mover t)) (after_turn t a s w)
  = side (opponent (mover t)) a.
Proof. unfold side, after_turn. destruct (mover t); reflexivity. Qed.

Lemma inv_lost p a : lost (c_stage (side p a)) -> inv a.
Proof. destruct p; intros H; [left | right; left]; exact H. Qed.

Lemma lost_not_running s : lost s -> running s = false.
Proof. destruct s; cbn; try contradiction; reflexivity. Qed.

(** One sector cannot carry both identities. *)
Lemma one_identity (x : bytes) p :
  sameid x (id_of p) = true -> sameid x (id_of (opponent p)) = true -> False.
Proof.
  intros H1 H2. apply sameid_spec in H1, H2.
  apply (id_of_differ p).
  rewrite <- (rstrip_fmt_ls idlen (id_of p)).
  rewrite <- (rstrip_fmt_ls idlen (id_of (opponent p))).
  f_equal.
  rewrite <- (firstn_all2 (n := idlen) (Libc.fmt_ls idlen (id_of p)))
    by (rewrite LibcFacts.length_fmt_ls by apply id_of_length;
        apply Nat.le_refl).
  rewrite <- (firstn_all2 (n := idlen)
                (Libc.fmt_ls idlen (id_of (opponent p))))
    by (rewrite LibcFacts.length_fmt_ls by apply id_of_length;
        apply Nat.le_refl).
  congruence.
Qed.

Lemma whole_answer w : Forall whole (device w) -> whole (answer w).
Proof.
  unfold answer. intros H. destruct (device w) as [|st rest].
  - unfold whole, EIO. cbn. lia.
  - inversion H. assumption.
Qed.

Lemma whole_settled w w' :
  settled w w' -> Forall whole (device w) -> Forall whole (device w').
Proof.
  intros (_ & _ & [E | E]) H; rewrite E; [exact H|].
  destruct (device w); [exact H | inversion H; assumption].
Qed.

(** What is left to show of [good] after a move to a stage past the
    write. *)
Lemma rebuild (t : turn) (a : arena) (s' : stage) (w' : world) :
  good a ->
  latest a <= lands t ->
  racing s' -> (1 <= rk s')%nat -> tagged (mover t) s' ->
  op_max_ms w' = op_max_ms (c_world (side (mover t) a)) ->
  Forall whole (device w') ->
  (rk (c_stage (side (opponent (mover t)) a)) = 0%nat ->
   match rk s' with
   | 0%nat => True
   | 1%nat => c_read_at (side (opponent (mover t)) a) <= clock w'
   | 2%nat =>
       c_read_at (side (opponent (mover t)) a) + win (mover t) <= clock w'
   | _ => c_read_at (side (opponent (mover t)) a) + win (mover t) <= lands t
   end) ->
  forall p, settled_in p (after_turn t a s' w').
Proof.
  intros [Hloc _] Hlat Hrace Hrk Htag Hop Hwhole Htime p.
  destruct (party_cases (mover t) p) as [-> | ->].
  - destruct (Hloc (mover t)) as (Hi & Hwin & _ & _ & _ & Hread & _).
    unfold settled_in, timing.
    rewrite side_mover, side_other.
    cbn [moved c_id c_stage c_world c_read_at after_turn latest].
    split; [exact Hi|].
    split; [unfold contend_usec, moved in *; cbn [c_world]; rewrite Hop; exact Hwin|].
    split; [exact Hwhole|]. split; [exact Hrace|]. split; [exact Htag|].
    split; [destruct (reads _); lia|].
    exact Htime.
  - destruct (Hloc (opponent (mover t)))
      as (Hi & Hwin & Hw & Hr & Htg & Hread & _).
    unfold settled_in, timing.
    rewrite opponent_involutive, side_mover, side_other.
    cbn [moved c_id c_stage c_world c_read_at after_turn latest].
    split; [exact Hi|]. split; [exact Hwin|]. split; [exact Hw|].
    split; [exact Hr|]. split; [exact Htg|]. split; [lia|].
    intros E. rewrite E in Hrk. lia.
Qed.

(** A turn taken: what the scheduler has checked. *)
Lemma take_turn_Some d t a a' :
  take_turn d t a = Some a' ->
  let c := side (mover t) a in
  let w := set_clock (starts t) (set_disk (medium a) (c_world c)) in
  let o := phase (c_fd c) (lease_at a) (c_id c) (c_busy c) (c_stage c) w in
  running (c_stage c) = true
  /\ clock (c_world c) <= starts t <= lands t
  /\ latest a <= lands t
  /\ d a t = true
  /\ lands t <= clock (final o)
  /\ a' = after_turn t a
            (match o with Ret s _ => s | Exit st _ => Ended st end)
            (final o).
Proof.
  intros H c w o. unfold take_turn in H. cbv zeta in H.
  fold c in H. fold w in H. fold o in H.
  destruct (running (c_stage c)); [|discriminate].
  destruct (Z.leb_spec (clock (c_world c)) (starts t)); [|discriminate].
  destruct (Z.leb_spec (starts t) (lands t)); [|discriminate].
  destruct (Z.leb_spec (latest a) (lands t)); [|discriminate].
  destruct (d a t); [|discriminate].
  cbn [andb] in H.
  destruct (Z.leb_spec (lands t) (clock (final o))); [|discriminate].
  inversion H. repeat split; assumption.
Qed.

Lemma rk_le_3 s : (rk s <= 3)%nat.
Proof. destruct s; cbn; lia. Qed.

Lemma sameid_sector (x y : bytes) (i : bytes) :
  firstn taglen x = firstn taglen y -> sameid y i = true -> sameid x i = true.
Proof.
  intros E H. rewrite <- H. apply sameid_firstn.
  replace (firstn idlen x) with (firstn idlen (firstn taglen x))
    by (rewrite firstn_firstn; reflexivity).
  replace (firstn idlen y) with (firstn idlen (firstn taglen y))
    by (rewrite firstn_firstn; reflexivity).
  rewrite E. reflexivity.
Qed.

(** [inv] is kept by every turn the prompt discipline allows. *)
Lemma inv_step t a a' :
  inv a -> take_turn prompt t a = Some a' -> inv a'.
Proof.
  intros Hinv Ht. apply take_turn_Some in Ht. cbv zeta in Ht.
  destruct Ht as (Hrun & [Hs1 Hs2] & Hlat & Hd & Hend & ->).
  destruct Hinv as [HlA | [HlB | Hg]].
  { destruct (mover t) eqn:Em.
    - cbn [side] in Hrun. rewrite (lost_not_running _ HlA) in Hrun.
      discriminate.
    - left. unfold after_turn. rewrite Em. exact HlA. }
  { destruct (mover t) eqn:Em.
    - right; left. unfold after_turn. rewrite Em. exact HlB.
    - cbn [side] in Hrun. rewrite (lost_not_running _ HlB) in Hrun.
      discriminate. }
  set (p := mover t) in *. set (q := opponent p) in *.
  set (c := side p a) in *.
  set (w := set_clock (starts t) (set_disk (medium a) (c_world c))) in *.
  destruct (phase (c_fd c) (lease_at a) (c_id c) (c_busy c) (c_stage c) w)
    as [s' w' | st w'] eqn:Hph; cbn [final] in *.
  2: { apply (inv_lost p). unfold p. rewrite side_mover. exact I. }
  pose proof Hg as [Hloc Hown].
  destruct (Hloc p) as (Hi & Hwin & Hwh & Hrace & Htag & Hread & Htime).
  destruct (Hloc q) as (Hiq & Hwinq & Hwhq & Hraceq & Htagq & Hreadq & Htimeq).
  fold c in Hi, Hwin, Hwh, Hrace, Htag, Hread.
  unfold timing in Htime, Htimeq. fold q in Htime.
  assert (Hqq : side (opponent q) a = c)
    by (unfold q; rewrite opponent_involutive; reflexivity).
  rewrite Hqq in Htimeq. fold c in Htime.
  assert (Hlen : (length (c_id c) <= idlen)%nat)
    by (rewrite Hi; apply id_of_length).
  assert (Hans : whole (answer w)) by (apply whole_answer; exact Hwh).
  assert (Hop : forall w2, settled w w2 ->
            op_max_ms w2 = op_max_ms (c_world c)
            /\ Forall whole (device w2)).
  { intros w2 Hset. split; [apply Hset | apply (whole_settled w); assumption]. }
  assert (Hrq : (rk (c_stage (side q a)) <= 3)%nat) by apply rk_le_3.
  assert (Hsq : forall s2 w2,
            c_stage (side q (after_turn t a s2 w2)) = c_stage (side q a)).
  { intros. unfold q, p. rewrite side_other. reflexivity. }
  assert (Hsp : forall s2 w2, c_stage (side p (after_turn t a s2 w2)) = s2).
  { intros. unfold p. rewrite side_mover. reflexivity. }
  destruct (c_stage c) eqn:Est; cbn in Hrace; try contradiction.
  - (* about to write its stamp *)
    apply (phase_AtWrite _ _ _ _ Hlen) in Hph; [|exact Hans].
    destruct Hph as (Hset & [Hl | (tag & ts' & -> & Hsame & Hsec)]).
    { apply (inv_lost p). rewrite Hsp. exact Hl. }
    destruct (Hop _ Hset) as [Hop1 Hop2].
    unfold prompt in Hd. fold p c in Hd. rewrite Est in Hd.
    fold q in Hd. rewrite Hwinq in Hd. apply Z.ltb_lt in Hd.
    right; right. split.
    + apply rebuild;
        [exact Hg | exact Hlat | exact I | cbn; lia | | exact Hop1
        | exact Hop2 | ].
      * change (sameid tag (id_of p) = true). rewrite <- Hi. exact Hsame.
      * intros _. change (c_read_at (side q a) <= clock w'). lia.
    + intros Hall. exists p. split.
      * cbn [after_turn medium lease_at]. rewrite <- Hi. exact Hsec.
      * fold q. rewrite Hsq.
        specialize (Htimeq eq_refl).
        destruct (rk (c_stage (side q a))) as [|[|[|n]]];
          [lia | lia | lia | exfalso; lia].
  - (* about to sleep the contention window *)
    apply phase_AtContendSleep in Hph.
    destruct Hph as (Hset & Hdk & -> & Hclock).
    destruct (Hop _ Hset) as [Hop1 Hop2].
    right; right. split.
    + apply rebuild;
        [exact Hg | exact Hlat | exact I | cbn; lia | exact Htag
        | exact Hop1 | exact Hop2 | ].
      intros E. specialize (Htime E).
      change (c_read_at (side q a) <= clock (c_world c)) in Htime.
      change (c_read_at (side q a) + win p <= clock w').
      rewrite Hclock. unfold contend_usec in Hwin.
      change (op_max_ms w) with (op_max_ms (c_world c)).
      change (clock w) with (starts t).
      rewrite Hwin. lia.
    + intros Hall.
      destruct Hown as (o & Ho1 & Ho2).
      { intros p'. destruct (party_cases p p') as [-> | ->].
        - fold c. rewrite Est. cbn. lia.
        - fold q. specialize (Hall q). rewrite Hsq in Hall. exact Hall. }
      exists o. split.
      * cbn [after_turn medium lease_at]. rewrite Hdk. exact Ho1.
      * destruct (party_cases p o) as [-> | ->].
        -- fold q. rewrite Hsq. exact Ho2.
        -- fold q. unfold q at 1. rewrite opponent_involutive, Hsp. cbn. lia.
  - (* about to read again *)
    apply phase_AtReread in Hph; [|exact Hans].
    destruct Hph as (Hset & Hdk & [Hl | ([ts' ->] & Hsect)]).
    { apply (inv_lost p). rewrite Hsp. exact Hl. }
    destruct (Hop _ Hset) as [Hop1 Hop2].
    right; right. split.
    + apply rebuild;
        [exact Hg | exact Hlat | exact I | cbn; lia | exact I
        | exact Hop1 | exact Hop2 | ].
      intros E. specialize (Htime E).
      change (c_read_at (side q a) + win p <= clock (c_world c)) in Htime.
      change (c_read_at (side q a) + win p <= lands t). lia.
    + intros Hall.
      destruct Hown as (o & Ho1 & Ho2).
      { intros p'. destruct (party_cases p p') as [-> | ->].
        - fold c. rewrite Est. cbn. lia.
        - fold q. specialize (Hall q). rewrite Hsq in Hall. exact Hall. }
      destruct (party_cases p o) as [-> | ->].
      * exists p. split.
        -- cbn [after_turn medium lease_at]. rewrite Hdk. exact Ho1.
        -- fold q. rewrite Hsq. exact Ho2.
      * exfalso. fold q in Ho1. apply (one_identity
          (bytes_at (medium a) (lease_at a) 512) p).
        -- apply (sameid_sector _ tag); [exact Hsect | exact Htag].
        -- exact Ho1.
  - (* renewing: about to read *)
    apply phase_AtRenewRead in Hph; [|exact Hans].
    destruct Hph as (Hset & Hdk & [Hl | [ts' ->]]).
    { apply (inv_lost p). rewrite Hsp. exact Hl. }
    destruct (Hop _ Hset) as [Hop1 Hop2].
    right; right. split.
    + apply rebuild;
        [exact Hg | exact Hlat | exact I | cbn; lia | exact I
        | exact Hop1 | exact Hop2 | ].
      intros E. specialize (Htime E).
      change (c_read_at (side q a) + win p <= latest a) in Htime.
      change (c_read_at (side q a) + win p <= lands t). lia.
    + intros Hall.
      destruct Hown as (o & Ho1 & Ho2).
      { intros p'. destruct (party_cases p p') as [-> | ->].
        - fold c. rewrite Est. cbn. lia.
        - fold q. specialize (Hall q). rewrite Hsq in Hall. exact Hall. }
      destruct (party_cases p o) as [-> | ->].
      * exists p. split.
        -- cbn [after_turn medium lease_at]. rewrite Hdk. exact Ho1.
        -- fold q. rewrite Hsq. exact Ho2.
      * exfalso. fold q in Ho2. unfold q in Ho2.
        rewrite opponent_involutive in Ho2. fold c in Ho2.
        rewrite Est in Ho2. cbn in Ho2. lia.
  - (* renewing: about to write *)
    apply (phase_AtRenewWrite _ _ _ _ Hlen) in Hph; [|exact Hans].
    destruct Hph as (Hset & [Hl | ([ts' ->] & Hsec)]).
    { apply (inv_lost p). rewrite Hsp. exact Hl. }
    destruct (Hop _ Hset) as [Hop1 Hop2].
    right; right. split.
    + apply rebuild;
        [exact Hg | exact Hlat | exact I | cbn; lia | exact I
        | exact Hop1 | exact Hop2 | ].
      intros E. specialize (Htime E).
      change (c_read_at (side q a) + win p <= latest a) in Htime.
      change (c_read_at (side q a) + win p <= lands t). lia.
    + intros Hall.
      destruct Hown as (o & Ho1 & Ho2).
      { intros p'. destruct (party_cases p p') as [-> | ->].
        - fold c. rewrite Est. cbn. lia.
        - fold q. specialize (Hall q). rewrite Hsq in Hall. exact Hall. }
      destruct (party_cases p o) as [-> | ->].
      * exists p. split.
        -- cbn [after_turn medium lease_at]. rewrite <- Hi. exact Hsec.
        -- fold q. rewrite Hsq. exact Ho2.
      * exfalso. fold q in Ho2. unfold q in Ho2.
        rewrite opponent_involutive in Ho2. fold c in Ho2.
        rewrite Est in Ho2. cbn in Ho2. lia.
  - (* returned *)
    destruct res as [[r ts']|]; discriminate Hrun.
Qed.

Lemma inv_play sch : forall a a',
  inv a -> play prompt sch a = Some a' -> inv a'.
Proof.
  induction sch as [|t sch IH]; intros a a' Hinv Hplay; cbn [play] in Hplay.
  - inversion Hplay; subst. exact Hinv.
  - destruct (take_turn prompt t a) as [a1|] eqn:Ht; [|discriminate].
    apply (IH a1); [|exact Hplay]. apply (inv_step t a); assumption.
Qed.

Lemma inv_one_winner a : inv a -> ~ (won (sideA a) /\ won (sideB a)).
Proof.
  intros [Hl | [Hl | [_ Hown]]] [[tsA HA] [tsB HB]].
  - rewrite HA in Hl. exact Hl.
  - rewrite HB in Hl. exact Hl.
  - destruct Hown as (o & _ & Ho).
    + intros [|]; cbn [side]; [rewrite HA | rewrite HB]; cbn; lia.
    + destruct o; cbn [opponent side] in Ho;
        [rewrite HB in Ho | rewrite HA in Ho]; cbn in Ho; lia.
Qed.

(** Before the write: the stages from which a contender can still
    come to stand before its write. *)
Let on_path (s : stage) : Prop :=
  match s with
  | AtStart _ | AtBackoffSleep _ _ _ | AtBackoffRead _ _ _ | AtWrite _ _ _ =>
      True
  | _ => False
  end.

Let has_read (s : stage) : Prop :=
  match s with
  | AtStart _ => False
  | _ => True
  end.

Let ready (p : party) (a : arena) : Prop :=
  on_path (c_stage (side p a)) ->
  c_id (side p a) = id_of p
  /\ contend_usec (side p a) = win p
  /\ Forall whole (device (c_world (side p a)))
  /\ (has_read (c_stage (side p a)) -> c_read_at (side p a) <= latest a).

Ltac crack H :=
  repeat first
    [ progress cbn beta iota zeta in H
    | match type of H with
      | bind _ _ _ = Ret _ _ =>
          apply bind_Ret in H; destruct H as (? & ? & _ & H);
          repeat match goal with
            | x : (_ * _)%type |- _ => destruct x
            end
      | (if ?b then _ else _) _ = Ret _ _ => destruct b
      | ret _ _ = Ret _ _ => unfold ret in H; inversion H; subst; clear H
      end ].

(** A phase that leaves its process before the write started from
    before the write, and was a read or a sleep after a read. *)
Lemma phase_on_path fd off id busyloop s w s' w' :
  phase fd off id busyloop s w = Ret s' w' ->
  on_path s' ->
  on_path s /\ settled w w' /\ has_read s'
  /\ (reads s = true \/ has_read s).
Proof.
  intros H Hon.
  destruct s; cbn [phase] in H.
  - apply bind_Ret in H. destruct H as ([r curr] & w1 & Hr & H).
    apply readtag_Ret in Hr. destruct Hr as (Hs & _).
    crack H; cbn in Hon; try contradiction;
      (split; [exact I|]); (split; [exact Hs|]);
      (split; [exact I | left; reflexivity]).
  - unfold bind at 1 2 in H. unfold get at 1 2 in H.
    apply bind_Ret in H. destruct H as (u & w1 & Hu & H).
    apply usleep_Ret in Hu. destruct Hu as (Hs & _).
    crack H.
    split; [exact I|]. split; [exact Hs|].
    split; [exact I | right; exact I].
  - apply bind_Ret in H. destruct H as ([r curr'] & w1 & Hr & H).
    apply readtag_Ret in Hr. destruct Hr as (Hs & _).
    crack H; cbn in Hon; try contradiction;
      (split; [exact I|]); (split; [exact Hs|]);
      (split; [exact I | left; reflexivity]).
  - crack H; cbn in Hon; contradiction.
  - unfold bind at 1 in H. unfold get at 1 in H.
    crack H; cbn in Hon; contradiction.
  - crack H; cbn in Hon; contradiction.
  - apply bind_Ret in H. destruct H as ([r curr'] & w1 & _ & H).
    cbn beta iota zeta in H.
    destruct (r <? 0).
    { unfold bind at 1 in H. unfold get at 1 in H.
      crack H; cbn in Hon; contradiction. }
    destruct (negb (sameid curr' id));
      [crack H; cbn in Hon; contradiction|].
    apply bind_Ret in H. destruct H as (m & w2 & _ & H).
    destruct (m <=? 0); crack H; cbn in Hon; contradiction.
  - apply bind_Ret in H. destruct H as ([[r tag] ts'] & w1 & _ & H).
    cbn beta iota zeta in H.
    destruct (r <? 0).
    { unfold bind at 1 in H. unfold get at 1 in H.
      crack H; cbn in Hon; contradiction. }
    crack H; cbn in Hon; contradiction.
  - unfold ret in H. inversion H; subst. cbn in Hon. contradiction.
  - unfold ret in H. inversion H; subst. cbn in Hon. contradiction.
Qed.

Lemma ready_step d t a a' :
  (forall p, ready p a) -> take_turn d t a = Some a' ->
  forall p, ready p a'.
Proof.
  intros Hready Ht p'. apply take_turn_Some in Ht. cbv zeta in Ht.
  destruct Ht as (Hrun & [Hs1 Hs2] & Hlat & Hd & Hend & ->).
  destruct (party_cases (mover t) p') as [-> | ->].
  - unfold ready. rewrite side_mover.
    set (c := side (mover t) a) in *.
    set (w := set_clock (starts t) (set_disk (medium a) (c_world c))) in *.
    destruct (phase (c_fd c) (lease_at a) (c_id c) (c_busy c) (c_stage c) w)
      as [s' w' | st w'] eqn:Hph; cbn [final];
      cbn [moved c_stage c_id c_world c_read_at after_turn latest];
      [|intros []].
    intros Hon.
    destruct (phase_on_path _ _ _ _ _ _ _ _ Hph Hon)
      as (Hon0 & Hset & Hhas & Hwas).
    destruct (Hready (mover t) Hon0) as (Hi & Hwin & Hwh & Hr).
    split; [exact Hi|].
    split.
    { unfold contend_usec in *.
      destruct Hset as (_ & Ho & _).
      change (u32 (2 * op_max_ms w' * 1000) = win (mover t)).
      rewrite Ho. exact Hwin. }
    split; [apply (whole_settled w); assumption|].
    intros _. fold c in Hr.
    destruct (reads (c_stage c)) eqn:Hreads; [lia|].
    destruct Hwas as [Hw | Hw]; [discriminate|]. specialize (Hr Hw). lia.
  - unfold ready. rewrite side_other.
    cbn [after_turn latest]. intros Hon.
    destruct (Hready _ Hon) as (Hi & Hwin & Hwh & Hr).
    repeat split; try assumption. intros Hh. specialize (Hr Hh). lia.
Qed.

Lemma ready_play d sch : forall a a',
  (forall p, ready p a) -> play d sch a = Some a' -> forall p, ready p a'.
Proof.
  induction sch as [|t sch IH]; intros a a' Hr Hplay; cbn [play] in Hplay.
  - inversion Hplay; subst. exact Hr.
  - destruct (take_turn d t a) as [a1|] eqn:Ht; [|discriminate].
    apply (IH a1); [|exact Hplay]. apply (ready_step d t a); assumption.
Qed.

(** Two contenders that come to stand before their write together:
    under the prompt discipline not both win the round. *)
Lemma round_safe pre rest a0 a1 a' :
  c_id (sideA a0) = idA -> c_id (sideB a0) = idB ->
  contend_usec (sideA a0) = winA -> contend_usec (sideB a0) = winB ->
  (forall p, exists ts, c_stage (side p a0) = AtStart ts) ->
  Forall whole (device (c_world (sideA a0))) ->
  Forall whole (device (c_world (sideB a0))) ->
  play prompt pre a0 = Some a1 ->
  (forall p, exists curr last ts, c_stage (side p a1) = AtWrite curr last ts) ->
  play prompt rest a1 = Some a' ->
  ~ (won (sideA a') /\ won (sideB a')).
Proof.
  intros HiA HiB HwA HwB Hst HdA HdB Hpre Hboth Hrest.
  apply inv_one_winner. apply (inv_play rest a1); [|exact Hrest].
  assert (Hready : forall p, ready p a1).
  { apply (ready_play prompt pre a0); [|exact Hpre].
    intros p _. destruct (Hst p) as [ts Hs]. rewrite Hs.
    destruct p; cbn [side id_of win] in *;
      (split; [assumption|]); (split; [assumption|]);
      (split; [assumption|]); intros []. }
  right; right. split.
  - intros p. destruct (Hboth p) as (curr & last & ts & Hs).
    destruct (Hboth (opponent p)) as (curr' & last' & ts' & Hs').
    destruct (Hready p) as (Hi & Hwin & Hwh & Hr);
      [rewrite Hs; exact I|].
    unfold settled_in, timing. rewrite Hs in *.
    split; [exact Hi|]. split; [exact Hwin|]. split; [exact Hwh|].
    split; [exact I|]. split; [exact I|].
    split; [apply Hr; exact I|]. intros _. exact I.
  - intros Hall. specialize (Hall PartyA).
    destruct (Hboth PartyA) as (curr & last & ts & Hs).
    rewrite Hs in Hall. cbn in Hall. lia.
Qed.

End Round.

(** C1, as stated, fails.  [A] and [B] both run [acquire] on the free
    sector and both follow the protocol; [B] reads the sector free and
    is then held up for ten seconds, during which [A] writes, sleeps
    the contention window, reads its own tag back and renews; [B] then
    writes over it, sleeps, reads its own tag back and renews: both
    calls return 1.  Nor is a delay needed: when the kernel answers the
    later reads of [hostB] with 4 bytes, [readtag] accepts them, the
    tag compared is those 4 bytes followed by what the buffer held, its
    own tag, and both calls return 1 again. *)
Lemma both_win_the_round :
  match play any_order stalled_schedule two_on_free_sector with
  | Some a' =>
      c_stage (sideA a') = Over (Some (1, t0 + 2000))
      /\ c_stage (sideB a') = Over (Some (1, t0 + 10006000))
  | None => False
  end
  /\ match play prompt brisk_schedule two_hosts_short_reads with
     | Some a' =>
         c_stage (sideA a') = Over (Some (1, t0 + 1000))
         /\ c_stage (sideB a') = Over (Some (1, t0 + 1000))
     | None => False
     end.
Proof. vm_compute. repeat split. Qed.

(** Two rounds one after the other are another matter: when [A] has
    won and does not renew, [B] takes the sector over after
    [backoff_usec], and both calls have returned 1. *)
Lemma both_win_in_turn :
  match play prompt takeover_schedule two_in_turn with
  | Some a' =>
      c_stage (sideA a') = Over (Some (1, t0 + 1000))
      /\ c_stage (sideB a') = Over (Some (1, t0 + 110002000))
  | None => False
  end.
Proof. vm_compute. repeat split. Qed.

(** C1, amended: two contenders with different identities (beyond
    trailing spaces, of at most 16 bytes) run [acquire] on one sector
    and are in one round: at some moment both stand before the write
    of their stamp, each having made the reads that let it contend, of
    the free sector or of a tag that did not change over
    [backoff_usec], and neither has written; each goes on to the end of
    that round, [acquire] with its loops bounded by one.  Every
    transfer moves at least the 32 bytes of a tag or fails with a
    positive error number.  If the stamp each contender writes takes
    effect on the device less than the other's contention sleep after
    its own latest read took effect, then, however their phases
    interleave in real time, at most one of the two calls returns 1. *)
Theorem one_winner_per_round (pre rest : list turn) (a0 a1 a' : arena) :
  (forall p, exists ts, c_stage (side p a0) = AtStart ts) ->
  (length (c_id (sideA a0)) <= idlen)%nat ->
  (length (c_id (sideB a0)) <= idlen)%nat ->
  rstrip (c_id (sideA a0)) <> rstrip (c_id (sideB a0)) ->
  Forall whole (device (c_world (sideA a0))) ->
  Forall whole (device (c_world (sideB a0))) ->
  play prompt pre a0 = Some a1 ->
  (forall p, exists curr last ts,
      c_stage (side p a1) = AtWrite curr last ts) ->
  play prompt rest a1 = Some a' ->
  ~ (won (sideA a') /\ won (sideB a')).
Proof.
  intros Hst HlA HlB Hdiff HwA HwB Hpre Hboth Hrest.
  exact (round_safe (c_id (sideA a0)) (c_id (sideB a0))
           (contend_usec (sideA a0)) (contend_usec (sideB a0))
           HlA HlB Hdiff pre rest a0 a1 a'
           eq_refl eq_refl eq_refl eq_refl Hst HwA HwB Hpre Hboth Hrest).
Qed.

Lemma one_winner_per_round_witness :
  exists a',
    play prompt timely_schedule two_on_free_sector = Some a'
    /\ won (sideA a')
    /\ ~ (won (sideA a') /\ won (sideB a')).
Proof.
  eexists. split; [vm_compute; reflexivity|].
  split; [eexists; reflexivity|].
  eapply (one_winner_per_round (firstn 2 timely_schedule)
            (skipn 2 timely_schedule) two_on_free_sector).
  - intros [|]; eexists; reflexivity.
  - vm_compute. lia.
  - vm_compute. lia.
  - vm_compute. discriminate.
  - repeat constructor; unfold whole; cbn; lia.
  - repeat constructor; unfold whole; cbn; lia.
  - vm_compute. reflexivity.
  - intros [|]; do 3 eexists; reflexivity.
  - vm_compute. reflexivity.
Defined.
